(** * Protein graph pipeline: document loading, similarity rebuild and
    neighbourhood export.

    Shallow embedding of
    - [app/initialization_scripts/load_mongo.py]   (module [LoadMongo]),
    - [app/initialization_scripts/build_graph.py]  (module [BuildGraph]),
    - [app/search_queries/neo4j_queries.py]        (module [Neo4jQueries]).

    Conventions.
    - A Python [str] is a [string]; its characters are read as code points
      below 256.
    - A Python or Cypher float is an exact rational ([Q]): comparisons and
      arithmetic are those of the rationals, so statements about weights are
      statements about the values the floats stand for.
    - A Python [set] used for membership only is a [gset string]; a [dict]
      whose iteration order matters is an association list kept in
      insertion order. *)

From Stdlib Require Import Ascii ZArith QArith Qround Qabs Lia Lqa.
From Stdlib Require OrderedTypeEx.
From stdpp Require Import gmap strings list pretty sorting.

Local Open Scope Z_scope.

(** ** Python values and string methods *)

(** The values a cell, a document field or a scalar node property can hold. *)
Inductive pyval :=
| PyNone
| PyNaN
| PyStr (s : string)
| PyInt (z : Z).

Module Py.

(** [str.isspace] on one character (code points below 256). *)
Definition is_space (c : ascii) : bool :=
  let n := Ascii.N_of_ascii c in
  ((9 <=? n) && (n <=? 13) || (28 <=? n) && (n <=? 32)
   || (n =? 133) || (n =? 160))%N.

(** [s.split(sep)] for a one-character separator: the pieces between
    the separators, always at least one piece. *)
Fixpoint split (sep : ascii) (s : string) : list string :=
  match s with
  | EmptyString => [EmptyString]
  | String c s' =>
      if Ascii.eqb c sep then EmptyString :: split sep s'
      else match split sep s' with
           | h :: t => String c h :: t
           | [] => [String c EmptyString]
           end
  end.

Fixpoint lstrip (s : string) : string :=
  match s with
  | EmptyString => EmptyString
  | String c s' => if is_space c then lstrip s' else s
  end.

Fixpoint rstrip (s : string) : string :=
  match s with
  | EmptyString => EmptyString
  | String c s' =>
      match rstrip s' with
      | EmptyString => if is_space c then EmptyString else String c EmptyString
      | r => String c r
      end
  end.

(** [s.strip()] *)
Definition strip (s : string) : string := rstrip (lstrip s).

(** Truth value of a string: non-empty. *)
Definition truthy (s : string) : bool :=
  match s with EmptyString => false | _ => true end.

(** [str(v)] *)
Definition str (v : pyval) : string :=
  match v with
  | PyNone => "None"
  | PyNaN => "nan"
  | PyStr s => s
  | PyInt z => pretty z
  end.

Definition is_str (v : pyval) : bool :=
  match v with PyStr _ => true | _ => false end.

(** [sep.join(l)] *)
Fixpoint join (sep : ascii) (l : list string) : string :=
  match l with
  | [] => EmptyString
  | [x] => x
  | x :: t => String.append x (String sep (join sep t))
  end.

Lemma truthy_true s : truthy s = true <-> s <> EmptyString.
Proof. destruct s; simpl; split; congruence. Qed.

Lemma split_nonempty sep s : split sep s <> [].
Proof.
  destruct s as [|c s]; simpl; [discriminate|].
  destruct (Ascii.eqb c sep); [discriminate|].
  destruct (split sep s); discriminate.
Qed.

(** Splitting loses nothing: joining the pieces gives the string back. *)
Lemma join_split sep s : join sep (split sep s) = s.
Proof.
  induction s as [|c s IH]; simpl; [reflexivity|].
  destruct (Ascii.eqb_spec c sep) as [->|Hne].
  - pose proof (split_nonempty sep s) as Hn.
    destruct (split sep s) as [|h t]; [congruence|].
    change (join sep (EmptyString :: h :: t))
      with (String sep (join sep (h :: t))).
    now rewrite IH.
  - destruct (split sep s) as [|h t] eqn:E.
    + exfalso. eapply split_nonempty; eauto.
    + destruct t as [|h' t']; simpl in *; subst; reflexivity.
Qed.

(** [c in s] for one character. *)
Fixpoint has_char (c : ascii) (s : string) : bool :=
  match s with
  | EmptyString => false
  | String c' s' => Ascii.eqb c' c || has_char c s'
  end.

Lemma rstrip_idemp s : rstrip (rstrip s) = rstrip s.
Proof.
  induction s as [|c s IH]; [reflexivity|].
  cbn [rstrip]. destruct (rstrip s) as [|c' r] eqn:E.
  - destruct (is_space c) eqn:Ec; [reflexivity|].
    cbn [rstrip]. now rewrite Ec.
  - cbn [rstrip] in IH |- *. revert IH.
    destruct (rstrip r) as [|c'' r'].
    + destruct (is_space c'); [discriminate|]. intros ->. reflexivity.
    + intros ->. reflexivity.
Qed.

Lemma lstrip_head s :
  match lstrip s with EmptyString => True | String c _ => is_space c = false end.
Proof.
  induction s as [|c s IH]; cbn [lstrip]; [exact I|].
  destruct (is_space c) eqn:E; [exact IH|exact E].
Qed.

Lemma rstrip_head s :
  match s with EmptyString => True | String c _ => is_space c = false end ->
  lstrip (rstrip s) = rstrip s.
Proof.
  destruct s as [|c s]; [reflexivity|]. intros Hc.
  cbn [rstrip]. destruct (rstrip s).
  - rewrite Hc. cbn [lstrip]. now rewrite Hc.
  - cbn [lstrip]. now rewrite Hc.
Qed.

(** Stripping twice is stripping once. *)
Lemma strip_idemp s : strip (strip s) = strip s.
Proof.
  unfold strip. rewrite (rstrip_head (lstrip s) (lstrip_head s)).
  apply rstrip_idemp.
Qed.

Lemma lstrip_has_char c s : has_char c s = false -> has_char c (lstrip s) = false.
Proof.
  induction s as [|c' s IH]; [reflexivity|]. cbn [lstrip has_char].
  intros H. apply orb_false_iff in H as [H1 H2].
  destruct (is_space c'); [auto|]. cbn [has_char]. now rewrite H1, H2.
Qed.

Lemma rstrip_has_char c s : has_char c s = false -> has_char c (rstrip s) = false.
Proof.
  induction s as [|c' s IH]; [reflexivity|]. cbn [rstrip has_char].
  intros H. apply orb_false_iff in H as [H1 H2]. specialize (IH H2).
  destruct (rstrip s).
  - destruct (is_space c'); [reflexivity|]. cbn [has_char]. now rewrite H1.
  - cbn [has_char] in IH |- *. now rewrite H1, IH.
Qed.

Lemma strip_has_char c s : has_char c s = false -> has_char c (strip s) = false.
Proof. intros H. apply rstrip_has_char, lstrip_has_char, H. Qed.

(** No piece of a split holds the separator. *)
Lemma split_has_char sep s : Forall (fun p => has_char sep p = false) (split sep s).
Proof.
  induction s as [|c s IH]; cbn [split].
  - constructor; [reflexivity|constructor].
  - destruct (Ascii.eqb c sep) eqn:E.
    + constructor; [reflexivity|exact IH].
    + destruct (split sep s) as [|h t]; inversion IH; subst.
      * constructor; cbn [has_char]; [now rewrite E|constructor].
      * constructor; [|assumption]. cbn [has_char]. now rewrite E.
Qed.

Lemma split_append sep x rest :
  has_char sep x = false ->
  split sep (x +:+ String sep rest) = x :: split sep rest.
Proof.
  induction x as [|c x IH]; cbn [has_char]; intros H.
  - change (EmptyString +:+ String sep rest) with (String sep rest).
    cbn [split]. now rewrite Ascii.eqb_refl.
  - apply orb_false_iff in H as [H1 H2].
    change (String c x +:+ String sep rest) with (String c (x +:+ String sep rest)).
    cbn [split]. rewrite H1, (IH H2). reflexivity.
Qed.

Lemma split_no_sep sep x : has_char sep x = false -> split sep x = [x].
Proof.
  induction x as [|c x IH]; cbn [has_char split]; intros H; [reflexivity|].
  apply orb_false_iff in H as [H1 H2]. now rewrite H1, (IH H2).
Qed.

(** Joining pieces that do not hold the separator, and splitting again,
    gives the pieces back. *)
Lemma split_join sep l :
  l <> [] -> Forall (fun p => has_char sep p = false) l ->
  split sep (join sep l) = l.
Proof.
  induction l as [|x l IH]; [congruence|]. intros _ Hall.
  inversion Hall as [|? ? Hx Hl]; subst.
  destruct l as [|y l].
  - cbn [join]. now apply split_no_sep.
  - change (join sep (x :: y :: l)) with (x +:+ String sep (join sep (y :: l))).
    rewrite (split_append _ _ _ Hx), IH; [reflexivity|discriminate|exact Hl].
Qed.

End Py.

(** ** load_mongo.py *)

Module LoadMongo.

(** [split_semicolon_field] *)
Definition split_semicolon_field (val : pyval) : list string :=
  match val with
  | PyNone => []
  | PyNaN => []
  | _ =>
      omap (fun x => if Py.truthy (Py.strip x) then Some (Py.strip x) else None)
           (Py.split ";" (Py.str val))
  end.

(** A row of the data frame: column name to cell. *)
Definition row := gmap string pyval.

(** [row.get(key, default)] *)
Definition row_get (r : row) (key : string) (dflt : pyval) : pyval :=
  default dflt (r !! key).

Record sequence := { seq_length : pyval; seq_aa : string }.

Record doc := {
  _id : string;
  uniprot_id : string;
  entry_name : pyval;
  organism : string;
  protein_names : list string;
  doc_sequence : sequence;
  interpro_ids : list string;
  ec_numbers : list string;
  is_labelled : bool;
  last_updated : Z
}.

(** The body of the [for] loop of [process_and_insert_chunk]: [None] is
    the [continue] taken when [Entry] is not a string. [now] is the value
    of [datetime.now()]. *)
Definition make_doc (now : Z) (organism_default : string) (r : row) : option doc :=
  match row_get r "Entry" PyNone with
  | PyStr entry =>
      let seq := Py.str (row_get r "Sequence" (PyStr "")) in
      let final_organism :=
        match row_get r "Organism" PyNone with
        | PyStr o => o
        | _ => organism_default
        end in
      let ec_numbers := split_semicolon_field (row_get r "EC number" (PyStr "")) in
      Some {|
        _id := entry;
        uniprot_id := entry;
        entry_name := row_get r "Entry Name" PyNone;
        organism := final_organism;
        protein_names := split_semicolon_field (row_get r "Protein names" PyNone);
        doc_sequence :=
          {| seq_length :=
               match r !! "Length" with
               | Some v => v
               | None => PyInt (Z.of_nat (String.length seq))
               end;
             seq_aa := seq |};
        interpro_ids := split_semicolon_field (row_get r "InterPro" PyNone);
        ec_numbers := ec_numbers;
        is_labelled := bool_decide (0 < length ec_numbers)%nat;
        last_updated := now
      |}
  | _ => None
  end.

(** The collection, as the list of its documents. *)
Definition collection := list doc.

Definition has_id (col : collection) (i : string) : bool :=
  bool_decide (Exists (fun d => _id d = i) col).

(** [col.insert_many(docs, ordered=False)]: every document whose [_id]
    is not in the collection yet is inserted, the others are rejected;
    the result is the collection and the number inserted (the
    [nInserted] of the [BulkWriteError] when something was rejected). A
    store that fails altogether (the last [except], which returns 0 and
    inserts nothing) is not part of the model. *)
Fixpoint insert_many (docs : list doc) (col : collection) : collection * nat :=
  match docs with
  | [] => (col, 0%nat)
  | d :: rest =>
      if has_id col (_id d) then insert_many rest col
      else let '(col', n) := insert_many rest (col ++ [d]) in (col', S n)
  end.

(** [process_and_insert_chunk]; a chunk is the list of its rows. *)
Definition process_and_insert_chunk (now : Z) (chunk : list row)
    (col : collection) (organism_default : string) : collection * nat :=
  let docs := omap (make_doc now organism_default) chunk in
  match docs with
  | [] => (col, 0%nat)
  | _ => insert_many docs col
  end.

(** The text of a cell, when it holds one ([None] and [NaN] hold none). *)
Definition cell_text (v : pyval) : option string :=
  match v with
  | PyNone | PyNaN => None
  | _ => Some (Py.str v)
  end.

(** The semicolon-separated tokens of a cell: the pieces between the
    semicolons, surrounding white space removed. *)
Definition tokens (v : pyval) : list string :=
  match cell_text v with
  | None => []
  | Some s => map Py.strip (Py.split ";" s)
  end.

Lemma split_semicolon_field_tokens v :
  split_semicolon_field v = filter (fun t => t <> EmptyString) (tokens v).
Proof.
  unfold tokens, cell_text, split_semicolon_field.
  assert (H : forall l,
    omap (fun x => if Py.truthy (Py.strip x) then Some (Py.strip x) else None) l
    = filter (fun t => t <> EmptyString) (map Py.strip l)).
  { induction l as [|x l IH]; [reflexivity|].
    cbn [omap map list_omap]. rewrite filter_cons.
    destruct (decide (Py.strip x <> EmptyString)) as [Hd|Hd];
      destruct (Py.strip x) eqn:E; simpl; try congruence.
    - exfalso. apply Hd. discriminate. }
  destruct v; try reflexivity; apply H.
Qed.

Lemma insert_many_elem docs : forall col d,
  d ∈ (insert_many docs col).1 -> d ∈ col \/ d ∈ docs.
Proof.
  induction docs as [|x rest IH]; intros col d; simpl.
  - auto.
  - destruct (has_id col (_id x)).
    + intros H. destruct (IH _ _ H); [left|right]; auto. now constructor.
    + destruct (insert_many rest (col ++ [x])) as [col' n] eqn:E.
      simpl. intros H.
      specialize (IH (col ++ [x]) d). rewrite E in IH. simpl in IH.
      destruct (IH H) as [H1|H1].
      * apply elem_of_app in H1 as [H1|H1]; [now left|].
        apply list_elem_of_singleton in H1 as ->. right. constructor.
      * right. now constructor.
Qed.

Lemma make_doc_labelled now org r d :
  make_doc now org r = Some d ->
  ec_numbers d = split_semicolon_field (row_get r "EC number" (PyStr "")) /\
  is_labelled d = bool_decide (0 < length (ec_numbers d))%nat.
Proof.
  unfold make_doc. destruct (row_get r "Entry" PyNone); try discriminate.
  intros [= <-]. simpl. split; reflexivity.
Qed.

(** C9. Every document that [process_and_insert_chunk] adds to the
    collection was made from a row of the chunk, and its [is_labelled]
    flag is true exactly when the row's [EC number] cell has a non-empty
    semicolon-separated token; the flag is the non-emptiness of the stored
    [ec_numbers] list, never a value of its own. *)
Theorem is_labelled_iff_ec_token now chunk col organism_default d :
  d ∈ (process_and_insert_chunk now chunk col organism_default).1 ->
  d ∈ col \/
  exists r, r ∈ chunk /\ make_doc now organism_default r = Some d /\
    (is_labelled d = true <->
       exists t, t ∈ tokens (row_get r "EC number" (PyStr "")) /\ t <> EmptyString) /\
    (is_labelled d = true <-> ec_numbers d <> []) /\
    ec_numbers d =
      filter (fun t => t <> EmptyString) (tokens (row_get r "EC number" (PyStr ""))).
Proof.
  unfold process_and_insert_chunk. intros H.
  assert (Hin : d ∈ col \/ d ∈ omap (make_doc now organism_default) chunk).
  { destruct (omap (make_doc now organism_default) chunk) eqn:E.
    - now left.
    - apply insert_many_elem in H. exact H. }
  destruct Hin as [Hin|Hin]; [now left|right].
  apply list_elem_of_omap in Hin as (r & Hr & Hmk).
  exists r. split; [exact Hr|]. split; [exact Hmk|].
  destruct (make_doc_labelled _ _ _ _ Hmk) as [Hec Hlab].
  rewrite split_semicolon_field_tokens in Hec.
  assert (Hne : is_labelled d = true <-> ec_numbers d <> []).
  { rewrite Hlab, bool_decide_eq_true.
    destruct (ec_numbers d); simpl; split; intros; try lia; congruence. }
  split; [|split; [exact Hne|exact Hec]].
  rewrite Hne, Hec. split.
  - intros Hnil.
    destruct (filter _ _) as [|t l] eqn:E; [congruence|].
    assert (Ht : t ∈ filter (fun t => t <> EmptyString)
                   (tokens (row_get r "EC number" (PyStr "")))).
    { rewrite E. constructor. }
    apply list_elem_of_filter in Ht as [Ht1 Ht2]. eauto.
  - intros (t & Ht & Hnz) Hnil.
    assert (Ht' : t ∈ filter (fun t => t <> EmptyString)
                   (tokens (row_get r "EC number" (PyStr "")))).
    { apply list_elem_of_filter. auto. }
    rewrite Hnil in Ht'. inversion Ht'.
Qed.

(** A row with two EC numbers around a blank piece, and a row without
    EC numbers. *)
Definition example_row : row :=
  list_to_map [ ("Entry", PyStr "P12345");
                ("EC number", PyStr "1.1.1.1; ;2.7.11.1");
                ("InterPro", PyStr "IPR000001;IPR000002;") ].

Definition example_unlabelled_row : row :=
  list_to_map [ ("Entry", PyStr "Q00001"); ("EC number", PyNaN) ].

Definition example_doc : doc :=
  {| _id := "P12345"; uniprot_id := "P12345"; entry_name := PyNone;
     organism := "Mouse"; protein_names := [];
     doc_sequence := {| seq_length := PyInt 0; seq_aa := "" |};
     interpro_ids := ["IPR000001"; "IPR000002"];
     ec_numbers := ["1.1.1.1"; "2.7.11.1"];
     is_labelled := true; last_updated := 0 |}.

(** C9 on the example. *)
Lemma is_labelled_iff_ec_token_example :
  example_doc ∈ @nil doc \/
  exists r, r ∈ [example_row; example_unlabelled_row]
    /\ make_doc 0 "Mouse" r = Some example_doc /\
    (is_labelled example_doc = true <->
       exists t, t ∈ tokens (row_get r "EC number" (PyStr "")) /\ t <> EmptyString) /\
    (is_labelled example_doc = true <-> ec_numbers example_doc <> []) /\
    ec_numbers example_doc =
      filter (fun t => t <> EmptyString) (tokens (row_get r "EC number" (PyStr ""))).
Proof.
  apply (is_labelled_iff_ec_token 0 [example_row; example_unlabelled_row] []
           "Mouse" example_doc).
  vm_compute. constructor.
Defined.

(** A field of blanks and semicolons has no token: the document is not
    labelled. *)
Lemma blank_field_is_not_labelled :
  split_semicolon_field (PyStr " ; ;") = []
  /\ option_map is_labelled
       (make_doc 0 "Mouse"
          (list_to_map [("Entry", PyStr "P1"); ("EC number", PyStr " ; ;")]))
     = Some false.
Proof. vm_compute. split; reflexivity. Qed.

(** *** Loading a file *)

(** [get_mongo_collection]: the collection, emptied first when [reset] is
    set. *)
Definition get_mongo_collection (reset : bool) (col : collection) : collection :=
  if reset then [] else col.

(** The [for i, chunk in enumerate(reader)] loop of [load_tsv_smart];
    [clock i] is the time at which chunk [i] is processed. *)
Fixpoint load_chunks (clock : nat -> Z) (i : nat) (reader : list (list row))
    (col : collection) (organism_label : string) (total_inserted : nat)
  : collection * nat :=
  match reader with
  | [] => (col, total_inserted)
  | chunk :: rest =>
      let '(col', inserted) :=
        process_and_insert_chunk (clock i) chunk col organism_label in
      load_chunks clock (S i) rest col' organism_label (total_inserted + inserted)
  end.

(** [load_tsv_smart]. [file] is [None] when the path does not exist, and
    else the chunks the reader yields. The result is the collection the
    call leaves and the total it prints at the end ([None] when it returns
    before, the file missing). *)
Definition load_tsv_smart (clock : nat -> Z) (file : option (list (list row)))
    (organism_label : string) (reset_collection : bool) (col : collection)
  : collection * option nat :=
  match file with
  | None => (col, None)
  | Some reader =>
      let '(col', total_inserted) :=
        load_chunks clock 0 reader (get_mongo_collection reset_collection col)
                    organism_label 0 in
      (col', Some total_inserted)
  end.

Lemma has_id_spec col i : has_id col i = true <-> i ∈ map _id col.
Proof.
  unfold has_id. rewrite bool_decide_eq_true, Exists_exists.
  change (map _id col) with (_id <$> col). rewrite list_elem_of_fmap.
  split; intros (d & H1 & H2); exists d; auto.
Qed.

(** What [insert_many] does to the collection: it appends, in order, the
    documents whose [_id] is new. *)
Lemma insert_many_spec docs : forall col,
  exists added,
    insert_many docs col = (col ++ added, length added)
    /\ added `sublist_of` docs
    /\ (NoDup (map _id col) -> NoDup (map _id (col ++ added)))
    /\ (forall d, d ∈ docs -> _id d ∈ map _id (col ++ added)).
Proof.
  induction docs as [|d rest IH]; intros col; cbn [insert_many].
  - exists []. rewrite app_nil_r. repeat split; auto.
    intros d Hd. inversion Hd.
  - destruct (has_id col (_id d)) eqn:E.
    + destruct (IH col) as (added & Hrun & Hsub & Hnd & Hin).
      exists added. rewrite Hrun. repeat split; auto.
      * now apply sublist_cons.
      * intros x Hx. apply elem_of_cons in Hx as [->|Hx]; [|auto].
        apply has_id_spec in E. rewrite map_app. apply elem_of_app. now left.
    + destruct (IH (col ++ [d])) as (added & Hrun & Hsub & Hnd & Hin).
      exists (d :: added). rewrite Hrun.
      replace (col ++ d :: added) with ((col ++ [d]) ++ added)
        by (now rewrite <- app_assoc).
      repeat split; auto.
      * now apply sublist_skip.
      * intros Hcol. apply Hnd. rewrite map_app. cbn [map].
        apply NoDup_app. repeat split; [exact Hcol| |apply NoDup_singleton].
        intros x Hx Hx'. apply list_elem_of_singleton in Hx' as ->.
        apply has_id_spec in Hx. congruence.
      * intros x Hx. apply elem_of_cons in Hx as [->|Hx]; [|auto].
        rewrite !map_app. cbn [map]. apply elem_of_app. left.
        apply elem_of_app. right. constructor.
Qed.

(** A document has the [Entry] of its row as [_id], whatever the time and
    the default organism. *)
Lemma make_doc_id now org r d :
  make_doc now org r = Some d ->
  row_get r "Entry" PyNone = PyStr (_id d) /\ uniprot_id d = _id d.
Proof.
  unfold make_doc. destruct (row_get r "Entry" PyNone); try discriminate.
  intros [= <-]. auto.
Qed.

Lemma make_doc_Some now org r e :
  row_get r "Entry" PyNone = PyStr e ->
  exists d, make_doc now org r = Some d /\ _id d = e.
Proof. unfold make_doc. intros ->. eexists. split; reflexivity. Qed.

Lemma process_and_insert_chunk_spec now chunk col org :
  exists added,
    process_and_insert_chunk now chunk col org = (col ++ added, length added)
    /\ added `sublist_of` omap (make_doc now org) chunk
    /\ (NoDup (map _id col) -> NoDup (map _id (col ++ added)))
    /\ (forall r e, r ∈ chunk -> row_get r "Entry" PyNone = PyStr e ->
          e ∈ map _id (col ++ added)).
Proof.
  unfold process_and_insert_chunk.
  destruct (insert_many_spec (omap (make_doc now org) chunk) col)
    as (added & Hrun & Hsub & Hnd & Hin).
  assert (Hids : forall r e, r ∈ chunk -> row_get r "Entry" PyNone = PyStr e ->
                   e ∈ map _id (col ++ added)).
  { intros r e Hr He. destruct (make_doc_Some now org r e He) as (d & Hd & <-).
    apply Hin. apply list_elem_of_omap. eauto. }
  destruct (omap (make_doc now org) chunk) as [|d0 docs] eqn:E.
  - cbn [insert_many] in Hrun. injection Hrun as Hrun _.
    exists []. rewrite app_nil_r. repeat split; auto.
    intros r e Hr He. specialize (Hids r e Hr He).
    now rewrite <- Hrun in Hids.
  - exists added. rewrite Hrun. auto.
Qed.

Lemma load_chunks_spec clock label reader : forall i col total,
  exists added,
    load_chunks clock i reader col label total = (col ++ added, (total + length added)%nat)
    /\ (NoDup (map _id col) -> NoDup (map _id (col ++ added)))
    /\ (forall chunk r e, chunk ∈ reader -> r ∈ chunk ->
          row_get r "Entry" PyNone = PyStr e -> e ∈ map _id (col ++ added))
    /\ (forall d, d ∈ added ->
          exists j chunk r, reader !! j = Some chunk /\ r ∈ chunk
                            /\ make_doc (clock (i + j)%nat) label r = Some d).
Proof.
  induction reader as [|chunk rest IH]; intros i col total; cbn [load_chunks].
  - exists []. rewrite app_nil_r, Nat.add_0_r. repeat split; auto.
    + intros chunk r e H. inversion H.
    + intros d H. inversion H.
  - destruct (process_and_insert_chunk_spec (clock i) chunk col label)
      as (a1 & Hrun & Hsub & Hnd & Hids).
    rewrite Hrun.
    destruct (IH (S i) (col ++ a1) (total + length a1)%nat)
      as (a2 & Hrun2 & Hnd2 & Hids2 & Hfrom2).
    exists (a1 ++ a2). rewrite Hrun2, app_assoc, length_app, Nat.add_assoc.
    repeat split; auto.
    + intros c r e Hc Hr He. apply elem_of_cons in Hc as [->|Hc]; [|eauto].
      specialize (Hids r e Hr He). rewrite map_app. apply elem_of_app. now left.
    + intros d Hd. apply elem_of_app in Hd as [Hd|Hd].
      * assert (Hd' : d ∈ omap (make_doc (clock i) label) chunk).
        { exact (sublist_subseteq _ _ Hsub d Hd). }
        apply list_elem_of_omap in Hd' as (r & Hr & Hmk).
        exists 0%nat, chunk, r. rewrite Nat.add_0_r. auto.
      * destruct (Hfrom2 d Hd) as (j & c & r & Hj & Hr & Hmk).
        exists (S j), c, r. rewrite Nat.add_succ_r. auto.
Qed.

Lemma process_and_insert_chunk_present now chunk col org :
  (forall r e, r ∈ chunk -> row_get r "Entry" PyNone = PyStr e -> e ∈ map _id col) ->
  process_and_insert_chunk now chunk col org = (col, 0%nat).
Proof.
  intros Hall. unfold process_and_insert_chunk.
  assert (Hdocs : forall d, d ∈ omap (make_doc now org) chunk -> has_id col (_id d) = true).
  { intros d Hd. apply list_elem_of_omap in Hd as (r & Hr & Hmk).
    apply has_id_spec. apply (Hall r); [exact Hr|].
    now destruct (make_doc_id _ _ _ _ Hmk). }
  induction (omap (make_doc now org) chunk) as [|d docs IH]; [reflexivity|].
  cbn [insert_many]. rewrite Hdocs by constructor.
  destruct docs as [|d' docs']; [reflexivity|].
  apply IH. intros x Hx. apply Hdocs. now constructor.
Qed.

Lemma load_chunks_present clock label reader : forall i col total,
  (forall chunk r e, chunk ∈ reader -> r ∈ chunk ->
     row_get r "Entry" PyNone = PyStr e -> e ∈ map _id col) ->
  load_chunks clock i reader col label total = (col, total).
Proof.
  induction reader as [|chunk rest IH]; intros i col total Hall; [reflexivity|].
  cbn [load_chunks].
  rewrite process_and_insert_chunk_present
    by (intros r e Hr; apply (Hall chunk); [constructor|exact Hr]).
  rewrite Nat.add_0_r. apply IH.
  intros c r e Hc. apply Hall. now constructor.
Qed.

(** What [split_semicolon_field] returns never holds an empty token, a
    token with white space around it, or a semicolon. *)
Theorem split_semicolon_field_clean (val : pyval) (t : string) :
  t ∈ split_semicolon_field val ->
  t <> EmptyString /\ Py.strip t = t /\ Py.has_char ";" t = false.
Proof.
  intros H.
  assert (Hp : exists x, x ∈ Py.split ";" (Py.str val)
                         /\ Py.truthy (Py.strip x) = true /\ t = Py.strip x).
  { unfold split_semicolon_field in H.
    destruct val; try (inversion H; fail);
      apply list_elem_of_omap in H as (x & Hx & Hs);
      exists x; (split; [exact Hx|]);
      destruct (Py.truthy (Py.strip x)); try discriminate;
      injection Hs as <-; auto. }
  destruct Hp as (x & Hx & Ht & ->).
  split; [now apply Py.truthy_true|]. split; [apply Py.strip_idemp|].
  apply Py.strip_has_char.
  pose proof (Py.split_has_char ";" (Py.str val)) as Hall.
  rewrite Forall_forall in Hall. now apply Hall.
Qed.

Lemma split_semicolon_field_clean_example :
  "2.7.11.1" <> EmptyString /\ Py.strip "2.7.11.1" = "2.7.11.1"
  /\ Py.has_char ";" "2.7.11.1" = false.
Proof.
  apply (split_semicolon_field_clean (PyStr "1.1.1.1; ;2.7.11.1") "2.7.11.1").
  vm_compute. do 1 constructor. constructor.
Defined.

(** A list of tokens written as one field, the tokens joined by
    semicolons, is read back as it was, when no token is empty, has white
    space around it or holds a semicolon. *)
Theorem split_semicolon_field_join (l : list string) :
  Forall (fun t => t <> EmptyString /\ Py.strip t = t /\ Py.has_char ";" t = false) l ->
  split_semicolon_field (PyStr (Py.join ";" l)) = l.
Proof.
  intros Hall. unfold split_semicolon_field. cbn [Py.str].
  assert (Hkeep : omap (fun x => if Py.truthy (Py.strip x) then Some (Py.strip x) else None) l
                  = l).
  { induction Hall as [|t l (Hne & Hs & _) _ IH]; [reflexivity|].
    cbn [omap list_omap]. rewrite Hs.
    apply Py.truthy_true in Hne. rewrite Hne. cbn. f_equal. exact IH. }
  destruct l as [|t l]; [reflexivity|].
  rewrite Py.split_join; [exact Hkeep|discriminate|].
  eapply Forall_impl; [exact Hall|]. intros x (_ & _ & Hx). exact Hx.
Qed.

Lemma split_semicolon_field_join_example :
  split_semicolon_field (PyStr (Py.join ";" ["IPR000001"; "IPR000002"]))
  = ["IPR000001"; "IPR000002"].
Proof.
  apply (split_semicolon_field_join ["IPR000001"; "IPR000002"]).
  repeat constructor; try discriminate; reflexivity.
Defined.

(** A load never touches a document that is in the collection: the
    collection it leaves is the one it started from (emptied first when
    [reset_collection] is set) followed by the documents it added, each
    made from a row of the file; the total it prints is the number of
    documents added; and no two documents share an [_id] afterwards when
    none did before. *)
Theorem load_keeps_documents (clock : nat -> Z) (reader : list (list row))
    (organism_label : string) (reset_collection : bool) (col : collection) :
  NoDup (map _id (get_mongo_collection reset_collection col)) ->
  exists added,
    load_tsv_smart clock (Some reader) organism_label reset_collection col
    = (get_mongo_collection reset_collection col ++ added, Some (length added))
    /\ NoDup (map _id (get_mongo_collection reset_collection col ++ added))
    /\ (forall d, d ∈ added ->
          exists j chunk r, reader !! j = Some chunk /\ r ∈ chunk
                            /\ make_doc (clock j) organism_label r = Some d).
Proof.
  intros Hnd. unfold load_tsv_smart.
  destruct (load_chunks_spec clock organism_label reader 0
              (get_mongo_collection reset_collection col) 0)
    as (added & Hrun & Hnd' & _ & Hfrom).
  exists added. rewrite Hrun. cbn [Nat.add]. auto.
Qed.

Lemma load_keeps_documents_example :
  exists added,
    load_tsv_smart (fun _ => 0) (Some [[example_row]; [example_unlabelled_row; example_row]])
                   "Mouse" true [example_doc]
    = (get_mongo_collection true [example_doc] ++ added, Some (length added))
    /\ NoDup (map _id (get_mongo_collection true [example_doc] ++ added))
    /\ (forall d, d ∈ added ->
          exists j chunk r,
            [[example_row]; [example_unlabelled_row; example_row]] !! j = Some chunk
            /\ r ∈ chunk /\ make_doc ((fun _ => 0) j) "Mouse" r = Some d).
Proof.
  apply (load_keeps_documents (fun _ => 0)
           [[example_row]; [example_unlabelled_row; example_row]] "Mouse" true
           [example_doc]).
  cbn. apply NoDup_nil_2.
Defined.

(** Loading a file a second time, without reset, adds nothing: every row
    is rejected as a duplicate, the collection stays as it is and the total
    printed is 0, whatever the time and the organism label of the second
    load. *)
Theorem reload_inserts_nothing (clock clock' : nat -> Z) (reader : list (list row))
    (organism_label organism_label' : string) (reset_collection : bool)
    (col : collection) :
  load_tsv_smart clock' (Some reader) organism_label' false
    (load_tsv_smart clock (Some reader) organism_label reset_collection col).1
  = ((load_tsv_smart clock (Some reader) organism_label reset_collection col).1,
     Some 0%nat).
Proof.
  unfold load_tsv_smart.
  destruct (load_chunks_spec clock organism_label reader 0
              (get_mongo_collection reset_collection col) 0)
    as (added & Hrun & _ & Hids & _).
  rewrite Hrun. cbn [fst get_mongo_collection].
  now rewrite load_chunks_present.
Qed.

End LoadMongo.

(** ** The graph store *)

Module Neo4j.

(** A [:Protein] node with the properties the scripts read or write; a
    property that is not set is [PyNone] or [None]. *)
Record protein_node := {
  uniprot_id : string;
  entry_name : pyval;
  organism : pyval;
  p_length : pyval;
  ec_numbers : list string;
  is_labelled : bool;
  protein_names : option (list string);
  domain_count : option Z
}.

(** A [:Domain] node. *)
Record domain_node := {
  interpro_id : string;
  name : option string
}.

(** A [:SIMILAR] relationship, from the protein [source] to the protein
    [target] (both given by their [uniprot_id]). *)
Record similar_rel := {
  source : string;
  target : string;
  jaccard_weight : option Q;
  shared_domains : option Z;
  union_domains : option Z
}.

(** A graph projected into the GDS catalog: node labels [Protein] and
    [Domain], relationship type [HAS_DOMAIN]. *)
Record projection := {
  proj_proteins : list string;
  proj_domains : list string;
  proj_has_domain : list (string * string)
}.

(** The database: nodes, [HAS_DOMAIN] relationships (protein id, domain
    id), [SIMILAR] relationships, the GDS graph catalog and the declared
    constraints and indexes. *)
Record graph_db := {
  proteins : list protein_node;
  domains : list domain_node;
  has_domain : list (string * string);
  similar : list similar_rel;
  catalog : list (string * projection);
  schema : list string
}.

Definition empty_db : graph_db :=
  {| proteins := []; domains := []; has_domain := []; similar := [];
     catalog := []; schema := [] |}.

(** [MATCH (p:Protein {uniprot_id: $id})], first match. *)
Definition find_protein (db : graph_db) (id : string) : option protein_node :=
  List.find (fun p => String.eqb (uniprot_id p) id) (proteins db).

(** [COUNT { (p)-[:HAS_DOMAIN]->() }] *)
Definition count_domains (db : graph_db) (id : string) : Z :=
  Z.of_nat (length (List.filter (fun e => String.eqb (fst e) id) (has_domain db))).

Fixpoint assoc {A} (k : string) (l : list (string * A)) : option A :=
  match l with
  | [] => None
  | (k', v) :: l' => if String.eqb k' k then Some v else assoc k l'
  end.

Definition remove_key {A} (k : string) (l : list (string * A)) : list (string * A) :=
  List.filter (fun e => negb (String.eqb (fst e) k)) l.

Lemma assoc_remove_key {A} k (l : list (string * A)) :
  assoc k (remove_key k l) = None.
Proof.
  induction l as [|[k' v] l IH]; simpl; [reflexivity|].
  destruct (String.eqb_spec k' k) as [->|Hne]; simpl; [exact IH|].
  destruct (String.eqb_spec k' k); [congruence|exact IH].
Qed.

Lemma assoc_app_new {A} k (v : A) (l : list (string * A)) :
  assoc k l = None -> assoc k (l ++ [(k, v)]) = Some v.
Proof.
  induction l as [|[k' v'] l IH]; simpl.
  - now rewrite String.eqb_refl.
  - destruct (String.eqb k' k); [discriminate|exact IH].
Qed.

Lemma remove_key_app_new {A} k (v : A) (l : list (string * A)) :
  remove_key k (l ++ [(k, v)]) = remove_key k l.
Proof.
  unfold remove_key. rewrite List.filter_app. simpl.
  rewrite String.eqb_refl. simpl. apply app_nil_r.
Qed.

Lemma remove_key_idemp {A} k (l : list (string * A)) :
  remove_key k (remove_key k l) = remove_key k l.
Proof.
  unfold remove_key. induction l as [|[k' v] l IH]; simpl; [reflexivity|].
  destruct (String.eqb k' k) eqn:E; simpl; [exact IH|].
  rewrite E. simpl. now rewrite IH.
Qed.

End Neo4j.

(** ** build_graph.py *)

Module BuildGraph.
Import Neo4j.

(** Thresholds and names. *)
Definition MIN_JACCARD_WEIGHT : Q := 1 # 10.
Definition GRAPH_NAME : string := "protein_domain_graph".
Definition RELATIONSHIP_TYPE : string := "SIMILAR".
Definition IMPORT_BATCH_SIZE : nat := 2500.

(** A row of an import batch. *)
Record import_row := {
  row_uniprot_id : string;
  row_entry_name : pyval;
  row_organism : pyval;
  row_length : pyval;
  row_ec_numbers : list string;
  row_is_labelled : bool;
  row_interpro_ids : list string
}.

(** The configuration map passed to [gds.nodeSimilarity.write]. *)
Record similarity_config := {
  similarityMetric : string;
  writeRelationshipType : string;
  writeProperty : string;
  similarityCutoff : Q;
  concurrency : Z
}.

(** The statements the script sends to the database with [session.run]. *)
Inductive statement :=
| CreateConstraintProtein
| CreateConstraintDomain
| CreateIndexOrganism
| ImportBatch (rows : list import_row)
| DeleteRelationships (rel_type : string)
| DropGraphIfExists (graph : string)
| ProjectGraph (graph : string)
| NodeSimilarityWrite (graph : string) (cfg : similarity_config)
| DropGraph (graph : string)
| SetDomainCounts
| SetSharedUnionDomains.

(** *** The formula of [calculate_shared_union_domains_math] *)

(** Cypher [round()]: nearest integer, ties towards positive infinity. *)
Definition cypher_round (x : Q) : Q := inject_Z (Qfloor (x + (1 # 2))).

(** Cypher [toInteger()] on a float: truncation. *)
Definition toInteger (x : Q) : Z := Z.quot (Qnum x) (Zpos (Qden x)).

(** [toInteger(round((J * (A + B)) / (1.0 + J)))] *)
Definition intersect_of (J : Q) (A B : Z) : Z :=
  toInteger (cypher_round ((J * inject_Z (A + B)) / (1 + J))).

(** The two values the statement sets on a relationship:
    [shared_domains] and [union_domains]. *)
Definition shared_union (J : Q) (A B : Z) : Z * Z :=
  let intersect := intersect_of J A B in
  (intersect, (A + B) - intersect).

Lemma toInteger_inject_Z z : toInteger (inject_Z z) = z.
Proof. unfold toInteger. simpl. apply Z.quot_1_r. Qed.

Lemma cypher_round_integer z (x : Q) :
  (x == inject_Z z)%Q -> cypher_round x = inject_Z z.
Proof.
  intros Hx. unfold cypher_round. f_equal.
  rewrite Hx. unfold Qfloor, Qplus, inject_Z. simpl.
  symmetry. apply (Z.div_unique _ _ _ 1); lia.
Qed.

(** Solving [J = I / (A + B - I)] for [I]. *)
Lemma jaccard_inverse (A B s : Z) (J : Q) :
  1 <= s -> s <= A -> s <= B ->
  (J == inject_Z s / inject_Z (A + B - s))%Q ->
  ((J * inject_Z (A + B)) / (1 + J) == inject_Z s)%Q.
Proof.
  intros Hs HA HB HJ.
  assert (Hu : ~ (inject_Z (A + B - s) == 0)%Q).
  { intros H. apply (inject_Z_injective (A + B - s) 0) in H. lia. }
  assert (Hab : ~ (inject_Z (A + B) == 0)%Q).
  { intros H. apply (inject_Z_injective (A + B) 0) in H. lia. }
  rewrite HJ.
  assert (E : (inject_Z (A + B) == inject_Z (A + B - s) + inject_Z s)%Q).
  { rewrite <- inject_Z_plus. apply inject_Z_injective. lia. }
  rewrite E in Hab |- *.
  field. split; [exact Hu|].
  intros H. apply Hab. rewrite <- H. ring.
Qed.

(** *** Meaning of the statements *)

(** [MERGE (p:Protein {uniprot_id: row.uniprot_id}) SET ...]: the five
    properties are overwritten on a node that exists, the others kept. *)
Definition set_row (row : import_row) (p : protein_node) : protein_node :=
  {| uniprot_id := uniprot_id p;
     entry_name := row_entry_name row;
     organism := row_organism row;
     p_length := row_length row;
     ec_numbers := row_ec_numbers row;
     is_labelled := row_is_labelled row;
     protein_names := protein_names p;
     domain_count := domain_count p |}.

Definition new_protein (row : import_row) : protein_node :=
  {| uniprot_id := row_uniprot_id row;
     entry_name := row_entry_name row;
     organism := row_organism row;
     p_length := row_length row;
     ec_numbers := row_ec_numbers row;
     is_labelled := row_is_labelled row;
     protein_names := None;
     domain_count := None |}.

Definition merge_protein (row : import_row) (ps : list protein_node)
  : list protein_node :=
  if existsb (fun p => String.eqb (uniprot_id p) (row_uniprot_id row)) ps
  then map (fun p => if String.eqb (uniprot_id p) (row_uniprot_id row)
                     then set_row row p else p) ps
  else ps ++ [new_protein row].

(** [MERGE (d:Domain {interpro_id: interpro_id})] *)
Definition merge_domain (did : string) (ds : list domain_node) : list domain_node :=
  if existsb (fun d => String.eqb (interpro_id d) did) ds then ds
  else ds ++ [{| interpro_id := did; name := None |}].

(** [MERGE (p)-[:HAS_DOMAIN]->(d)] *)
Definition merge_has_domain (pid did : string) (es : list (string * string))
  : list (string * string) :=
  if existsb (fun e => String.eqb (fst e) pid && String.eqb (snd e) did) es then es
  else es ++ [(pid, did)].

Definition import_row_into (db : graph_db) (row : import_row) : graph_db :=
  fold_left
    (fun db did =>
       {| proteins := proteins db;
          domains := merge_domain did (domains db);
          has_domain := merge_has_domain (row_uniprot_id row) did (has_domain db);
          similar := similar db; catalog := catalog db; schema := schema db |})
    (row_interpro_ids row)
    {| proteins := merge_protein row (proteins db);
       domains := domains db; has_domain := has_domain db;
       similar := similar db; catalog := catalog db; schema := schema db |}.

Definition add_schema (s : string) (db : graph_db) : graph_db :=
  {| proteins := proteins db; domains := domains db;
     has_domain := has_domain db; similar := similar db;
     catalog := catalog db;
     schema := if existsb (String.eqb s) (schema db) then schema db
               else schema db ++ [s] |}.

Definition set_similar (l : list similar_rel) (db : graph_db) : graph_db :=
  {| proteins := proteins db; domains := domains db;
     has_domain := has_domain db; similar := l;
     catalog := catalog db; schema := schema db |}.

Definition set_catalog (c : list (string * projection)) (db : graph_db) : graph_db :=
  {| proteins := proteins db; domains := domains db;
     has_domain := has_domain db; similar := similar db;
     catalog := c; schema := schema db |}.

Definition set_proteins (ps : list protein_node) (db : graph_db) : graph_db :=
  {| proteins := ps; domains := domains db;
     has_domain := has_domain db; similar := similar db;
     catalog := catalog db; schema := schema db |}.

(** [gds.graph.project(name, ['Protein', 'Domain'], 'HAS_DOMAIN')]:
    every node of the two labels, every [HAS_DOMAIN] relationship. *)
Definition project (db : graph_db) : projection :=
  {| proj_proteins := map uniprot_id (proteins db);
     proj_domains := map interpro_id (domains db);
     proj_has_domain := has_domain db |}.

Definition written_rel (e : string * string * Q) : similar_rel :=
  {| source := fst (fst e); target := snd (fst e);
     jaccard_weight := Some (snd e);
     shared_domains := None; union_domains := None |}.

(** The [SET] of [calculate_shared_union_domains_math] on one matched
    relationship; an operand that is [null] makes both values [null]. *)
Definition enrich (db : graph_db) (r : similar_rel) : similar_rel :=
  match find_protein db (source r), find_protein db (target r) with
  | Some p1, Some p2 =>
      match domain_count p1, domain_count p2, jaccard_weight r with
      | Some A, Some B, Some J =>
          {| source := source r; target := target r;
             jaccard_weight := jaccard_weight r;
             shared_domains := Some (fst (shared_union J A B));
             union_domains := Some (snd (shared_union J A B)) |}
      | _, _, _ =>
          {| source := source r; target := target r;
             jaccard_weight := jaccard_weight r;
             shared_domains := None; union_domains := None |}
      end
  | _, _ => r
  end.

Definition set_domain_count (db : graph_db) (p : protein_node) : protein_node :=
  {| uniprot_id := uniprot_id p; entry_name := entry_name p;
     organism := organism p; p_length := p_length p;
     ec_numbers := ec_numbers p; is_labelled := is_labelled p;
     protein_names := protein_names p;
     domain_count := Some (count_domains db (uniprot_id p)) |}.

(** *** Programs over the session *)

(** The state of a run: the database and the statements sent so far. *)
Record session := { db : graph_db; issued : list statement }.

(** A call returns or raises. *)
Inductive outcome (A : Type) :=
| Returned (a : A) (s : session)
| Raised (s : session).
Arguments Returned {A} a s.
Arguments Raised {A} s.

Definition M (A : Type) := session -> outcome A.

#[global] Instance M_ret : MRet M := fun A a s => Returned a s.

#[global] Instance M_bind : MBind M := fun A B k m s =>
  match m s with
  | Returned a s' => k a s'
  | Raised s' => Raised s'
  end.

Section WithEngine.

(** The node-similarity procedure of the GDS library is not part of the
    scripts: it is a parameter, giving for a configuration and a projected
    graph the scored pairs (first node, second node, score) it writes. *)
Variable node_similarity :
  similarity_config -> projection -> list (string * string * Q).

(** The relationships [gds.nodeSimilarity.write] creates: one per scored
    pair whose two nodes are proteins of the projected graph. *)
Definition written (cfg : similarity_config) (pr : projection) : list similar_rel :=
  map written_rel
    (List.filter
       (fun e => existsb (String.eqb (fst (fst e))) (proj_proteins pr)
                 && existsb (String.eqb (snd (fst e))) (proj_proteins pr))
       (node_similarity cfg pr)).

(** One statement on the database; [None] when the database refuses it
    (a graph projected twice, a graph that is not in the catalog). *)
Definition exec (st : statement) (db : graph_db) : option graph_db :=
  match st with
  | CreateConstraintProtein => Some (add_schema "Protein.uniprot_id" db)
  | CreateConstraintDomain => Some (add_schema "Domain.interpro_id" db)
  | CreateIndexOrganism => Some (add_schema "Protein.organism" db)
  | ImportBatch rows => Some (fold_left import_row_into rows db)
  | DeleteRelationships ty =>
      Some (if String.eqb ty RELATIONSHIP_TYPE then set_similar [] db else db)
  | DropGraphIfExists g => Some (set_catalog (remove_key g (catalog db)) db)
  | ProjectGraph g =>
      match assoc g (catalog db) with
      | Some _ => None
      | None => Some (set_catalog (catalog db ++ [(g, project db)]) db)
      end
  | NodeSimilarityWrite g cfg =>
      match assoc g (catalog db) with
      | Some pr => Some (set_similar (similar db ++ written cfg pr) db)
      | None => None
      end
  | DropGraph g =>
      match assoc g (catalog db) with
      | Some _ => Some (set_catalog (remove_key g (catalog db)) db)
      | None => None
      end
  | SetDomainCounts => Some (set_proteins (map (set_domain_count db) (proteins db)) db)
  | SetSharedUnionDomains => Some (set_similar (map (enrich db) (similar db)) db)
  end.

(** *** The script *)

(** [session.run(query)] *)
Definition run (st : statement) : M unit :=
  fun s =>
    match exec st (db s) with
    | Some db' => Returned tt {| db := db'; issued := issued s ++ [st] |}
    | None => Raised {| db := db s; issued := issued s ++ [st] |}
    end.

(** [import_batch] *)
Definition import_batch (proteins_batch : list import_row) : M unit :=
  run (ImportBatch proteins_batch).

(** The row the loop of [import_proteins_and_domains] makes of a
    document; [None] is its [continue]. *)
Definition row_of_doc (d : LoadMongo.doc) : option import_row :=
  let uid := if Py.truthy (LoadMongo.uniprot_id d) then LoadMongo.uniprot_id d
             else LoadMongo._id d in
  if Py.truthy uid then
    Some {| row_uniprot_id := uid;
            row_entry_name := LoadMongo.entry_name d;
            row_organism := PyStr (LoadMongo.organism d);
            row_length := LoadMongo.seq_length (LoadMongo.doc_sequence d);
            row_ec_numbers := LoadMongo.ec_numbers d;
            row_is_labelled := LoadMongo.is_labelled d;
            row_interpro_ids := LoadMongo.interpro_ids d |}
  else None.

(** The [for doc in cursor] loop with its pending [batch], and the
    flush of the last batch after it. *)
Fixpoint import_loop (docs : list LoadMongo.doc) (batch : list import_row) : M unit :=
  match docs with
  | [] => match batch with [] => mret tt | _ => import_batch batch end
  | d :: rest =>
      match row_of_doc d with
      | None => import_loop rest batch
      | Some r =>
          let batch' := batch ++ [r] in
          if (IMPORT_BATCH_SIZE <=? length batch')%nat
          then import_batch batch' ;; import_loop rest []
          else import_loop rest batch'
      end
  end.

(** [import_proteins_and_domains] *)
Definition import_proteins_and_domains (col : LoadMongo.collection) : M unit :=
  run CreateConstraintProtein ;;
  run CreateConstraintDomain ;;
  run CreateIndexOrganism ;;
  import_loop col [].

(** [clean_previous_data] *)
Definition clean_previous_data : M unit :=
  run (DeleteRelationships RELATIONSHIP_TYPE) ;;
  run (DropGraphIfExists GRAPH_NAME).

(** [project_graph]; the procedure yields its summary row whenever it
    succeeds, so the [raise] of the script is the refusal by [exec]. *)
Definition project_graph : M unit := run (ProjectGraph GRAPH_NAME).

Definition similarity_config_of (threshold : Q) : similarity_config :=
  {| similarityMetric := "JACCARD";
     writeRelationshipType := RELATIONSHIP_TYPE;
     writeProperty := "jaccard_weight";
     similarityCutoff := threshold;
     concurrency := 4 |}.

(** [run_gds_similarity] *)
Definition run_gds_similarity (threshold : Q) : M unit :=
  run (NodeSimilarityWrite GRAPH_NAME (similarity_config_of threshold)).

(** [drop_graph_projection] *)
Definition drop_graph_projection : M unit := run (DropGraph GRAPH_NAME).

(** [precalculate_domain_counts] *)
Definition precalculate_domain_counts : M unit := run SetDomainCounts.

(** [calculate_shared_union_domains_math] *)
Definition calculate_shared_union_domains_math : M unit := run SetSharedUnionDomains.

(** [build_similarity_edges_gds_math] *)
Definition build_similarity_edges_gds_math : M unit :=
  clean_previous_data ;;
  project_graph ;;
  run_gds_similarity MIN_JACCARD_WEIGHT ;;
  drop_graph_projection ;;
  precalculate_domain_counts ;;
  calculate_shared_union_domains_math.

(** The main block of the script. *)
Definition main (col : LoadMongo.collection) : M unit :=
  import_proteins_and_domains col ;;
  build_similarity_edges_gds_math.

(** *** How the programs run *)

Lemma bind_run {A B} (m : M A) (k : A -> M B) s :
  (m ≫= k) s = match m s with
               | Returned a s' => k a s'
               | Raised s' => Raised s'
               end.
Proof. reflexivity. Qed.

Lemma run_returns st s db' :
  exec st (db s) = Some db' ->
  run st s = Returned tt {| db := db'; issued := issued s ++ [st] |}.
Proof. unfold run. now intros ->. Qed.

(** The statements of [build_similarity_edges_gds_math], in the order
    the function sends them. *)
Definition build_statements : list statement :=
  [ DeleteRelationships RELATIONSHIP_TYPE;
    DropGraphIfExists GRAPH_NAME;
    ProjectGraph GRAPH_NAME;
    NodeSimilarityWrite GRAPH_NAME (similarity_config_of MIN_JACCARD_WEIGHT);
    DropGraph GRAPH_NAME;
    SetDomainCounts;
    SetSharedUnionDomains ].

(** The database when the domain counts have been set, just before the
    last statement. *)
Definition counted_db (db0 : graph_db) : graph_db :=
  {| proteins := map (set_domain_count db0) (proteins db0);
     domains := domains db0;
     has_domain := has_domain db0;
     similar := written (similarity_config_of MIN_JACCARD_WEIGHT) (project db0);
     catalog := remove_key GRAPH_NAME (catalog db0);
     schema := schema db0 |}.

(** The database [build_similarity_edges_gds_math] leaves. *)
Definition rebuilt_db (db0 : graph_db) : graph_db :=
  set_similar (map (enrich (counted_db db0)) (similar (counted_db db0)))
              (counted_db db0).

Lemma bind_run_returns {B} st (k : unit -> M B) s db' :
  exec st (db s) = Some db' ->
  (run st ≫= k) s = k tt {| db := db'; issued := issued s ++ [st] |}.
Proof. intros H. rewrite bind_run, (run_returns _ _ _ H). reflexivity. Qed.

Lemma build_similarity_edges_runs s :
  build_similarity_edges_gds_math s =
  Returned tt {| db := rebuilt_db (db s);
                 issued := issued s ++ build_statements |}.
Proof.
  destruct s as [d tr].
  unfold build_similarity_edges_gds_math, clean_previous_data, project_graph,
    run_gds_similarity, drop_graph_projection, precalculate_domain_counts,
    calculate_shared_union_domains_math.
  rewrite bind_run, bind_run.
  erewrite run_returns by reflexivity.
  erewrite run_returns by reflexivity.
  cbn [db issued].
  erewrite bind_run_returns
    by (cbn [exec db set_catalog catalog]; rewrite assoc_remove_key; reflexivity).
  erewrite bind_run_returns
    by (cbn [exec db set_catalog catalog];
        rewrite (assoc_app_new _ _ _ (assoc_remove_key _ _)); reflexivity).
  erewrite bind_run_returns
    by (cbn [exec db set_catalog set_similar catalog];
        rewrite (assoc_app_new _ _ _ (assoc_remove_key _ _)); reflexivity).
  erewrite bind_run_returns by reflexivity.
  erewrite run_returns by reflexivity.
  cbn [db issued]. f_equal. f_equal.
  - unfold rebuilt_db, counted_db, set_similar, set_catalog, set_proteins.
    cbn [proteins domains has_domain similar catalog schema].
    rewrite String.eqb_refl.
    cbn [proteins domains has_domain similar catalog schema app].
    rewrite remove_key_app_new, remove_key_idemp.
    reflexivity.
  - rewrite <- !app_assoc. reflexivity.
Qed.

Lemma import_batch_size_pos : (0 < IMPORT_BATCH_SIZE)%nat.
Proof. apply Nat.ltb_lt. vm_compute. reflexivity. Qed.

(** The loop sends the rows in batches: non-empty, of at most
    [IMPORT_BATCH_SIZE] rows, all the rows in order; the database it
    leaves is the one the rows give one after the other. *)
Lemma import_loop_runs docs : forall batch s,
  (length batch < IMPORT_BATCH_SIZE)%nat ->
  exists bs,
    import_loop docs batch s =
      Returned tt {| db := fold_left import_row_into
                             (batch ++ omap row_of_doc docs) (db s);
                     issued := issued s ++ map ImportBatch bs |}
    /\ concat bs = batch ++ omap row_of_doc docs
    /\ Forall (fun b => b <> [] /\ (length b <= IMPORT_BATCH_SIZE)%nat) bs.
Proof.
  induction docs as [|d rest IH]; intros batch s Hlen.
  - cbn [import_loop omap list_omap]. rewrite app_nil_r.
    destruct batch as [|r batch].
    + exists []. destruct s; cbn. rewrite app_nil_r. auto.
    + exists [r :: batch]. split; [|split].
      * unfold import_batch. erewrite run_returns by reflexivity. reflexivity.
      * cbn. now rewrite app_nil_r.
      * constructor; [|constructor]. split; [discriminate|lia].
  - cbn [import_loop omap list_omap].
    destruct (row_of_doc d) as [r|]; [|apply IH; exact Hlen].
    destruct (Nat.leb_spec IMPORT_BATCH_SIZE (length (batch ++ [r]))) as [Hge|Hlt].
    + unfold import_batch. erewrite bind_run_returns by reflexivity.
      destruct (IH [] {| db := fold_left import_row_into (batch ++ [r]) (db s);
                         issued := issued s ++ [ImportBatch (batch ++ [r])] |}
                  import_batch_size_pos) as (bs & Hrun & Hcat & Hall).
      exists ((batch ++ [r]) :: bs). split; [|split].
      * rewrite Hrun. cbn [db issued app]. f_equal. f_equal.
        -- rewrite <- fold_left_app. f_equal. now rewrite <- app_assoc.
        -- now rewrite <- app_assoc.
      * cbn [concat]. rewrite Hcat. cbn [app]. now rewrite <- app_assoc.
      * constructor; [|exact Hall]. split.
        -- destruct batch; discriminate.
        -- rewrite length_app in *. cbn [length] in *. lia.
    + destruct (IH (batch ++ [r]) s Hlt) as (bs & Hrun & Hcat & Hall).
      exists bs. rewrite Hrun, Hcat, <- !app_assoc. auto.
Qed.

(** The database after the three schema statements. *)
Definition with_schema (d : graph_db) : graph_db :=
  add_schema "Protein.organism"
    (add_schema "Domain.interpro_id" (add_schema "Protein.uniprot_id" d)).

(** The database after [import_proteins_and_domains]. *)
Definition imported_db (col : LoadMongo.collection) (d : graph_db) : graph_db :=
  fold_left import_row_into (omap row_of_doc col) (with_schema d).

Lemma main_runs col s :
  exists bs,
    main col s =
      Returned tt
        {| db := rebuilt_db (imported_db col (db s));
           issued := issued s
             ++ [CreateConstraintProtein; CreateConstraintDomain; CreateIndexOrganism]
             ++ map ImportBatch bs ++ build_statements |}
    /\ concat bs = omap row_of_doc col
    /\ Forall (fun b => b <> [] /\ (length b <= IMPORT_BATCH_SIZE)%nat) bs.
Proof.
  unfold main, import_proteins_and_domains.
  rewrite bind_run.
  erewrite bind_run_returns by reflexivity.
  erewrite bind_run_returns by reflexivity.
  erewrite bind_run_returns by reflexivity.
  match goal with |- context [import_loop col [] ?s0] =>
    destruct (import_loop_runs col [] s0 import_batch_size_pos)
      as (bs & Hrun & Hcat & Hall)
  end.
  exists bs. rewrite Hrun, build_similarity_edges_runs.
  cbn [db issued app] in *. split; [|split; assumption].
  f_equal. f_equal. rewrite <- !app_assoc. reflexivity.
Qed.

(** *** The database the rebuild leaves *)

Lemma find_protein_counted d id :
  existsb (String.eqb id) (map uniprot_id (proteins d)) = true ->
  exists p, find_protein (counted_db d) id = Some p
            /\ uniprot_id p = id
            /\ domain_count p = Some (count_domains d id).
Proof.
  unfold find_protein, counted_db. cbn [proteins].
  induction (proteins d) as [|q ps IH]; cbn [map existsb List.find]; [discriminate|].
  cbn [set_domain_count uniprot_id].
  rewrite (String.eqb_sym id).
  destruct (String.eqb_spec (uniprot_id q) id) as [E|E].
  - intros _. eexists. split; [reflexivity|]. cbn. now rewrite E.
  - cbn [orb]. exact IH.
Qed.

Lemma rebuilt_proteins d p :
  p ∈ proteins (rebuilt_db d) ->
  domain_count p = Some (count_domains d (uniprot_id p)).
Proof.
  unfold rebuilt_db, counted_db, set_similar. cbn [proteins].
  intros H. apply list_elem_of_fmap in H as (q & -> & _). reflexivity.
Qed.

Lemma rebuilt_similar d r :
  r ∈ similar (rebuilt_db d) ->
  exists J,
    jaccard_weight r = Some J
    /\ shared_domains r =
         Some (intersect_of J (count_domains d (source r)) (count_domains d (target r)))
    /\ union_domains r =
         Some (count_domains d (source r) + count_domains d (target r)
               - intersect_of J (count_domains d (source r))
                                (count_domains d (target r))).
Proof.
  unfold rebuilt_db, set_similar. cbn [similar].
  intros H. apply list_elem_of_fmap in H as (r0 & -> & H0).
  unfold counted_db in H0 at 1. cbn [similar] in H0. unfold written in H0.
  apply list_elem_of_fmap in H0 as (e & -> & He).
  apply list_elem_of_In, List.filter_In in He as [_ He].
  apply andb_true_iff in He as [H1 H2]. cbn [project proj_proteins] in H1, H2.
  destruct (find_protein_counted d _ H1) as (p1 & F1 & _ & C1).
  destruct (find_protein_counted d _ H2) as (p2 & F2 & _ & C2).
  exists (snd e). unfold enrich. cbn [written_rel source target jaccard_weight].
  rewrite F1, F2, C1, C2.
  cbn [source target jaccard_weight shared_domains union_domains shared_union fst snd].
  auto.
Qed.

End WithEngine.

(** The proteins that carry a domain, in a projected graph and in the
    database. *)
Definition carriers (pr : projection) (dom : string) : list string :=
  map fst (List.filter (fun e => String.eqb (snd e) dom) (proj_has_domain pr)).

Definition db_carriers (d : graph_db) (dom : string) : list string :=
  map fst (List.filter (fun e => String.eqb (snd e) dom) (has_domain d)).

(** The step of the rebuild sequence of the specification a statement
    belongs to: 1 constraints and indexes, 2 import, 3 deletion of the
    similarity edges, 4 domain counts, 5 (and 6) similarity computed and
    persisted, 7 shared and union counts. The statements that manage the
    projected graph belong to none. *)
Definition spec_step (st : statement) : option nat :=
  match st with
  | CreateConstraintProtein | CreateConstraintDomain | CreateIndexOrganism => Some 1%nat
  | ImportBatch _ => Some 2%nat
  | DeleteRelationships _ => Some 3%nat
  | SetDomainCounts => Some 4%nat
  | NodeSimilarityWrite _ _ => Some 5%nat
  | SetSharedUnionDomains => Some 7%nat
  | DropGraphIfExists _ | ProjectGraph _ | DropGraph _ => None
  end.

(** The steps are in the order of the specification. *)
Fixpoint in_spec_order (l : list nat) : bool :=
  match l with
  | a :: (b :: _) as t => (a <=? b)%nat && in_spec_order t
  | _ => true
  end.

(** *** An engine to run the script on examples *)

(** The distinct domains of a protein in a projected graph. *)
Definition domains_of (pr : projection) (u : string) : list string :=
  remove_dups
    (map snd (List.filter (fun e => String.eqb (fst e) u) (proj_has_domain pr))).

(** The Jaccard coefficient of two proteins that share a domain. *)
Definition jaccard (pr : projection) (u v : string) : option Q :=
  let du := domains_of pr u in
  let dv := domains_of pr v in
  let inter := length (List.filter (fun d => existsb (String.eqb d) dv) du) in
  if (0 <? inter)%nat
  then Some (Z.of_nat inter # Pos.of_nat (length du + length dv - inter))
  else None.

(** Every ordered pair of distinct proteins that share a domain, scored
    with its Jaccard coefficient, kept when the score reaches the cutoff.
    It stands in for the external procedure in the examples below; what
    that procedure selects beyond the cutoff is not described by it. *)
Definition exact_jaccard (cfg : similarity_config) (pr : projection)
  : list (string * string * Q) :=
  flat_map
    (fun u =>
       omap (fun v =>
               if String.eqb u v then None
               else match jaccard pr u v with
                    | Some J => if Qle_bool (similarityCutoff cfg) J
                                then Some (u, v, J) else None
                    | None => None
                    end)
            (proj_proteins pr))
    (proj_proteins pr).

Definition example_doc (id : string) (doms : list string) : LoadMongo.doc :=
  {| LoadMongo._id := id; LoadMongo.uniprot_id := id;
     LoadMongo.entry_name := PyNone; LoadMongo.organism := "Mouse";
     LoadMongo.protein_names := [];
     LoadMongo.doc_sequence :=
       {| LoadMongo.seq_length := PyNone; LoadMongo.seq_aa := "" |};
     LoadMongo.interpro_ids := doms; LoadMongo.ec_numbers := [];
     LoadMongo.is_labelled := false; LoadMongo.last_updated := 0 |}.

(** Three proteins that all carry the domain [IPR1]. *)
Definition example_collection : LoadMongo.collection :=
  [ example_doc "P1" ["IPR1"; "IPR2"];
    example_doc "P2" ["IPR1"];
    example_doc "P3" ["IPR1"; "IPR3"] ].

Definition start : session := {| db := empty_db; issued := [] |}.

Definition issued_of {A} (o : outcome A) : list statement :=
  match o with Returned _ s | Raised s => issued s end.

Definition db_of {A} (o : outcome A) : graph_db :=
  match o with Returned _ s | Raised s => db s end.

(** *** Where the weights of the rebuilt edges come from *)

Lemma enrich_keeps_weight d r :
  source (enrich d r) = source r
  /\ target (enrich d r) = target r
  /\ jaccard_weight (enrich d r) = jaccard_weight r.
Proof.
  unfold enrich.
  destruct (find_protein d (source r)) as [p1|]; [|auto].
  destruct (find_protein d (target r)) as [p2|]; [|auto].
  destruct (domain_count p1), (domain_count p2), (jaccard_weight r); auto.
Qed.





(** *** Properties *)

(** C1, as the script has it. The whole run returns, and the statements
    it sends are, in this order: the two constraints and the index, the
    import batches, the deletion of the [SIMILAR] relationships, the
    handling of the projected graph around the node-similarity write
    (which computes and persists the edges), then the domain counts, then
    the shared and union counts. The domain counts are therefore set after
    the similarity edges are written and before the shared and union
    counts are filled: in the database the run leaves, every protein has
    the count of its [HAS_DOMAIN] relationships and every [SIMILAR]
    relationship has the two values the formula gives from these counts. *)
Theorem rebuild_runs_in_script_order
    (node_similarity : similarity_config -> projection -> list (string * string * Q))
    (col : LoadMongo.collection) (s : session) :
  exists bs s',
    main node_similarity col s = Returned tt s'
    /\ issued s' =
         issued s
         ++ [CreateConstraintProtein; CreateConstraintDomain; CreateIndexOrganism]
         ++ map ImportBatch bs
         ++ [ DeleteRelationships RELATIONSHIP_TYPE;
              DropGraphIfExists GRAPH_NAME;
              ProjectGraph GRAPH_NAME;
              NodeSimilarityWrite GRAPH_NAME (similarity_config_of MIN_JACCARD_WEIGHT);
              DropGraph GRAPH_NAME;
              SetDomainCounts;
              SetSharedUnionDomains ]
    /\ concat bs = omap row_of_doc col
    /\ (forall p, p ∈ proteins (db s') ->
          domain_count p = Some (count_domains (db s') (uniprot_id p)))
    /\ (forall r, r ∈ similar (db s') ->
          exists J,
            jaccard_weight r = Some J
            /\ shared_domains r =
                 Some (intersect_of J (count_domains (db s') (source r))
                                      (count_domains (db s') (target r)))
            /\ union_domains r =
                 Some (count_domains (db s') (source r)
                       + count_domains (db s') (target r)
                       - intersect_of J (count_domains (db s') (source r))
                                        (count_domains (db s') (target r)))).
Proof.
  destruct (main_runs node_similarity col s) as (bs & Hrun & Hcat & _).
  exists bs. eexists. split; [exact Hrun|].
  cbn [db issued]. split; [reflexivity|]. split; [exact Hcat|]. split.
  - intros p Hp. apply rebuilt_proteins in Hp. exact Hp.
  - intros r Hr. apply rebuilt_similar in Hr. exact Hr.
Qed.

(** C1, as the specification has it, fails: on three proteins that share a
    domain the steps of the specification come in the order
    1, 1, 1, 2, 3, 5, 4, 7, which is not increasing; and when the first
    three calls of [build_similarity_edges_gds_math] have returned, the six
    similarity edges are written while no protein has a domain count. *)
Lemma domain_counts_follow_similarity :
  omap spec_step (issued_of (main exact_jaccard example_collection start))
    = [1; 1; 1; 2; 3; 5; 4; 7]%nat
  /\ in_spec_order
       (omap spec_step (issued_of (main exact_jaccard example_collection start)))
     = false
  /\ map domain_count
       (proteins (db_of ((import_proteins_and_domains exact_jaccard example_collection ;;
                          clean_previous_data exact_jaccard ;;
                          project_graph exact_jaccard ;;
                          run_gds_similarity exact_jaccard MIN_JACCARD_WEIGHT) start)))
     = [None; None; None]
  /\ length
       (similar (db_of ((import_proteins_and_domains exact_jaccard example_collection ;;
                         clean_previous_data exact_jaccard ;;
                         project_graph exact_jaccard ;;
                         run_gds_similarity exact_jaccard MIN_JACCARD_WEIGHT) start)))
     = 6%nat.
Proof. vm_compute. repeat split; reflexivity. Qed.

(** C3. With [J] the exact quotient [s / (A + B - s)] of a shared count
    [s] between 1 and [min A B], the formula gives back [s] as
    [shared_domains] and [A + B - s] as [union_domains]. *)
Theorem edge_enricher_round_trip (A B s : Z) (J : Q) :
  1 <= A -> 1 <= B -> 1 <= s <= Z.min A B ->
  (J == inject_Z s / inject_Z (A + B - s))%Q ->
  intersect_of J A B = s /\ shared_union J A B = (s, A + B - s).
Proof.
  intros HA HB Hs HJ.
  assert (E : intersect_of J A B = s).
  { unfold intersect_of.
    rewrite (cypher_round_integer s).
    - apply toInteger_inject_Z.
    - apply jaccard_inverse; [lia..|exact HJ]. }
  split; [exact E|]. unfold shared_union. now rewrite E.
Qed.

(** C3 at [A = 10], [B = 8], [s = 4]: [J = 4/14], and the formula gives
    back 4 and 14. *)
Lemma edge_enricher_round_trip_10_8_4 :
  intersect_of (4 # 14) 10 8 = 4 /\ shared_union (4 # 14) 10 8 = (4, 14).
Proof.
  apply (edge_enricher_round_trip 10 8 4 (4 # 14)); [lia | lia | lia | reflexivity].
Defined.

(** C7, as the script has it. [run_gds_similarity] sends one statement,
    whose configuration holds the metric, the relationship type and
    property to write, the cutoff it was given and the concurrency, and
    nothing else; the rebuild runs the procedure once, on the projection of
    the whole graph, in which every domain has all the proteins that carry
    it in the database. *)
Theorem similarity_runs_on_every_membership
    (node_similarity : similarity_config -> projection -> list (string * string * Q))
    (threshold : Q) (s : session) :
  run_gds_similarity node_similarity threshold s =
    run node_similarity
      (NodeSimilarityWrite GRAPH_NAME
         {| similarityMetric := "JACCARD";
            writeRelationshipType := "SIMILAR";
            writeProperty := "jaccard_weight";
            similarityCutoff := threshold;
            concurrency := 4 |}) s
  /\ (exists s',
        build_similarity_edges_gds_math node_similarity s = Returned tt s'
        /\ similar (db s') =
             map (enrich (counted_db node_similarity (db s)))
                 (written node_similarity
                    (similarity_config_of MIN_JACCARD_WEIGHT) (project (db s))))
  /\ (forall dom, carriers (project (db s)) dom = db_carriers (db s) dom).
Proof.
  split; [reflexivity|]. split.
  - eexists. split; [apply build_similarity_edges_runs|]. reflexivity.
  - intros dom. reflexivity.
Qed.

(** C7, as the specification has it, fails: [IPR1] is carried by three proteins,
    more than a cap of two would allow, yet the projection handed to the
    procedure has the three of them, and with the example engine the
    rebuild writes an edge for each of the six ordered pairs. *)
Lemma fan_out_is_not_capped :
  db_carriers (imported_db example_collection empty_db) "IPR1" = ["P1"; "P2"; "P3"]
  /\ (2 <? length (db_carriers (imported_db example_collection empty_db) "IPR1"))%nat
     = true
  /\ carriers (project (imported_db example_collection empty_db)) "IPR1"
     = ["P1"; "P2"; "P3"]
  /\ map (fun r => (source r, target r))
       (similar (db_of (main exact_jaccard example_collection start)))
     = [("P1", "P2"); ("P1", "P3"); ("P2", "P1");
        ("P2", "P3"); ("P3", "P1"); ("P3", "P2")].
Proof. vm_compute. repeat split; reflexivity. Qed.

(** *** What [MERGE] keeps *)

(** [MERGE] on a key: a list that holds an element with the key stays as
    it is, and else gets a new element at its end. *)
Section MergeKey.
Context {A K : Type} `{EqDecision K} (key : A -> K) (mk : K -> A).
Hypothesis key_mk : forall k, key (mk k) = k.

Definition merge_key (k : K) (l : list A) : list A :=
  if decide (k ∈ map key l) then l else l ++ [mk k].

Definition merge_keys (ks : list K) (l : list A) : list A :=
  fold_left (fun l k => merge_key k l) ks l.

Lemma merge_keys_cons k ks l : merge_keys (k :: ks) l = merge_keys ks (merge_key k l).
Proof. reflexivity. Qed.

Lemma merge_keys_prefix ks : forall l, exists added, merge_keys ks l = l ++ added.
Proof.
  induction ks as [|k ks IH]; intros l.
  - exists []. cbn. now rewrite app_nil_r.
  - rewrite merge_keys_cons.
    destruct (IH (merge_key k l)) as (added & ->). unfold merge_key.
    destruct (decide (k ∈ map key l)); [eauto|].
    exists (mk k :: added). now rewrite <- app_assoc.
Qed.

Lemma merge_keys_elem ks : forall l k,
  k ∈ map key (merge_keys ks l) <-> k ∈ map key l \/ k ∈ ks.
Proof.
  induction ks as [|k0 ks IH]; intros l k.
  - cbn. split; [auto|]. intros [H|H]; [exact H|inversion H].
  - rewrite merge_keys_cons, IH, elem_of_cons.
    unfold merge_key. destruct (decide (k0 ∈ map key l)) as [Hin|Hout].
    + split; [tauto|]. intros [H|[->|H]]; auto.
    + rewrite map_app, elem_of_app. cbn [map]. rewrite key_mk, list_elem_of_singleton.
      tauto.
Qed.

Lemma merge_keys_NoDup ks : forall l,
  NoDup (map key l) -> NoDup (map key (merge_keys ks l)).
Proof.
  induction ks as [|k ks IH]; intros l Hl; [exact Hl|].
  rewrite merge_keys_cons.
  apply IH. unfold merge_key. destruct (decide (k ∈ map key l)) as [Hin|Hout]; [exact Hl|].
  rewrite map_app. cbn [map]. rewrite key_mk.
  apply NoDup_app. repeat split; [exact Hl| |apply NoDup_singleton].
  intros x Hx Hx'. apply list_elem_of_singleton in Hx' as ->. contradiction.
Qed.

Lemma merge_keys_absorb ks : forall l,
  (forall k, k ∈ ks -> k ∈ map key l) -> merge_keys ks l = l.
Proof.
  induction ks as [|k ks IH]; intros l Hall; [reflexivity|].
  rewrite merge_keys_cons.
  unfold merge_key at 1. rewrite decide_True by (apply Hall; constructor).
  apply IH. intros k' Hk'. apply Hall. now constructor.
Qed.

Lemma merge_keys_idemp ks l : merge_keys ks (merge_keys ks l) = merge_keys ks l.
Proof. apply merge_keys_absorb. intros k Hk. apply merge_keys_elem. now right. Qed.

End MergeKey.

Lemma existsb_elem {A} (f : A -> bool) (l : list A) :
  existsb f l = true <-> exists x, x ∈ l /\ f x = true.
Proof.
  rewrite existsb_exists. split; intros (x & H1 & H2); exists x;
    (split; [now apply list_elem_of_In|exact H2]).
Qed.

Definition new_domain (did : string) : domain_node :=
  {| interpro_id := did; name := None |}.

Lemma merge_domain_key did ds :
  merge_domain did ds = merge_key interpro_id new_domain did ds.
Proof.
  unfold merge_domain, merge_key.
  destruct (existsb _ ds) eqn:E.
  - rewrite decide_True; [reflexivity|].
    apply existsb_elem in E as (x & Hx & He). apply String.eqb_eq in He as <-.
    apply list_elem_of_fmap. eauto.
  - rewrite decide_False; [reflexivity|].
    intros H. apply list_elem_of_fmap in H as (x & -> & Hx).
    assert (existsb (fun d => String.eqb (interpro_id d) (interpro_id x)) ds = true).
    { apply existsb_elem. exists x. split; [exact Hx|apply String.eqb_refl]. }
    congruence.
Qed.

Lemma merge_has_domain_key pid did es :
  merge_has_domain pid did es = merge_key (fun e => e) (fun e => e) (pid, did) es.
Proof.
  unfold merge_has_domain, merge_key. rewrite map_id.
  destruct (existsb _ es) eqn:E.
  - rewrite decide_True; [reflexivity|].
    apply existsb_elem in E as ([a b] & Hx & He). cbn in He.
    apply andb_true_iff in He as [H1 H2].
    apply String.eqb_eq in H1 as <-. apply String.eqb_eq in H2 as <-. exact Hx.
  - rewrite decide_False; [reflexivity|].
    intros H.
    assert (existsb (fun e => String.eqb (fst e) pid && String.eqb (snd e) did) es = true).
    { apply existsb_elem. exists (pid, did). split; [exact H|].
      cbn. now rewrite !String.eqb_refl. }
    congruence.
Qed.

(** The [SET] of the import on one node. *)
Definition step (row : import_row) (p : protein_node) : protein_node :=
  if String.eqb (uniprot_id p) (row_uniprot_id row) then set_row row p else p.

(** The [SET]s of a list of rows on one node, in order. *)
Definition upd (rows : list import_row) (p : protein_node) : protein_node :=
  fold_left (fun p r => step r p) rows p.

Lemma step_keeps r p :
  uniprot_id (step r p) = uniprot_id p
  /\ protein_names (step r p) = protein_names p
  /\ domain_count (step r p) = domain_count p.
Proof. unfold step. destruct (String.eqb _ _); auto. Qed.

Lemma upd_keeps rows : forall p,
  uniprot_id (upd rows p) = uniprot_id p
  /\ protein_names (upd rows p) = protein_names p
  /\ domain_count (upd rows p) = domain_count p.
Proof.
  induction rows as [|r rows IH]; intros p; cbn; [auto|].
  fold (upd rows (step r p)).
  destruct (IH (step r p)) as (-> & -> & ->). apply step_keeps.
Qed.

Lemma set_row_ext r p q :
  uniprot_id p = uniprot_id q -> protein_names p = protein_names q ->
  domain_count p = domain_count q -> set_row r p = set_row r q.
Proof. unfold set_row. now intros -> -> ->. Qed.

Lemma upd_app rows1 rows2 p : upd (rows1 ++ rows2) p = upd rows2 (upd rows1 p).
Proof. unfold upd. apply fold_left_app. Qed.

Lemma upd_other rows : forall p,
  uniprot_id p ∉ map row_uniprot_id rows -> upd rows p = p.
Proof.
  induction rows as [|r rows IH]; intros p Hp; cbn; [reflexivity|].
  cbn [map] in Hp. apply not_elem_of_cons in Hp as [H1 H2].
  assert (E : step r p = p).
  { unfold step. apply String.eqb_neq in H1. now rewrite H1. }
  rewrite E. now apply IH.
Qed.

Lemma merge_protein_ids r ps :
  map uniprot_id (merge_protein r ps)
  = merge_key (fun i => i) (fun i => i) (row_uniprot_id r) (map uniprot_id ps).
Proof.
  unfold merge_protein, merge_key. rewrite map_id.
  destruct (existsb _ ps) eqn:E.
  - rewrite decide_True.
    + rewrite map_map. apply map_ext. intros p.
      destruct (String.eqb _ _); reflexivity.
    + apply existsb_elem in E as (x & Hx & He). apply String.eqb_eq in He as <-.
      apply list_elem_of_fmap. eauto.
  - rewrite decide_False; [now rewrite map_app|].
    intros H. apply list_elem_of_fmap in H as (x & Hid & Hx).
    assert (existsb (fun p => String.eqb (uniprot_id p) (row_uniprot_id r)) ps = true).
    { apply existsb_elem. exists x. split; [exact Hx|]. rewrite Hid. apply String.eqb_refl. }
    congruence.
Qed.

Lemma merge_protein_step r ps :
  row_uniprot_id r ∈ map uniprot_id ps -> merge_protein r ps = map (step r) ps.
Proof.
  intros H. unfold merge_protein.
  replace (existsb _ ps) with true; [reflexivity|].
  symmetry. apply existsb_elem.
  apply list_elem_of_fmap in H as (x & Hid & Hx).
  exists x. split; [exact Hx|]. rewrite Hid. apply String.eqb_refl.
Qed.

Lemma merge_protein_new r ps :
  row_uniprot_id r ∉ map uniprot_id ps -> merge_protein r ps = ps ++ [new_protein r].
Proof.
  intros H. unfold merge_protein.
  replace (existsb _ ps) with false; [reflexivity|].
  symmetry. apply not_true_is_false. intros E.
  apply existsb_elem in E as (x & Hx & He). apply String.eqb_eq in He.
  apply H. rewrite <- He. apply list_elem_of_fmap. eauto.
Qed.

(** The proteins after the rows of an import. *)
Definition merge_proteins (rows : list import_row) (ps : list protein_node)
  : list protein_node :=
  fold_left (fun ps r => merge_protein r ps) rows ps.

Lemma merge_proteins_ids rows : forall ps,
  map uniprot_id (merge_proteins rows ps)
  = merge_keys (fun i => i) (fun i => i) (map row_uniprot_id rows) (map uniprot_id ps).
Proof.
  induction rows as [|r rows IH]; intros ps; cbn; [reflexivity|].
  fold (merge_proteins rows (merge_protein r ps)).
  rewrite IH, merge_protein_ids. reflexivity.
Qed.

Lemma merge_proteins_app rows1 rows2 ps :
  merge_proteins (rows1 ++ rows2) ps = merge_proteins rows2 (merge_proteins rows1 ps).
Proof. unfold merge_proteins. apply fold_left_app. Qed.

Lemma merge_proteins_elem_ids rows ps i :
  i ∈ map uniprot_id (merge_proteins rows ps)
  <-> i ∈ map uniprot_id ps \/ i ∈ map row_uniprot_id rows.
Proof.
  rewrite merge_proteins_ids.
  rewrite <- (map_id (merge_keys _ _ _ _)).
  rewrite (merge_keys_elem (fun i => i) (fun i => i)) by reflexivity.
  now rewrite map_id.
Qed.

Lemma merge_proteins_present rows : forall ps,
  (forall r, r ∈ rows -> row_uniprot_id r ∈ map uniprot_id ps) ->
  merge_proteins rows ps = map (upd rows) ps.
Proof.
  induction rows as [|r rows IH]; intros ps Hall; cbn.
  - symmetry. apply map_id.
  - fold (merge_proteins rows (merge_protein r ps)).
    rewrite merge_protein_step by (apply Hall; constructor).
    rewrite IH.
    + rewrite map_map. reflexivity.
    + intros r' Hr'. rewrite map_map.
      erewrite map_ext; [apply Hall; now constructor|].
      intros p. apply step_keeps.
Qed.

(** Every node is as the rows leave it: applying their [SET]s once more
    changes nothing. *)
Lemma merge_proteins_settled rows : forall ps p,
  p ∈ merge_proteins rows ps -> upd rows p = p.
Proof.
  induction rows as [|r rows IH] using rev_ind; intros ps p; [reflexivity|].
  rewrite merge_proteins_app, upd_app. cbn.
  set (qs := merge_proteins rows ps).
  intros Hp.
  assert (Hcase : (exists q, q ∈ qs /\ p = step r q)
                  \/ ((row_uniprot_id r ∉ map uniprot_id qs) /\ p = new_protein r)).
  { destruct (decide (row_uniprot_id r ∈ map uniprot_id qs)) as [Hin|Hout].
    - rewrite merge_protein_step in Hp by exact Hin.
      apply list_elem_of_fmap in Hp as (q & -> & Hq). left. eauto.
    - rewrite merge_protein_new in Hp by exact Hout.
      apply elem_of_app in Hp as [Hp|Hp].
      + left. exists p. split; [exact Hp|].
        unfold step. replace (String.eqb _ _) with false; [reflexivity|].
        symmetry. apply String.eqb_neq. intros E. apply Hout. rewrite <- E.
        apply list_elem_of_fmap. eauto.
      + apply list_elem_of_singleton in Hp. right. auto. }
  destruct Hcase as [(q & Hq & ->)|(Hout & ->)].
  - destruct (String.eqb_spec (uniprot_id q) (row_uniprot_id r)) as [E|E].
    + assert (Hs : step r q = set_row r q).
      { unfold step. now rewrite E, String.eqb_refl. }
      rewrite Hs.
      destruct (upd_keeps rows (set_row r q)) as (H1 & H2 & H3).
      unfold step. rewrite H1. cbn [set_row uniprot_id]. rewrite E, String.eqb_refl.
      apply set_row_ext; [rewrite H1|rewrite H2|rewrite H3]; reflexivity.
    + assert (Hs : step r q = q).
      { unfold step. apply String.eqb_neq in E. now rewrite E. }
      rewrite Hs, (IH ps q Hq). exact Hs.
  - rewrite upd_other.
    + unfold step. cbn [new_protein uniprot_id]. now rewrite String.eqb_refl.
    + cbn [new_protein uniprot_id]. intros Hin. apply Hout.
      apply merge_proteins_elem_ids. now right.
Qed.

Lemma merge_proteins_idemp rows ps :
  merge_proteins rows (merge_proteins rows ps) = merge_proteins rows ps.
Proof.
  rewrite merge_proteins_present.
  - rewrite <- (map_id (merge_proteins rows ps)) at 2.
    apply map_ext_in. intros p Hp. apply list_elem_of_In in Hp.
    eapply merge_proteins_settled; eauto.
  - intros r Hr. apply merge_proteins_elem_ids. right.
    apply list_elem_of_fmap. eauto.
Qed.

(** The domain identifiers and the memberships a list of rows names. *)
Definition listed_domains (rows : list import_row) : list string :=
  flat_map row_interpro_ids rows.

Definition listed_memberships (rows : list import_row) : list (string * string) :=
  flat_map (fun r => map (pair (row_uniprot_id r)) (row_interpro_ids r)) rows.

Lemma import_row_into_eq d row :
  import_row_into d row =
  {| proteins := merge_protein row (proteins d);
     domains := merge_keys interpro_id new_domain (row_interpro_ids row) (domains d);
     has_domain :=
       merge_keys (fun e => e) (fun e => e)
         (map (pair (row_uniprot_id row)) (row_interpro_ids row)) (has_domain d);
     similar := similar d; catalog := catalog d; schema := schema d |}.
Proof.
  unfold import_row_into.
  generalize (merge_protein row (proteins d)) as ps.
  generalize (domains d) as ds. generalize (has_domain d) as es.
  induction (row_interpro_ids row) as [|did l IH]; intros es ds ps; cbn; [reflexivity|].
  rewrite IH. cbn [proteins domains has_domain similar catalog schema].
  now rewrite merge_domain_key, merge_has_domain_key.
Qed.

Lemma import_rows_eq rows : forall d,
  fold_left import_row_into rows d =
  {| proteins := merge_proteins rows (proteins d);
     domains := merge_keys interpro_id new_domain (listed_domains rows) (domains d);
     has_domain :=
       merge_keys (fun e => e) (fun e => e) (listed_memberships rows) (has_domain d);
     similar := similar d; catalog := catalog d; schema := schema d |}.
Proof.
  induction rows as [|r rows IH]; intros d; cbn [fold_left].
  - now destruct d.
  - rewrite IH, import_row_into_eq.
    cbn [proteins domains has_domain similar catalog schema].
    unfold listed_domains, listed_memberships, merge_keys. cbn [flat_map].
    now rewrite !fold_left_app.
Qed.

Lemma listed_domains_elem rows did :
  did ∈ listed_domains rows <-> exists r, r ∈ rows /\ did ∈ row_interpro_ids r.
Proof.
  unfold listed_domains. rewrite list_elem_of_In, in_flat_map.
  split; intros (r & H1 & H2); exists r; split;
    first [now apply list_elem_of_In|assumption].
Qed.

Lemma listed_memberships_elem rows pid did :
  (pid, did) ∈ listed_memberships rows
  <-> exists r, r ∈ rows /\ row_uniprot_id r = pid /\ did ∈ row_interpro_ids r.
Proof.
  unfold listed_memberships. rewrite list_elem_of_In, in_flat_map. split.
  - intros (r & H1 & H2). apply in_map_iff in H2 as (x & [= <- <-] & H2).
    exists r. repeat split; [|]; now apply list_elem_of_In.
  - intros (r & H1 & <- & H2). exists r. split; [now apply list_elem_of_In|].
    apply in_map_iff. exists did. split; [reflexivity|now apply list_elem_of_In].
Qed.

Lemma elem_ids_rows (rows : list import_row) i :
  i ∈ map row_uniprot_id rows <-> exists r, r ∈ rows /\ row_uniprot_id r = i.
Proof.
  change (map row_uniprot_id rows) with (row_uniprot_id <$> rows).
  rewrite list_elem_of_fmap. split; intros (r & H1 & H2); exists r; auto.
Qed.

(** The graph is well formed: no two proteins with one [uniprot_id], no
    two domains with one [interpro_id], no membership twice, and every
    relationship between nodes that are there. *)
Record well_formed (d : graph_db) : Prop := {
  wf_proteins : NoDup (map uniprot_id (proteins d));
  wf_domains : NoDup (map interpro_id (domains d));
  wf_has_domain : NoDup (has_domain d);
  wf_members : forall e, e ∈ has_domain d ->
    fst e ∈ map uniprot_id (proteins d) /\ snd e ∈ map interpro_id (domains d);
  wf_similar : forall r, r ∈ similar d ->
    source r ∈ map uniprot_id (proteins d) /\ target r ∈ map uniprot_id (proteins d)
}.

Lemma imported_db_eq col d :
  imported_db col d =
  {| proteins := merge_proteins (omap row_of_doc col) (proteins d);
     domains := merge_keys interpro_id new_domain
                  (listed_domains (omap row_of_doc col)) (domains d);
     has_domain := merge_keys (fun e => e) (fun e => e)
                     (listed_memberships (omap row_of_doc col)) (has_domain d);
     similar := similar d; catalog := catalog d; schema := schema (with_schema d) |}.
Proof. unfold imported_db. rewrite import_rows_eq. reflexivity. Qed.

Lemma imported_proteins_elem col d i :
  i ∈ map uniprot_id (proteins (imported_db col d))
  <-> i ∈ map uniprot_id (proteins d)
      \/ exists r, r ∈ omap row_of_doc col /\ row_uniprot_id r = i.
Proof.
  rewrite imported_db_eq. cbn [proteins].
  now rewrite merge_proteins_elem_ids, elem_ids_rows.
Qed.

Lemma imported_domains_elem col d x :
  x ∈ map interpro_id (domains (imported_db col d))
  <-> x ∈ map interpro_id (domains d)
      \/ exists r, r ∈ omap row_of_doc col /\ x ∈ row_interpro_ids r.
Proof.
  rewrite imported_db_eq. cbn [domains].
  rewrite (merge_keys_elem interpro_id new_domain) by reflexivity.
  now rewrite listed_domains_elem.
Qed.

Lemma imported_has_domain_elem col d pid did :
  (pid, did) ∈ has_domain (imported_db col d)
  <-> (pid, did) ∈ has_domain d
      \/ exists r, r ∈ omap row_of_doc col /\ row_uniprot_id r = pid
                   /\ did ∈ row_interpro_ids r.
Proof.
  rewrite imported_db_eq. cbn [has_domain].
  rewrite <- (map_id (merge_keys _ _ _ _)).
  rewrite (merge_keys_elem (fun e => e) (fun e => e)) by reflexivity.
  now rewrite map_id, listed_memberships_elem.
Qed.

Lemma imported_well_formed col d : well_formed d -> well_formed (imported_db col d).
Proof.
  intros [Hp Hd He Hm Hs]. split.
  - rewrite imported_db_eq. cbn [proteins]. rewrite merge_proteins_ids.
    rewrite <- (map_id (merge_keys _ _ _ _)).
    apply (merge_keys_NoDup (fun i => i) (fun i => i)); [reflexivity|].
    now rewrite map_id.
  - rewrite imported_db_eq. cbn [domains].
    apply (merge_keys_NoDup interpro_id new_domain); [reflexivity|exact Hd].
  - rewrite imported_db_eq. cbn [has_domain].
    rewrite <- (map_id (merge_keys _ _ _ _)).
    apply (merge_keys_NoDup (fun e => e) (fun e => e)); [reflexivity|].
    now rewrite map_id.
  - intros [pid did] Hin. cbn [fst snd].
    rewrite imported_proteins_elem, imported_domains_elem.
    apply imported_has_domain_elem in Hin as [Hin|(r & Hr & <- & Hdid)].
    + destruct (Hm _ Hin). auto.
    + split; right; eauto.
  - intros r Hr. rewrite !imported_proteins_elem.
    rewrite imported_db_eq in Hr. cbn [similar] in Hr.
    destruct (Hs _ Hr). auto.
Qed.

Lemma rebuilt_db_parts
    (node_similarity : similarity_config -> projection -> list (string * string * Q))
    (d : graph_db) :
  map uniprot_id (proteins (rebuilt_db node_similarity d)) = map uniprot_id (proteins d)
  /\ domains (rebuilt_db node_similarity d) = domains d
  /\ has_domain (rebuilt_db node_similarity d) = has_domain d
  /\ schema (rebuilt_db node_similarity d) = schema d
  /\ assoc GRAPH_NAME (catalog (rebuilt_db node_similarity d)) = None.
Proof.
  unfold rebuilt_db, counted_db, set_similar.
  cbn [proteins domains has_domain schema catalog].
  repeat split; try reflexivity.
  - rewrite map_map. reflexivity.
  - apply assoc_remove_key.
Qed.

Lemma rebuilt_similar_ends
    (node_similarity : similarity_config -> projection -> list (string * string * Q))
    (d : graph_db) (r : similar_rel) :
  r ∈ similar (rebuilt_db node_similarity d) ->
  source r ∈ map uniprot_id (proteins d) /\ target r ∈ map uniprot_id (proteins d).
Proof.
  unfold rebuilt_db, set_similar. cbn [similar].
  intros H. apply list_elem_of_fmap in H as (r0 & -> & H0).
  unfold counted_db in H0 at 1. cbn [similar] in H0. unfold written in H0.
  apply list_elem_of_fmap in H0 as (e & -> & He).
  apply list_elem_of_In, List.filter_In in He as [_ He].
  apply andb_true_iff in He as [H1 H2]. cbn [project proj_proteins] in H1, H2.
  destruct (enrich_keeps_weight (counted_db node_similarity d) (written_rel e))
    as (-> & -> & _).
  cbn [written_rel source target].
  apply existsb_elem in H1 as (x & Hx & E1). apply String.eqb_eq in E1 as ->.
  apply existsb_elem in H2 as (y & Hy & E2). apply String.eqb_eq in E2 as ->.
  auto.
Qed.

Lemma rebuilt_well_formed
    (node_similarity : similarity_config -> projection -> list (string * string * Q))
    (d : graph_db) :
  well_formed d -> well_formed (rebuilt_db node_similarity d).
Proof.
  intros [Hp Hd He Hm Hs].
  destruct (rebuilt_db_parts node_similarity d) as (Ep & Ed & Ee & _ & _).
  split; rewrite ?Ep, ?Ed, ?Ee; try assumption.
  - intros r Hr. now apply rebuilt_similar_ends in Hr.
Qed.

Lemma import_proteins_and_domains_runs
    (node_similarity : similarity_config -> projection -> list (string * string * Q))
    (col : LoadMongo.collection) (s : session) :
  exists bs,
    import_proteins_and_domains node_similarity col s =
      Returned tt
        {| db := imported_db col (db s);
           issued := issued s
             ++ [CreateConstraintProtein; CreateConstraintDomain; CreateIndexOrganism]
             ++ map ImportBatch bs |}.
Proof.
  unfold import_proteins_and_domains.
  erewrite bind_run_returns by reflexivity.
  erewrite bind_run_returns by reflexivity.
  erewrite bind_run_returns by reflexivity.
  match goal with |- context [import_loop _ col [] ?s0] =>
    destruct (import_loop_runs node_similarity col [] s0 import_batch_size_pos)
      as (bs & Hrun & _ & _)
  end.
  exists bs. rewrite Hrun. cbn [db issued app]. f_equal. f_equal.
  rewrite <- !app_assoc. reflexivity.
Qed.

Lemma import_loop_batches
    (node_similarity : similarity_config -> projection -> list (string * string * Q))
    (docs : list LoadMongo.doc) : forall batch s,
  (length batch < IMPORT_BATCH_SIZE)%nat ->
  exists full rest,
    import_loop node_similarity docs batch s =
      Returned tt {| db := fold_left import_row_into
                             (batch ++ omap row_of_doc docs) (db s);
                     issued := issued s ++ map ImportBatch (full ++ rest) |}
    /\ concat (full ++ rest) = batch ++ omap row_of_doc docs
    /\ Forall (fun b => length b = IMPORT_BATCH_SIZE) full
    /\ (rest = [] \/ exists b, rest = [b] /\ (0 < length b < IMPORT_BATCH_SIZE)%nat).
Proof.
  induction docs as [|d rest IH]; intros batch s Hlen.
  - cbn [import_loop omap list_omap]. rewrite app_nil_r.
    destruct batch as [|r batch].
    + exists [], []. destruct s; cbn. rewrite app_nil_r. auto.
    + exists [], [r :: batch]. split; [|split; [|split]].
      * unfold import_batch. erewrite run_returns by reflexivity. reflexivity.
      * cbn. now rewrite app_nil_r.
      * constructor.
      * right. eexists. split; [reflexivity|]. cbn [length] in *. lia.
  - cbn [import_loop omap list_omap].
    destruct (row_of_doc d) as [r|]; [|apply IH; exact Hlen].
    destruct (Nat.leb_spec IMPORT_BATCH_SIZE (length (batch ++ [r]))) as [Hge|Hlt].
    + unfold import_batch. erewrite bind_run_returns by reflexivity.
      destruct (IH [] {| db := fold_left import_row_into (batch ++ [r]) (db s);
                         issued := issued s ++ [ImportBatch (batch ++ [r])] |}
                  import_batch_size_pos) as (full & last & Hrun & Hcat & Hfull & Hlast).
      exists ((batch ++ [r]) :: full), last. split; [|split; [|split]].
      * rewrite Hrun. cbn [db issued app]. f_equal. f_equal.
        -- rewrite <- fold_left_app. f_equal. now rewrite <- app_assoc.
        -- now rewrite <- app_assoc.
      * cbn [concat app]. rewrite Hcat. cbn [app]. now rewrite <- app_assoc.
      * constructor; [|exact Hfull].
        rewrite length_app in *. cbn [length] in *. lia.
      * exact Hlast.
    + destruct (IH (batch ++ [r]) s Hlt) as (full & last & Hrun & Hcat & Hfull & Hlast).
      exists full, last. rewrite Hrun, Hcat, <- !app_assoc. auto.
Qed.

(** The import sends the rows of the documents in batches that keep
    their order: batches of exactly [IMPORT_BATCH_SIZE] rows, then at most
    one last batch, which is not empty and smaller. A document without
    identifier gives no row. *)
Theorem import_sends_full_batches
    (node_similarity : similarity_config -> projection -> list (string * string * Q))
    (col : LoadMongo.collection) (s : session) :
  exists full rest,
    import_proteins_and_domains node_similarity col s =
      Returned tt
        {| db := imported_db col (db s);
           issued := issued s
             ++ [CreateConstraintProtein; CreateConstraintDomain; CreateIndexOrganism]
             ++ map ImportBatch (full ++ rest) |}
    /\ concat (full ++ rest) = omap row_of_doc col
    /\ Forall (fun b => length b = IMPORT_BATCH_SIZE) full
    /\ (rest = [] \/ exists b, rest = [b] /\ (0 < length b < IMPORT_BATCH_SIZE)%nat).
Proof.
  unfold import_proteins_and_domains.
  erewrite bind_run_returns by reflexivity.
  erewrite bind_run_returns by reflexivity.
  erewrite bind_run_returns by reflexivity.
  match goal with |- context [import_loop _ col [] ?s0] =>
    destruct (import_loop_batches node_similarity col [] s0 import_batch_size_pos)
      as (full & rest & Hrun & Hcat & Hfull & Hrest)
  end.
  exists full, rest. rewrite Hrun. cbn [db issued app] in *.
  split; [|auto]. f_equal. f_equal. rewrite <- !app_assoc. reflexivity.
Qed.

(** The import and the rebuild keep the graph well formed. *)
Theorem main_keeps_graph_well_formed
    (node_similarity : similarity_config -> projection -> list (string * string * Q))
    (col : LoadMongo.collection) (s : session) :
  well_formed (db s) ->
  exists s', main node_similarity col s = Returned tt s' /\ well_formed (db s').
Proof.
  intros Hwf. destruct (main_runs node_similarity col s) as (bs & Hrun & _ & _).
  eexists. split; [exact Hrun|]. cbn [db].
  apply rebuilt_well_formed, imported_well_formed, Hwf.
Qed.

Lemma empty_db_well_formed : well_formed empty_db.
Proof.
  split; cbn; try apply NoDup_nil_2; intros x Hx; inversion Hx.
Qed.

Lemma main_keeps_graph_well_formed_example :
  exists s', main exact_jaccard example_collection start = Returned tt s'
             /\ well_formed (db s').
Proof.
  apply (main_keeps_graph_well_formed exact_jaccard example_collection start).
  exact empty_db_well_formed.
Defined.

(** The import adds what the documents list and nothing else: a protein
    per identifier, a domain per InterPro identifier, a membership per
    pair; the domains and the memberships that were there stay, in their
    order, and the [SIMILAR] relationships are not touched. *)
Theorem import_adds_what_the_documents_list
    (node_similarity : similarity_config -> projection -> list (string * string * Q))
    (col : LoadMongo.collection) (s : session) :
  exists s',
    import_proteins_and_domains node_similarity col s = Returned tt s'
    /\ (forall i, i ∈ map uniprot_id (proteins (db s'))
          <-> i ∈ map uniprot_id (proteins (db s))
              \/ exists r, r ∈ omap row_of_doc col /\ row_uniprot_id r = i)
    /\ (forall x, x ∈ map interpro_id (domains (db s'))
          <-> x ∈ map interpro_id (domains (db s))
              \/ exists r, r ∈ omap row_of_doc col /\ x ∈ row_interpro_ids r)
    /\ (forall pid did, (pid, did) ∈ has_domain (db s')
          <-> (pid, did) ∈ has_domain (db s)
              \/ exists r, r ∈ omap row_of_doc col /\ row_uniprot_id r = pid
                           /\ did ∈ row_interpro_ids r)
    /\ (exists added, domains (db s') = domains (db s) ++ added)
    /\ (exists added, has_domain (db s') = has_domain (db s) ++ added)
    /\ similar (db s') = similar (db s).
Proof.
  destruct (import_proteins_and_domains_runs node_similarity col s) as (bs & Hrun).
  eexists. split; [exact Hrun|]. cbn [db].
  split; [apply imported_proteins_elem|].
  split; [apply imported_domains_elem|].
  split; [apply imported_has_domain_elem|].
  rewrite imported_db_eq. cbn [domains has_domain similar].
  repeat split; try apply merge_keys_prefix.
Qed.

(** When several documents have one identifier, the node has the
    properties of the last of them. *)
Theorem import_sets_properties_of_last_document
    (node_similarity : similarity_config -> projection -> list (string * string * Q))
    (col : LoadMongo.collection) (s : session)
    (rows1 rows2 : list import_row) (r : import_row) :
  omap row_of_doc col = rows1 ++ r :: rows2 ->
  row_uniprot_id r ∉ map row_uniprot_id rows2 ->
  exists s',
    import_proteins_and_domains node_similarity col s = Returned tt s'
    /\ (exists p, p ∈ proteins (db s') /\ uniprot_id p = row_uniprot_id r)
    /\ (forall p, p ∈ proteins (db s') -> uniprot_id p = row_uniprot_id r ->
          entry_name p = row_entry_name r
          /\ organism p = row_organism r
          /\ p_length p = row_length r
          /\ ec_numbers p = row_ec_numbers r
          /\ is_labelled p = row_is_labelled r).
Proof.
  intros Hrows Hlast.
  destruct (import_proteins_and_domains_runs node_similarity col s) as (bs & Hrun).
  eexists. split; [exact Hrun|]. cbn [db]. split.
  - assert (Hin : row_uniprot_id r ∈ map uniprot_id (proteins (imported_db col (db s)))).
    { apply imported_proteins_elem. right. exists r. split; [|reflexivity].
      rewrite Hrows. apply elem_of_app. right. constructor. }
    apply list_elem_of_fmap in Hin as (p & Hid & Hp). eauto.
  - intros p Hp Hid. rewrite imported_db_eq in Hp. cbn [proteins] in Hp.
    apply merge_proteins_settled in Hp. rewrite Hrows in Hp.
    change (rows1 ++ r :: rows2) with (rows1 ++ [r] ++ rows2) in Hp.
    rewrite !upd_app in Hp.
    destruct (upd_keeps rows1 p) as (H1 & _ & _).
    assert (Hs : upd [r] (upd rows1 p) = set_row r (upd rows1 p)).
    { cbn. unfold step. now rewrite H1, Hid, String.eqb_refl. }
    rewrite Hs, upd_other in Hp by (cbn [set_row uniprot_id]; now rewrite H1, Hid).
    rewrite <- Hp. cbn. auto.
Qed.

(** A row as the import makes it of an example document. *)
Definition example_import_row (id : string) (doms : list string) : import_row :=
  {| row_uniprot_id := id; row_entry_name := PyNone; row_organism := PyStr "Mouse";
     row_length := PyNone; row_ec_numbers := []; row_is_labelled := false;
     row_interpro_ids := doms |}.

(** Two documents with the identifier [P1], the later one with other
    properties, and the document of [P2] between them. *)
Definition repeated_collection : LoadMongo.collection :=
  [ example_doc "P1" ["IPR1"];
    example_doc "P2" ["IPR1"];
    {| LoadMongo._id := "P1_bis"; LoadMongo.uniprot_id := "P1";
       LoadMongo.entry_name := PyStr "P1_HUMAN"; LoadMongo.organism := "Human";
       LoadMongo.protein_names := [];
       LoadMongo.doc_sequence :=
         {| LoadMongo.seq_length := PyInt 120; LoadMongo.seq_aa := "" |};
       LoadMongo.interpro_ids := ["IPR2"]; LoadMongo.ec_numbers := ["1.1.1.1"];
       LoadMongo.is_labelled := true; LoadMongo.last_updated := 0 |} ].

(** The row of the later document of [P1]. *)
Definition repeated_row : import_row :=
  {| row_uniprot_id := "P1"; row_entry_name := PyStr "P1_HUMAN";
     row_organism := PyStr "Human"; row_length := PyInt 120;
     row_ec_numbers := ["1.1.1.1"]; row_is_labelled := true;
     row_interpro_ids := ["IPR2"] |}.

(** On the example the node of [P1] has the properties of the later of
    its two documents. *)
Lemma import_sets_properties_of_last_document_example :
  exists s',
    import_proteins_and_domains exact_jaccard repeated_collection start = Returned tt s'
    /\ (exists p, p ∈ proteins (db s') /\ uniprot_id p = row_uniprot_id repeated_row)
    /\ (forall p, p ∈ proteins (db s') ->
          uniprot_id p = row_uniprot_id repeated_row ->
          entry_name p = row_entry_name repeated_row
          /\ organism p = row_organism repeated_row
          /\ p_length p = row_length repeated_row
          /\ ec_numbers p = row_ec_numbers repeated_row
          /\ is_labelled p = row_is_labelled repeated_row).
Proof.
  apply (import_sets_properties_of_last_document exact_jaccard repeated_collection start
           [example_import_row "P1" ["IPR1"]; example_import_row "P2" ["IPR1"]]
           [] repeated_row).
  - reflexivity.
  - cbn. apply not_elem_of_nil.
Defined.

(** The graph the import makes of these documents: one node for [P1],
    with the properties of the later document and the domains of both. *)
Lemma repeated_collection_imported :
  exists s',
    import_proteins_and_domains exact_jaccard repeated_collection start = Returned tt s'
    /\ proteins (db s')
       = [ {| uniprot_id := "P1"; entry_name := PyStr "P1_HUMAN";
              organism := PyStr "Human"; p_length := PyInt 120;
              ec_numbers := ["1.1.1.1"]; is_labelled := true;
              protein_names := None; domain_count := None |};
           {| uniprot_id := "P2"; entry_name := PyNone;
              organism := PyStr "Mouse"; p_length := PyNone;
              ec_numbers := []; is_labelled := false;
              protein_names := None; domain_count := None |} ]
    /\ has_domain (db s') = [("P1", "IPR1"); ("P2", "IPR1"); ("P1", "IPR2")].
Proof. eexists. split; [vm_compute; reflexivity|]. split; reflexivity. Qed.

Lemma existsb_eqb_elem (s : string) (l : list string) :
  existsb (String.eqb s) l = true <-> s ∈ l.
Proof.
  rewrite existsb_elem. split.
  - intros (x & Hx & E). apply String.eqb_eq in E as ->. exact Hx.
  - intros H. exists s. split; [exact H|apply String.eqb_refl].
Qed.

Lemma add_schema_elem s s' d :
  s ∈ schema (add_schema s' d) <-> s ∈ schema d \/ s = s'.
Proof.
  unfold add_schema. cbn [schema].
  destruct (existsb (String.eqb s') (schema d)) eqn:E.
  - apply existsb_eqb_elem in E. split; [auto|]. intros [H| ->]; auto.
  - rewrite elem_of_app, list_elem_of_singleton. reflexivity.
Qed.

Lemma add_schema_present s d : s ∈ schema d -> add_schema s d = d.
Proof.
  intros H. apply existsb_eqb_elem in H. unfold add_schema. rewrite H.
  now destruct d.
Qed.

Lemma with_schema_settled d d' :
  schema d' = schema (with_schema d) -> with_schema d' = d'.
Proof.
  intros E. unfold with_schema.
  assert (H1 : "Protein.uniprot_id" ∈ schema d').
  { rewrite E. unfold with_schema. rewrite !add_schema_elem. auto. }
  assert (H2 : "Domain.interpro_id" ∈ schema d').
  { rewrite E. unfold with_schema. rewrite !add_schema_elem. auto. }
  assert (H3 : "Protein.organism" ∈ schema d').
  { rewrite E. unfold with_schema. rewrite !add_schema_elem. auto. }
  now rewrite (add_schema_present _ _ H1), (add_schema_present _ _ H2),
    (add_schema_present _ _ H3).
Qed.

Lemma import_rows_idemp rows d :
  fold_left import_row_into rows (fold_left import_row_into rows d)
  = fold_left import_row_into rows d.
Proof.
  rewrite (import_rows_eq rows (fold_left import_row_into rows d)).
  rewrite (import_rows_eq rows d).
  cbn [proteins domains has_domain similar catalog schema].
  rewrite merge_proteins_idemp.
  rewrite (merge_keys_idemp interpro_id new_domain) by reflexivity.
  rewrite (merge_keys_idemp (fun e => e) (fun e => e)) by reflexivity.
  reflexivity.
Qed.

Lemma imported_db_idemp col d : imported_db col (imported_db col d) = imported_db col d.
Proof.
  unfold imported_db at 1.
  rewrite (with_schema_settled d) by (now rewrite imported_db_eq).
  unfold imported_db. apply import_rows_idemp.
Qed.

(** Importing the same documents a second time changes nothing. *)
Theorem import_twice_is_import_once
    (node_similarity : similarity_config -> projection -> list (string * string * Q))
    (col : LoadMongo.collection) (s : session) :
  exists s1 s2,
    import_proteins_and_domains node_similarity col s = Returned tt s1
    /\ import_proteins_and_domains node_similarity col s1 = Returned tt s2
    /\ db s2 = db s1.
Proof.
  destruct (import_proteins_and_domains_runs node_similarity col s) as (bs & Hrun).
  eexists. rewrite Hrun.
  match goal with |- context [Returned tt ?s1 = _] =>
    destruct (import_proteins_and_domains_runs node_similarity col s1) as (bs' & Hrun')
  end.
  eexists. split; [reflexivity|]. split; [exact Hrun'|].
  cbn [db]. apply imported_db_idemp.
Qed.

Lemma counted_db_rebuilt
    (node_similarity : similarity_config -> projection -> list (string * string * Q))
    (d : graph_db) :
  counted_db node_similarity (rebuilt_db node_similarity d)
  = counted_db node_similarity d.
Proof.
  unfold counted_db at 1.
  destruct (rebuilt_db_parts node_similarity d) as (Ep & Ed & Ee & Es & _).
  assert (Epr : project (rebuilt_db node_similarity d) = project d).
  { unfold project. now rewrite Ep, Ed, Ee. }
  rewrite Epr, Ed, Ee, Es.
  unfold rebuilt_db, set_similar. cbn [proteins catalog].
  unfold counted_db. cbn [proteins catalog].
  rewrite remove_key_idemp. f_equal.
  rewrite map_map. apply map_ext. intros p.
  unfold set_domain_count, count_domains. cbn. reflexivity.
Qed.

Lemma rebuilt_db_idemp
    (node_similarity : similarity_config -> projection -> list (string * string * Q))
    (d : graph_db) :
  rebuilt_db node_similarity (rebuilt_db node_similarity d)
  = rebuilt_db node_similarity d.
Proof. unfold rebuilt_db at 1. rewrite counted_db_rebuilt. reflexivity. Qed.

(** The rebuild returns from any state of the database, a projected
    graph left in the catalog included; it adds and removes no protein, no
    domain and no membership, leaves no projected graph behind, and run a
    second time it leaves the database it left the first time. *)
Theorem rebuild_twice_is_rebuild_once
    (node_similarity : similarity_config -> projection -> list (string * string * Q))
    (s : session) :
  exists s1 s2,
    build_similarity_edges_gds_math node_similarity s = Returned tt s1
    /\ build_similarity_edges_gds_math node_similarity s1 = Returned tt s2
    /\ db s2 = db s1
    /\ map uniprot_id (proteins (db s1)) = map uniprot_id (proteins (db s))
    /\ domains (db s1) = domains (db s)
    /\ has_domain (db s1) = has_domain (db s)
    /\ assoc GRAPH_NAME (catalog (db s1)) = None.
Proof.
  eexists. eexists. rewrite !build_similarity_edges_runs.
  split; [reflexivity|]. split; [reflexivity|]. cbn [db].
  split; [apply rebuilt_db_idemp|].
  destruct (rebuilt_db_parts node_similarity (db s)) as (Ep & Ed & Ee & _ & Ec).
  auto.
Qed.

Lemma count_domains_listed col i :
  count_domains (imported_db col empty_db) i
  = Z.of_nat (length (remove_dups
       (listed_domains (filter (fun r => row_uniprot_id r = i) (omap row_of_doc col))))).
Proof.
  unfold count_domains. f_equal.
  set (d := imported_db col empty_db).
  set (L := List.filter (fun e => String.eqb (fst e) i) (has_domain d)).
  assert (HL : forall e, e ∈ L <-> e ∈ has_domain d /\ fst e = i).
  { intros e. unfold L. rewrite list_elem_of_In, List.filter_In, String.eqb_eq.
    now rewrite <- list_elem_of_In. }
  assert (Hnd : NoDup L).
  { apply NoDup_ListNoDup, List.NoDup_filter, NoDup_ListNoDup.
    unfold d. rewrite imported_db_eq. cbn [has_domain empty_db].
    rewrite <- (map_id (merge_keys _ _ _ _)).
    apply (merge_keys_NoDup (fun e => e) (fun e => e)); [reflexivity|].
    apply NoDup_nil_2. }
  rewrite <- (length_fmap snd L). apply Permutation_length, NoDup_Permutation.
  - apply NoDup_fmap_2_strong; [|exact Hnd].
    intros [a x] [b y] Hx Hy. cbn. intros ->.
    apply HL in Hx as [_ Hx]. apply HL in Hy as [_ Hy]. cbn in Hx, Hy. congruence.
  - apply NoDup_remove_dups.
  - intros x. rewrite elem_of_remove_dups, listed_domains_elem, list_elem_of_fmap.
    split.
    + intros ([a y] & -> & He). apply HL in He as [He Ha]. cbn in Ha |- *. subst a.
      apply imported_has_domain_elem in He as [He|(r & Hr & Hid & Hx)].
      * inversion He.
      * exists r. split; [|exact Hx]. apply list_elem_of_filter. auto.
    + intros (r & Hr & Hx). apply list_elem_of_filter in Hr as [Hid Hr].
      exists (i, x). split; [reflexivity|]. apply HL. split; [|reflexivity].
      apply imported_has_domain_elem. right. eauto.
Qed.

(** Loaded into an empty graph, every protein gets as [domain_count] the
    number of different InterPro identifiers its documents list (its
    document, when no two documents share an identifier): an identifier
    listed twice counts once. *)
Theorem domain_count_is_number_of_listed_domains
    (node_similarity : similarity_config -> projection -> list (string * string * Q))
    (col : LoadMongo.collection) (i : string) :
  i ∈ map row_uniprot_id (omap row_of_doc col) ->
  exists s' p,
    main node_similarity col start = Returned tt s'
    /\ find_protein (db s') i = Some p
    /\ uniprot_id p = i
    /\ domain_count p
       = Some (Z.of_nat (length (remove_dups
            (listed_domains
               (filter (fun r => row_uniprot_id r = i) (omap row_of_doc col)))))).
Proof.
  intros Hi. destruct (main_runs node_similarity col start) as (bs & Hrun & _ & _).
  assert (Hex : existsb (String.eqb i)
                  (map uniprot_id (proteins (imported_db col empty_db))) = true).
  { apply existsb_eqb_elem, imported_proteins_elem. right. now apply elem_ids_rows. }
  destruct (find_protein_counted node_similarity _ _ Hex) as (p & Hfind & Hid & Hcount).
  eexists. exists p. split; [exact Hrun|]. cbn [db start].
  split; [exact Hfind|]. split; [exact Hid|].
  rewrite Hcount. f_equal. apply count_domains_listed.
Qed.

(** A protein whose document lists [IPR1] twice and [IPR2] once. *)
Lemma domain_count_is_number_of_listed_domains_example :
  exists s' p,
    main exact_jaccard [example_doc "P1" ["IPR1"; "IPR2"; "IPR1"]] start = Returned tt s'
    /\ find_protein (db s') "P1" = Some p
    /\ uniprot_id p = "P1"
    /\ domain_count p
       = Some (Z.of_nat (length (remove_dups
            (listed_domains
               (filter (fun r => row_uniprot_id r = "P1")
                  (omap row_of_doc [example_doc "P1" ["IPR1"; "IPR2"; "IPR1"]])))))).
Proof.
  apply (domain_count_is_number_of_listed_domains exact_jaccard
           [example_doc "P1" ["IPR1"; "IPR2"; "IPR1"]] "P1").
  cbn. constructor.
Defined.

Lemma Qfloor_between (y : Q) (s : Z) :
  (inject_Z s <= y)%Q -> (y < inject_Z (s + 1))%Q -> Qfloor y = s.
Proof.
  intros H1 H2.
  pose proof (Qfloor_le y) as L. pose proof (Qlt_floor y) as U.
  assert (s < Qfloor y + 1).
  { rewrite Zlt_Qlt. eapply Qle_lt_trans; [exact H1|exact U]. }
  assert (Qfloor y < s + 1).
  { rewrite Zlt_Qlt. eapply Qle_lt_trans; [exact L|exact H2]. }
  lia.
Qed.

(** The formula does not need the exact quotient: it gives back the
    shared count [s] for every weight [J >= 0] whose distance to
    [s / (A + B - s)], multiplied by [A + B], is below one half. *)
Theorem edge_enricher_tolerates_weight_error (A B s : Z) (J : Q) :
  1 <= s <= Z.min A B ->
  (0 <= J)%Q ->
  (Qabs (J - inject_Z s / inject_Z (A + B - s)) * inject_Z (A + B) < 1 # 2)%Q ->
  intersect_of J A B = s /\ shared_union J A B = (s, A + B - s).
Proof.
  intros Hs HJ Htol.
  assert (E : intersect_of J A B = s); [|split; [exact E|unfold shared_union; now rewrite E]].
  unfold intersect_of, cypher_round. rewrite toInteger_inject_Z.
  set (t := inject_Z (A + B)) in *.
  set (u := inject_Z (A + B - s)) in *.
  set (sg := inject_Z s) in *.
  assert (Hu : (u == t - sg)%Q).
  { unfold u, t, sg, Qminus. rewrite <- inject_Z_opp, <- inject_Z_plus.
    apply inject_Z_injective. lia. }
  assert (Hsg : (1 <= sg)%Q).
  { unfold sg. change 1%Q with (inject_Z 1). rewrite <- Zle_Qle. lia. }
  assert (Hus : (sg <= u)%Q).
  { unfold sg, u. rewrite <- Zle_Qle. lia. }
  set (J0 := (sg / u)%Q) in *.
  assert (HJ0 : (J0 * u == sg)%Q).
  { unfold J0. field. lra. }
  set (x := (J * t / (1 + J))%Q).
  assert (Hx : (x * (1 + J) == J * t)%Q).
  { unfold x. field. lra. }
  assert (Hd : ((x - sg) * (1 + J) == u * (J - J0))%Q).
  { transitivity (x * (1 + J) - sg * (1 + J))%Q; [ring|].
    rewrite Hx. transitivity (u * J - J0 * u)%Q; [|ring].
    rewrite HJ0, Hu. ring. }
  assert (Ha : (- (1 # 2) < (J - J0) * t /\ (J - J0) * t < 1 # 2)%Q).
  { assert (Ht : (0 <= t)%Q) by lra.
    apply Qabs_Qlt_condition. rewrite Qabs_Qmult, (Qabs_pos t Ht). exact Htol. }
  assert (Hut : (u <= t)%Q) by lra.
  set (dl := (J - J0)%Q) in *. set (e := (x - sg)%Q) in *.
  assert (He : (- (1 # 2) < e /\ e < 1 # 2)%Q).
  { destruct (Qlt_le_dec dl 0) as [Hneg|Hpos].
    - assert (P1 : (0 <= (t - u) * - dl)%Q) by (apply Qmult_le_0_compat; lra).
      destruct (Qlt_le_dec e 0) as [He|He].
      + assert (P2 : (0 <= - e * J)%Q) by (apply Qmult_le_0_compat; lra).
        split; lra.
      + assert (P2 : (0 <= e * J)%Q) by (apply Qmult_le_0_compat; lra).
        assert (P3 : (0 <= u * - dl)%Q) by (apply Qmult_le_0_compat; lra).
        split; lra.
    - assert (P1 : (0 <= (t - u) * dl)%Q) by (apply Qmult_le_0_compat; lra).
      destruct (Qlt_le_dec e 0) as [He|He].
      + assert (P2 : (0 <= - e * J)%Q) by (apply Qmult_le_0_compat; lra).
        assert (P3 : (0 <= u * dl)%Q) by (apply Qmult_le_0_compat; lra).
        split; lra.
      + assert (P2 : (0 <= e * J)%Q) by (apply Qmult_le_0_compat; lra).
        split; lra. }
  apply Qfloor_between.
  - fold sg. unfold e in He. lra.
  - rewrite inject_Z_plus. fold sg. change (inject_Z 1) with 1%Q. unfold e in He. lra.
Qed.

(** [A = 10], [B = 8], [s = 4] with the weight [0.2857] in place of
    [4/14]. *)
Lemma edge_enricher_tolerates_weight_error_example :
  intersect_of (2857 # 10000) 10 8 = 4
  /\ shared_union (2857 # 10000) 10 8 = (4, 10 + 8 - 4).
Proof.
  apply (edge_enricher_tolerates_weight_error 10 8 4 (2857 # 10000)).
  - lia.
  - discriminate.
  - reflexivity.
Defined.

(** *** From the file to the graph *)

Lemma imported_last_row col d0 rows1 rows2 r p :
  omap row_of_doc col = rows1 ++ r :: rows2 ->
  row_uniprot_id r ∉ map row_uniprot_id rows2 ->
  p ∈ proteins (imported_db col d0) -> uniprot_id p = row_uniprot_id r ->
  entry_name p = row_entry_name r /\ organism p = row_organism r
  /\ p_length p = row_length r /\ ec_numbers p = row_ec_numbers r
  /\ is_labelled p = row_is_labelled r.
Proof.
  intros Hrows Hlast Hp Hid. rewrite imported_db_eq in Hp. cbn [proteins] in Hp.
  apply merge_proteins_settled in Hp. rewrite Hrows in Hp.
  change (rows1 ++ r :: rows2) with (rows1 ++ [r] ++ rows2) in Hp.
  rewrite !upd_app in Hp.
  destruct (upd_keeps rows1 p) as (H1 & _ & _).
  assert (Hs : upd [r] (upd rows1 p) = set_row r (upd rows1 p)).
  { cbn. unfold step. now rewrite H1, Hid, String.eqb_refl. }
  rewrite Hs, upd_other in Hp by (cbn [set_row uniprot_id]; now rewrite H1, Hid).
  rewrite <- Hp. cbn. auto.
Qed.

Lemma row_of_doc_Some (d : LoadMongo.doc) :
  LoadMongo.uniprot_id d = LoadMongo._id d -> LoadMongo._id d <> EmptyString ->
  exists r, row_of_doc d = Some r
            /\ row_uniprot_id r = LoadMongo._id d
            /\ row_organism r = PyStr (LoadMongo.organism d)
            /\ row_ec_numbers r = LoadMongo.ec_numbers d
            /\ row_is_labelled r = LoadMongo.is_labelled d.
Proof.
  intros Hid Hne. unfold row_of_doc. rewrite Hid.
  apply Py.truthy_true in Hne. rewrite Hne. cbv zeta. rewrite Hne.
  eexists. split; [reflexivity|]. cbn. auto.
Qed.

Lemma row_of_doc_ids (col : LoadMongo.collection) i :
  (forall d, d ∈ col -> LoadMongo.uniprot_id d = LoadMongo._id d) ->
  i ∈ map row_uniprot_id (omap row_of_doc col) -> i ∈ map LoadMongo._id col.
Proof.
  intros Hids H. apply elem_ids_rows in H as (r & Hr & <-).
  apply list_elem_of_omap in Hr as (d & Hd & Hrow).
  apply list_elem_of_fmap. exists d. split; [|exact Hd].
  unfold row_of_doc in Hrow. rewrite (Hids d Hd) in Hrow.
  destruct (Py.truthy (LoadMongo._id d)) eqn:E; cbv zeta in Hrow;
    rewrite ?E in Hrow; [|discriminate].
  now injection Hrow as <-.
Qed.

(** From the file to the graph: a document that a load with reset has
    put in the collection, its identifier not empty, is after the import
    and the rebuild a protein node with the [is_labelled] flag, the EC
    numbers and the organism of the document; the node is labelled exactly
    when it has an EC number. *)
Theorem loaded_document_becomes_its_node
    (node_similarity : similarity_config -> projection -> list (string * string * Q))
    (clock : nat -> Z) (reader : list (list LoadMongo.row)) (organism_label : string)
    (col0 : LoadMongo.collection) (d : LoadMongo.doc) :
  d ∈ (LoadMongo.load_tsv_smart clock (Some reader) organism_label true col0).1 ->
  LoadMongo._id d <> EmptyString ->
  exists s' p,
    main node_similarity
         (LoadMongo.load_tsv_smart clock (Some reader) organism_label true col0).1
         start = Returned tt s'
    /\ find_protein (db s') (LoadMongo._id d) = Some p
    /\ is_labelled p = LoadMongo.is_labelled d
    /\ ec_numbers p = LoadMongo.ec_numbers d
    /\ organism p = PyStr (LoadMongo.organism d)
    /\ (is_labelled p = true <-> ec_numbers p <> []).
Proof.
  set (col := (LoadMongo.load_tsv_smart clock (Some reader) organism_label true col0).1).
  intros Hd Hne.
  assert (Hcol : NoDup (map LoadMongo._id col)
                 /\ forall x, x ∈ col ->
                      LoadMongo.uniprot_id x = LoadMongo._id x
                      /\ LoadMongo.is_labelled x
                         = bool_decide (0 < length (LoadMongo.ec_numbers x))%nat).
  { unfold col, LoadMongo.load_tsv_smart.
    destruct (LoadMongo.load_chunks_spec clock organism_label reader 0
                (LoadMongo.get_mongo_collection true col0) 0)
      as (added & Hrun & Hnd & _ & Hfrom).
    rewrite Hrun. cbn [fst LoadMongo.get_mongo_collection app] in *.
    split; [apply Hnd, NoDup_nil_2|].
    intros x Hx. destruct (Hfrom x Hx) as (j & chunk & r & _ & _ & Hmk).
    split; [now apply LoadMongo.make_doc_id in Hmk|].
    now apply LoadMongo.make_doc_labelled in Hmk. }
  destruct Hcol as [Hnd Hdocs].
  destruct (main_runs node_similarity col start) as (bs & Hrun & _ & _).
  destruct (row_of_doc_Some d (proj1 (Hdocs d Hd)) Hne)
    as (r & Hrow & Hrid & Horg & Hec & Hlab).
  apply list_elem_of_split in Hd as (c1 & c2 & Hsplit).
  assert (Hrows : omap row_of_doc col
                  = omap row_of_doc c1 ++ r :: omap row_of_doc c2).
  { rewrite Hsplit, omap_app. cbn [omap list_omap]. now rewrite Hrow. }
  assert (Hlast : row_uniprot_id r ∉ map row_uniprot_id (omap row_of_doc c2)).
  { intros Hin. apply row_of_doc_ids in Hin.
    - rewrite Hsplit, map_app in Hnd. cbn [map] in Hnd.
      apply NoDup_app in Hnd as (_ & _ & Hnd).
      apply NoDup_cons in Hnd as [Hnd _]. apply Hnd. now rewrite <- Hrid.
    - intros x Hx. apply Hdocs. rewrite Hsplit.
      apply elem_of_app. right. now constructor. }
  assert (Hex : existsb (String.eqb (row_uniprot_id r))
                  (map uniprot_id (proteins (imported_db col empty_db))) = true).
  { apply existsb_eqb_elem, imported_proteins_elem. right. exists r.
    split; [|reflexivity]. rewrite Hrows. apply elem_of_app. right. constructor. }
  destruct (find_protein_counted node_similarity _ _ Hex) as (p & Hfind & Hpid & _).
  eexists. exists p. split; [exact Hrun|]. cbn [db start].
  rewrite <- Hrid. split; [exact Hfind|].
  assert (Hp : exists q, q ∈ proteins (imported_db col empty_db)
                         /\ p = set_domain_count (imported_db col empty_db) q).
  { apply find_some in Hfind as [Hin _]. apply list_elem_of_In in Hin.
    unfold counted_db in Hin. cbn [proteins] in Hin.
    apply list_elem_of_fmap in Hin as (q & -> & Hq). eauto. }
  destruct Hp as (q & Hq & ->). cbn [set_domain_count uniprot_id] in Hpid.
  destruct (imported_last_row col empty_db _ _ r q Hrows Hlast Hq Hpid)
    as (_ & Ho & _ & He & Hl).
  cbn [set_domain_count is_labelled ec_numbers organism].
  rewrite Hl, He, Ho, Hlab, Hec, Horg.
  repeat split; try reflexivity.
  - rewrite (proj2 (Hdocs d ltac:(rewrite Hsplit; apply elem_of_app; right; constructor))).
    intros Hb. apply bool_decide_eq_true in Hb.
    destruct (LoadMongo.ec_numbers d); [cbn in Hb; lia|discriminate].
  - rewrite (proj2 (Hdocs d ltac:(rewrite Hsplit; apply elem_of_app; right; constructor))).
    intros Hb. apply bool_decide_eq_true.
    destruct (LoadMongo.ec_numbers d); [congruence|cbn; lia].
Qed.

Lemma loaded_document_becomes_its_node_example :
  exists s' p,
    main exact_jaccard
         (LoadMongo.load_tsv_smart (fun _ => 0)
            (Some [[LoadMongo.example_row; LoadMongo.example_unlabelled_row]])
            "Mouse" true []).1
         start = Returned tt s'
    /\ find_protein (db s') (LoadMongo._id LoadMongo.example_doc) = Some p
    /\ is_labelled p = LoadMongo.is_labelled LoadMongo.example_doc
    /\ ec_numbers p = LoadMongo.ec_numbers LoadMongo.example_doc
    /\ organism p = PyStr (LoadMongo.organism LoadMongo.example_doc)
    /\ (is_labelled p = true <-> ec_numbers p <> []).
Proof.
  apply (loaded_document_becomes_its_node exact_jaccard (fun _ => 0)
           [[LoadMongo.example_row; LoadMongo.example_unlabelled_row]] "Mouse" []
           LoadMongo.example_doc).
  - vm_compute. constructor.
  - discriminate.
Defined.

End BuildGraph.

(** ** Python dictionaries in insertion order *)

Module PyDict.

Section Dict.
Context {V : Type}.

Definition t := list (string * V).

(** [d.get(k)] *)
Fixpoint get (k : string) (d : t) : option V :=
  match d with
  | [] => None
  | (k', v) :: d' => if decide (k' = k) then Some v else get k d'
  end.

(** [d[k] = v]: a key that is there keeps its place, a new key goes to
    the end. *)
Fixpoint set (k : string) (v : V) (d : t) : t :=
  match d with
  | [] => [(k, v)]
  | (k', v') :: d' =>
      if decide (k' = k) then (k, v) :: d' else (k', v') :: set k v d'
  end.

Definition keys (d : t) : list string := map fst d.

(** [d.values()] *)
Definition values (d : t) : list V := map snd d.

Lemma get_set_same k v d : get k (set k v d) = Some v.
Proof.
  induction d as [|[k' v'] d IH]; simpl.
  - now rewrite decide_True.
  - destruct (decide (k' = k)); simpl.
    + now rewrite decide_True.
    + now rewrite decide_False.
Qed.

Lemma get_set_other k k' v d : k' <> k -> get k' (set k v d) = get k' d.
Proof.
  intros Hne. induction d as [|[k0 v0] d IH]; simpl.
  - now rewrite decide_False by congruence.
  - destruct (decide (k0 = k)) as [->|]; simpl.
    + now rewrite !decide_False by congruence.
    + destruct (decide (k0 = k')); [reflexivity|exact IH].
Qed.

Lemma get_None k d : get k d = None <-> k ∉ keys d.
Proof.
  unfold keys. induction d as [|[k' v'] d IH]; simpl.
  - split; [intros _; apply not_elem_of_nil|reflexivity].
  - rewrite not_elem_of_cons. destruct (decide (k' = k)) as [->|Hne].
    + split; [discriminate|]. intros [H _]. congruence.
    + rewrite IH. split; [intros H; split; [congruence|exact H]|intros [_ H]; exact H].
Qed.

Lemma get_Some_elem k v d : get k d = Some v -> (k, v) ∈ d.
Proof.
  induction d as [|[k' v'] d IH]; simpl; [discriminate|].
  destruct (decide (k' = k)) as [->|Hne].
  - intros [= ->]. constructor.
  - intros H. constructor. auto.
Qed.

Lemma keys_set_present k v d : k ∈ keys d -> keys (set k v d) = keys d.
Proof.
  unfold keys. induction d as [|[k' v'] d IH]; simpl.
  - intros H. inversion H.
  - destruct (decide (k' = k)) as [->|Hne]; simpl; [reflexivity|].
    rewrite elem_of_cons. intros [H|H]; [congruence|]. now rewrite IH.
Qed.

Lemma keys_set_absent k v d : k ∉ keys d -> keys (set k v d) = keys d ++ [k].
Proof.
  unfold keys. induction d as [|[k' v'] d IH]; simpl; [reflexivity|].
  rewrite not_elem_of_cons. intros [H1 H2].
  rewrite decide_False by congruence. simpl. now rewrite IH.
Qed.

Lemma elem_get k v d : NoDup (keys d) -> (k, v) ∈ d -> get k d = Some v.
Proof.
  unfold keys. induction d as [|[k' v'] d IH]; simpl.
  - intros _ H. inversion H.
  - rewrite NoDup_cons, elem_of_cons. intros [Hk Hd] [H|H].
    + injection H as -> ->. now rewrite decide_True.
    + destruct (decide (k' = k)) as [->|Hne]; [|auto].
      exfalso. apply Hk. apply list_elem_of_fmap. exists (k, v). auto.
Qed.

End Dict.

Arguments t V : clear implicits.

End PyDict.

(** ** neo4j_queries.py *)

Module Neo4jQueries.
Import Neo4j.

(** The query manager: [driver] is [None] until [connect] has set it. *)
Record manager := { driver : option graph_db }.

(** A relationship as the queries return it: the map projection
    [r {.*, source: ..., target: ..., type: type(r)}]. *)
Record rel := {
  rel_source : string;
  rel_target : string;
  rel_type : string;
  rel_jaccard_weight : option Q;
  rel_shared_domains : option Z;
  rel_union_domains : option Z
}.

(** The dictionary [get_protein_neighborhood] returns when the protein
    is found. *)
Record neighborhood := {
  center_protein : protein_node;
  neighbors : list protein_node;
  relationships : list rel;
  nb_domains : list domain_node;
  depth : Z
}.

(** *** The two neighbourhood queries *)

Definition similar_projection (r : similar_rel) : rel :=
  {| rel_source := source r; rel_target := target r; rel_type := "SIMILAR";
     rel_jaccard_weight := jaccard_weight r;
     rel_shared_domains := shared_domains r;
     rel_union_domains := union_domains r |}.

Definition domain_projection (pid did : string) : rel :=
  {| rel_source := pid; rel_target := did; rel_type := "HAS_DOMAIN";
     rel_jaccard_weight := None; rel_shared_domains := None;
     rel_union_domains := None |}.

Definition incident (id : string) (r : similar_rel) : bool :=
  bool_decide (source r = id) || bool_decide (target r = id).

Definition other_end (id : string) (r : similar_rel) : string :=
  if decide (source r = id) then target r else source r.

Definition find_domain (d : graph_db) (did : string) : option domain_node :=
  List.find (fun x => bool_decide (interpro_id x = did)) (domains d).

(** [DISTINCT] on values: two floats are the same when they are equal
    as numbers. *)
Definition same_weight (a b : option Q) : bool :=
  match a, b with
  | Some x, Some y => Qeq_bool x y
  | None, None => true
  | _, _ => false
  end.

Definition same_rel (a b : rel) : bool :=
  bool_decide (rel_source a = rel_source b)
  && bool_decide (rel_target a = rel_target b)
  && bool_decide (rel_type a = rel_type b)
  && same_weight (rel_jaccard_weight a) (rel_jaccard_weight b)
  && bool_decide (rel_shared_domains a = rel_shared_domains b)
  && bool_decide (rel_union_domains a = rel_union_domains b).

(** The first occurrences, in order: an element is kept when none of
    those seen before is the same. *)
Fixpoint distinct_from {A} (same : A -> A -> bool) (seen l : list A) : list A :=
  match l with
  | [] => []
  | x :: t =>
      if existsb (same x) seen then distinct_from same seen t
      else x :: distinct_from same (x :: seen) t
  end.

Definition distinct {A} (same : A -> A -> bool) (l : list A) : list A :=
  distinct_from same [] l.

Definition same_protein (a b : protein_node) : bool :=
  bool_decide (uniprot_id a = uniprot_id b).

Definition same_domain (a b : domain_node) : bool :=
  bool_decide (interpro_id a = interpro_id b).

(** The domains of the centre and its [HAS_DOMAIN] relationships, the
    part the two queries share. *)
Definition center_domains (d : graph_db) (id : string) : list domain_node :=
  distinct same_domain
    (omap (fun e => if decide (fst e = id) then find_domain d (snd e) else None)
          (has_domain d)).

Definition center_domain_rels (d : graph_db) (id : string) : list rel :=
  distinct same_rel
    (omap (fun e => if decide (fst e = id)
                    then match find_domain d (snd e) with
                         | Some x => Some (domain_projection id (interpro_id x))
                         | None => None
                         end
                    else None)
          (has_domain d)).

(** The record of one query: the five columns of its [RETURN]. *)
Record query_record := {
  rec_center_protein : protein_node;
  rec_neighbors : list protein_node;
  rec_relationships : list rel;
  rec_domains : list domain_node;
  rec_domain_rels : list rel
}.

(** The query for [depth == 1]; [None] when [MATCH] finds no protein, so
    that [result.single()] is [None]. *)
Definition query_depth1 (d : graph_db) (id : string) : option query_record :=
  match find_protein d id with
  | None => None
  | Some p =>
      let rs := List.filter (incident id) (similar d) in
      Some {| rec_center_protein := p;
              rec_neighbors :=
                distinct same_protein
                  (omap (fun r => find_protein d (other_end id r)) rs);
              rec_relationships := distinct same_rel (map similar_projection rs);
              rec_domains := center_domains d id;
              rec_domain_rels := center_domain_rels d id |}
  end.

(** The proteins one [SIMILAR] hop away from the centre. *)
Definition one_hop (d : graph_db) (id : string) : list string :=
  map (other_end id) (List.filter (incident id) (similar d)).

(** The relationships on the paths of one or two [SIMILAR] hops from the
    centre: those at the centre and those at a protein one hop away. *)
Definition on_paths (d : graph_db) (id : string) (r : similar_rel) : bool :=
  incident id r
  || existsb (fun n => incident n r) (one_hop d id).

(** The query for the other depths (paths of one or two hops). *)
Definition query_depth2 (d : graph_db) (id : string) : option query_record :=
  match find_protein d id with
  | None => None
  | Some p =>
      let all_rels := List.filter (on_paths d id) (similar d) in
      let all_nodes :=
        distinct same_protein
          (p :: omap (find_protein d)
                     (flat_map (fun r => [source r; target r]) all_rels)) in
      Some {| rec_center_protein := p;
              rec_neighbors :=
                List.filter (fun n => negb (bool_decide (uniprot_id n = uniprot_id p)))
                            all_nodes;
              rec_relationships := map similar_projection all_rels;
              rec_domains := center_domains d id;
              rec_domain_rels := center_domain_rels d id |}
  end.

(** [get_protein_neighborhood]; [None] is the empty dictionary, returned
    when no record comes back and when the session raises (here: no
    driver). A record that comes back is never falsy: its centre node has
    at least the property it was matched on. *)
Definition get_protein_neighborhood (m : manager) (protein_id : string)
    (depth : Z) : option neighborhood :=
  match driver m with
  | None => None
  | Some d =>
      match (if decide (depth = 1) then query_depth1 d protein_id
             else query_depth2 d protein_id) with
      | None => None
      | Some record =>
          Some {| center_protein := rec_center_protein record;
                  neighbors := rec_neighbors record;
                  relationships := rec_relationships record ++ rec_domain_rels record;
                  nb_domains := rec_domains record;
                  depth := depth |}
      end
  end.

(** *** The Cytoscape elements *)

Record node_data := {
  node_id : string;
  node_label : string;
  node_full_name : string;
  node_type : string;
  node_length : option pyval
}.

Record edge_data := {
  edge_id : string;
  edge_source : string;
  edge_target : string;
  edge_type : string;
  edge_weight : option Q
}.

Inductive element :=
| Node (data : node_data)
| Edge (data : edge_data).

(** Rounding to the nearest integer, ties to even. *)
Definition round_half_even (x : Q) : Z :=
  let f := Qfloor x in
  match Qcompare (x - inject_Z f) (1 # 2) with
  | Lt => f
  | Gt => f + 1
  | Eq => if Z.even f then f else f + 1
  end.

(** Floats. A [float] of Python and a [Float] property of the store are
    binary64 numbers, written here as rationals. [binary64 q] is the float
    nearest to [q], ties to the even significand, subnormal numbers
    included: [q] itself when [q] is the value of a float, and for a
    decimal or a fraction such as [7 # 40] the float that the literal
    [0.175], or the division [7.0 / 40.0], gives. Past the largest float
    no float is near (the operation would give an infinity), and the
    number is left as it is. *)
Definition pow2 (e : Z) : Q :=
  if (0 <=? e)%Z then inject_Z (2 ^ e) else 1 # Z.to_pos (2 ^ (- e)).

(** The exponent [e] with [pow2 e <= m < pow2 (e + 1)], for [0 < m]. *)
Definition log2_floor (m : Q) : Z :=
  let e0 := (Z.log2 (Qnum m) - Z.log2 (Zpos (Qden m)))%Z in
  if Qle_bool (pow2 e0) m then e0 else (e0 - 1)%Z.

Definition binary64 (q : Q) : Q :=
  match Qcompare q 0 with
  | Eq => 0%Q
  | c =>
      let m := Qabs q in
      let e := Z.max (log2_floor m - 52) (-1074) in
      let r := (inject_Z (round_half_even (m / pow2 e)) * pow2 e)%Q in
      if Qle_bool (pow2 1024) r then q
      else Qred (match c with Lt => - r | _ => r end)
  end.

(** [round(x, 2)] on a float: the decimal with two places nearest to the
    value the float holds, ties to even. The float that Python returns is
    the one nearest to this decimal, and prints as it; the decimal stands
    for it. *)
Definition round2 (x : Q) : Q := Qred (round_half_even (binary64 x * 100) # 100).

(** [p.get("protein_names", ["N/A"])[0] if ... else "N/A"] *)
Definition full_name_of (p : protein_node) : string :=
  match protein_names p with
  | Some (n :: _) => n
  | _ => "N/A"
  end.

(** [p.get("length", 0)] *)
Definition length_of (p : protein_node) : pyval :=
  match p_length p with
  | PyNone => PyInt 0
  | v => v
  end.

Definition protein_element (ty : string) (p : protein_node) : element :=
  Node {| node_id := uniprot_id p; node_label := uniprot_id p;
          node_full_name := full_name_of p; node_type := ty;
          node_length := Some (length_of p) |}.

Definition domain_element (d : domain_node) : element :=
  Node {| node_id := "dom_" +:+ interpro_id d; node_label := interpro_id d;
          node_full_name := default (interpro_id d) (name d);
          node_type := "domain"; node_length := None |}.

(** Step 1: the direct neighbours of the centre. *)
Fixpoint tier1_loop (center_id : string) (rels : list rel) (tier1_ids : gset string)
  : gset string :=
  match rels with
  | [] => tier1_ids
  | rel :: rest =>
      if decide (rel_type rel = "SIMILAR") then
        if decide (rel_source rel = center_id)
        then tier1_loop center_id rest ({[rel_target rel]} ∪ tier1_ids)
        else if decide (rel_target rel = center_id)
        then tier1_loop center_id rest ({[rel_source rel]} ∪ tier1_ids)
        else tier1_loop center_id rest tier1_ids
      else tier1_loop center_id rest tier1_ids
  end.

(** Step 2, the loop over the neighbours. *)
Fixpoint neighbors_loop (tier1_ids : gset string) (ns : list protein_node)
    (existing_nodes : gset string) : list element :=
  match ns with
  | [] => []
  | n :: rest =>
      let nid := uniprot_id n in
      if decide (nid ∈ existing_nodes) then neighbors_loop tier1_ids rest existing_nodes
      else
        protein_element
          (if decide (nid ∈ tier1_ids) then "neighbor_d1" else "neighbor_d2") n
        :: neighbors_loop tier1_ids rest ({[nid]} ∪ existing_nodes)
  end.

(** The entry of [best_d2_links] for a tier-2 node: weight and
    relationship. *)
Definition best_links := PyDict.t (Q * rel).

(** [rel.get("jaccard_weight", 0)] *)
Definition weight_of (rel : rel) : Q := default 0%Q (rel_jaccard_weight rel).

(** The tier-2 end of a relationship, as step 3 finds it. *)
Definition d2_node (center_id : string) (tier1_ids : gset string) (rel : rel)
  : option string :=
  if decide ((rel_source rel ∉ tier1_ids) /\ rel_source rel <> center_id)
  then Some (rel_source rel)
  else if decide ((rel_target rel ∉ tier1_ids) /\ rel_target rel <> center_id)
  then Some (rel_target rel)
  else None.

(** [weight > best_d2_links[d2_node_id]["weight"]] or a first link. *)
Definition record_link (d2_node_id : string) (rel : rel) (best : best_links)
  : best_links :=
  match PyDict.get d2_node_id best with
  | None => PyDict.set d2_node_id (weight_of rel, rel) best
  | Some (w, _) =>
      if Qle_bool (weight_of rel) w then best
      else PyDict.set d2_node_id (weight_of rel, rel) best
  end.

(** Step 3, the loop over the relationships. *)
Fixpoint edges_loop (center_id : string) (tier1_ids : gset string)
    (rels : list rel) (final_edges : list rel) (best_d2_links : best_links)
  : list rel * best_links :=
  match rels with
  | [] => (final_edges, best_d2_links)
  | rel :: rest =>
      let continue := edges_loop center_id tier1_ids rest in
      if decide (rel_type rel = "HAS_DOMAIN") then
        continue (final_edges ++ [rel]) best_d2_links
      else if decide (rel_type rel = "SIMILAR") then
        if decide (rel_source rel = center_id \/ rel_target rel = center_id) then
          continue (final_edges ++ [rel]) best_d2_links
        else if decide (rel_source rel ∈ tier1_ids /\ rel_target rel ∈ tier1_ids) then
          continue final_edges best_d2_links
        else
          match d2_node center_id tier1_ids rel with
          | Some d2_node_id =>
              if Py.truthy d2_node_id
              then continue final_edges (record_link d2_node_id rel best_d2_links)
              else continue final_edges best_d2_links
          | None => continue final_edges best_d2_links
          end
      else continue final_edges best_d2_links
  end.

(** [sorted([a, b])] joined by a dash. *)
Definition edge_key (a b : string) : string :=
  if String.ltb b a then b +:+ "-" +:+ a else a +:+ "-" +:+ b.

Definition edge_of (i : nat) (src tgt : string) (rel : rel) : element :=
  Edge {| edge_id := "e_" +:+ pretty i;
          edge_source := src; edge_target := tgt;
          edge_type := rel_type rel;
          edge_weight := option_map round2 (rel_jaccard_weight rel) |}.

(** The direction a [SIMILAR] edge is drawn in: centre to tier 1, tier 1
    to tier 2. *)
Definition oriented (center_id : string) (tier1_ids : gset string) (rel : rel)
  : string * string :=
  if decide (rel_target rel = center_id) then (center_id, rel_source rel)
  else if decide (rel_source rel = center_id) then (center_id, rel_target rel)
  else if decide (rel_source rel ∈ tier1_ids) then (rel_source rel, rel_target rel)
  else if decide (rel_target rel ∈ tier1_ids) then (rel_target rel, rel_source rel)
  else (rel_source rel, rel_target rel).

(** Step 4, the loop over [enumerate(final_edges)]. *)
Fixpoint elements_loop (center_id : string) (tier1_ids : gset string)
    (i : nat) (final_edges : list rel) (added_edges_keys : gset string)
  : list element :=
  match final_edges with
  | [] => []
  | rel :: rest =>
      let continue := elements_loop center_id tier1_ids (S i) rest in
      if decide (rel_type rel = "HAS_DOMAIN") then
        edge_of i (rel_source rel) ("dom_" +:+ rel_target rel) rel
        :: continue added_edges_keys
      else if decide (rel_type rel = "SIMILAR") then
        let key := edge_key (rel_source rel) (rel_target rel) in
        if decide (key ∈ added_edges_keys) then continue added_edges_keys
        else
          let '(viz_source, viz_target) := oriented center_id tier1_ids rel in
          edge_of i viz_source viz_target rel
          :: continue ({[key]} ∪ added_edges_keys)
      else
        edge_of i (rel_source rel) (rel_target rel) rel :: continue added_edges_keys
  end.

(** The list of relationships step 4 goes through. *)
Definition final_edges_of (center_id : string) (tier1_ids : gset string)
    (rels : list rel) : list rel :=
  let '(final_edges, best_d2_links) := edges_loop center_id tier1_ids rels [] [] in
  final_edges ++ map snd (PyDict.values best_d2_links).

(** The body of [export_neighborhood_for_visualization] once the
    neighbourhood is there. *)
Definition export_elements (data : neighborhood) : list element :=
  let center_id := uniprot_id (center_protein data) in
  let tier1_ids := tier1_loop center_id (relationships data) ∅ in
  protein_element "center" (center_protein data)
  :: neighbors_loop tier1_ids (neighbors data) {[center_id]}
  ++ map domain_element (nb_domains data)
  ++ elements_loop center_id tier1_ids 0
       (final_edges_of center_id tier1_ids (relationships data)) ∅.

(** [export_neighborhood_for_visualization] *)
Definition export_neighborhood_for_visualization (m : manager)
    (protein_id : string) (depth : Z) : list element :=
  match get_protein_neighborhood m protein_id depth with
  | None => []
  | Some data => export_elements data
  end.

(** *** Step 1: who is in tier 1 *)

Lemma tier1_loop_spec center_id rels : forall tier1_ids x,
  x ∈ tier1_loop center_id rels tier1_ids <->
  x ∈ tier1_ids \/
  exists r, r ∈ rels /\ rel_type r = "SIMILAR" /\
    ((rel_source r = center_id /\ rel_target r = x)
     \/ (rel_source r <> center_id /\ rel_target r = center_id /\ rel_source r = x)).
Proof.
  induction rels as [|rel rest IH]; intros T0 x; cbn [tier1_loop].
  - split; [auto|]. intros [H|(r & Hr & _)]; [exact H|inversion Hr].
  - repeat case_decide; rewrite IH; clear IH.
    + rewrite elem_of_union, elem_of_singleton. split.
      * intros [[->|Hx]|(r & Hr & Hx)]; [right|left; exact Hx|right].
        -- exists rel. split; [constructor|]. auto.
        -- exists r. split; [now constructor|exact Hx].
      * intros [Hx|(r & Hr & Hty & Hx)]; [auto|].
        apply elem_of_cons in Hr as [->|Hr]; [|right; eauto].
        destruct Hx as [[_ <-]|[Hn _]]; [auto|congruence].
    + rewrite elem_of_union, elem_of_singleton. split.
      * intros [[->|Hx]|(r & Hr & Hx)]; [right|left; exact Hx|right].
        -- exists rel. split; [constructor|]. auto.
        -- exists r. split; [now constructor|exact Hx].
      * intros [Hx|(r & Hr & Hty & Hx)]; [auto|].
        apply elem_of_cons in Hr as [->|Hr]; [|right; eauto].
        destruct Hx as [[Hc _]|(_ & _ & <-)]; [congruence|auto].
    + split.
      * intros [Hx|(r & Hr & Hx)]; [auto|right].
        exists r. split; [now constructor|exact Hx].
      * intros [Hx|(r & Hr & Hty & Hx)]; [auto|].
        apply elem_of_cons in Hr as [->|Hr]; [|right; eauto].
        destruct Hx as [[Hc _]|(_ & Hc & _)]; congruence.
    + split.
      * intros [Hx|(r & Hr & Hx)]; [auto|right].
        exists r. split; [now constructor|exact Hx].
      * intros [Hx|(r & Hr & Hty & Hx)]; [auto|].
        apply elem_of_cons in Hr as [->|Hr]; [congruence|right; eauto].
Qed.

(** The tier-1 set of a neighbourhood. *)
Definition tier1_of (data : neighborhood) : gset string :=
  tier1_loop (uniprot_id (center_protein data)) (relationships data) ∅.

Lemma tier1_of_spec data x :
  x ∈ tier1_of data <->
  exists r, r ∈ relationships data /\ rel_type r = "SIMILAR" /\
    ((rel_source r = uniprot_id (center_protein data) /\ rel_target r = x)
     \/ (rel_source r <> uniprot_id (center_protein data)
         /\ rel_target r = uniprot_id (center_protein data) /\ rel_source r = x)).
Proof.
  unfold tier1_of. rewrite tier1_loop_spec. split; [|auto].
  intros [H|H]; [|exact H]. exfalso. revert H. apply not_elem_of_empty.
Qed.

(** An element that is a [SIMILAR] edge with the node [w] at one end. *)
Definition similar_edge_at (w : string) (e : element) : Prop :=
  match e with
  | Edge d => edge_type d = "SIMILAR" /\ (edge_source d = w \/ edge_target d = w)
  | Node _ => False
  end.

#[global] Instance similar_edge_at_dec w e : Decision (similar_edge_at w e).
Proof. destruct e; cbn; apply _. Defined.

Lemma filter_none {A} (P : A -> Prop) `{!forall x, Decision (P x)} (l : list A) :
  (forall x, x ∈ l -> ~ P x) -> filter P l = [].
Proof.
  induction l as [|x l IH]; intros Hall; [reflexivity|].
  rewrite filter_cons, decide_False by (apply Hall; constructor).
  apply IH. intros y Hy. apply Hall. now constructor.
Qed.

(** *** Edge keys *)

Lemma filter_ext_elem {A} (P1 P2 : A -> Prop)
    `{!forall x, Decision (P1 x), !forall x, Decision (P2 x)} (l : list A) :
  (forall x, x ∈ l -> P1 x <-> P2 x) -> filter P1 l = filter P2 l.
Proof.
  induction l as [|x l IH]; intros Hall; [reflexivity|].
  rewrite !filter_cons.
  assert (Hx : P1 x <-> P2 x) by (apply Hall; constructor).
  rewrite IH by (intros y Hy; apply Hall; now constructor).
  destruct (decide (P1 x)), (decide (P2 x)); tauto || reflexivity.
Qed.

(** An identifier without a dash. *)
Fixpoint no_dash (s : string) : bool :=
  match s with
  | EmptyString => true
  | String ch s' => negb (Ascii.eqb ch "-") && no_dash s'
  end.

Lemma dash_join_inj x : forall x' y y',
  no_dash x = true -> no_dash x' = true ->
  x +:+ "-" +:+ y = x' +:+ "-" +:+ y' -> x = x' /\ y = y'.
Proof.
  assert (Hnil : forall z, "" +:+ z = z) by reflexivity.
  assert (Hcons : forall ch z1 z2, String ch z1 +:+ z2 = String ch (z1 +:+ z2))
    by reflexivity.
  induction x as [|ch x IH]; intros [|ch' x'] y y' Hx Hx';
    rewrite ?Hnil, ?Hcons, ?Hnil; intros E.
  - injection E as ->. auto.
  - injection E as <- _. cbn in Hx'. discriminate.
  - injection E as -> _. cbn in Hx. discriminate.
  - injection E as -> E. cbn [no_dash] in Hx, Hx'.
    apply andb_true_iff in Hx as [_ Hx]. apply andb_true_iff in Hx' as [_ Hx'].
    destruct (IH _ _ _ Hx Hx' E) as [-> ->]. auto.
Qed.

(** For identifiers without a dash the key tells the unordered pair. *)
Lemma edge_key_inj a b a' b' :
  no_dash a = true -> no_dash b = true ->
  no_dash a' = true -> no_dash b' = true ->
  edge_key a b = edge_key a' b' ->
  (a = a' /\ b = b') \/ (a = b' /\ b = a').
Proof.
  unfold edge_key. intros Ha Hb Ha' Hb'.
  destruct (String.ltb b a), (String.ltb b' a'); intros E;
    apply dash_join_inj in E; try assumption; tauto.
Qed.

(** *** Step 3: what is kept, what competes *)

Section Reduction.

Variable center_id : string.
Variable tier1_ids : gset string.

Definition touches_center (r : rel) : Prop :=
  rel_source r = center_id \/ rel_target r = center_id.

(** The relationships step 3 passes on as they are. *)
Definition kept (r : rel) : Prop :=
  rel_type r = "HAS_DOMAIN" \/ (rel_type r = "SIMILAR" /\ touches_center r).

#[local] Instance touches_center_dec r : Decision (touches_center r).
Proof. unfold touches_center. apply _. Defined.

#[local] Instance kept_dec r : Decision (kept r).
Proof. unfold kept. apply _. Defined.

(** The tier-2 node a relationship competes for in [best_d2_links], if
    it competes. *)
Definition candidate (r : rel) : option string :=
  if decide (rel_type r = "SIMILAR") then
    if decide (touches_center r) then None
    else if decide (rel_source r ∈ tier1_ids /\ rel_target r ∈ tier1_ids) then None
    else match d2_node center_id tier1_ids r with
         | Some k => if Py.truthy k then Some k else None
         | None => None
         end
  else None.

Definition link_step (best : best_links) (r : rel) : best_links :=
  match candidate r with
  | Some k => record_link k r best
  | None => best
  end.

Definition links (rels : list rel) (best : best_links) : best_links :=
  fold_left link_step rels best.

Lemma candidate_kept r : kept r -> candidate r = None.
Proof.
  unfold kept, candidate. intros [Hd|[Hs Hc]].
  - assert (Hns : rel_type r <> "SIMILAR") by (rewrite Hd; discriminate).
    now rewrite decide_False.
  - rewrite decide_True by assumption. now rewrite decide_True.
Qed.

Lemma edges_loop_spec rels : forall final_edges best,
  edges_loop center_id tier1_ids rels final_edges best =
  (final_edges ++ filter kept rels, links rels best).
Proof.
  induction rels as [|r rest IH]; intros fe best; cbn [edges_loop].
  - now rewrite app_nil_r.
  - unfold links. cbn [fold_left]. fold (links rest (link_step best r)).
    rewrite filter_cons. unfold link_step.
    destruct (decide (kept r)) as [Hk|Hk].
    + rewrite (candidate_kept r Hk).
      assert (E : forall X Y : list rel * best_links,
                 (if decide (rel_type r = "HAS_DOMAIN") then X
                  else if decide (rel_type r = "SIMILAR") then
                    if decide (rel_source r = center_id \/ rel_target r = center_id)
                    then X else Y
                  else Y) = X).
      { intros X Y. destruct Hk as [Hd|[Hs Hc]].
        - now rewrite decide_True.
        - destruct (decide (rel_type r = "HAS_DOMAIN")); [reflexivity|].
          rewrite decide_True by assumption. now rewrite decide_True. }
      match goal with |- ?lhs = _ =>
        match lhs with
        | (if _ then ?X else if _ then if _ then _ else ?Y else _) =>
            transitivity X; [|rewrite IH, <- app_assoc; reflexivity]
        end
      end.
      destruct Hk as [Hd|[Hs Hc]].
      * now rewrite decide_True.
      * destruct (decide (rel_type r = "HAS_DOMAIN")); [reflexivity|].
        rewrite decide_True by assumption. now rewrite decide_True.
    + unfold kept in Hk.
      rewrite decide_False by tauto.
      unfold candidate.
      destruct (decide (rel_type r = "SIMILAR")) as [Hs|Hs]; [|apply IH].
      assert (Hc : ~ touches_center r) by tauto.
      rewrite (decide_False (P := touches_center r)) by assumption.
      rewrite (decide_False (P := touches_center r)) by assumption.
      destruct (decide (rel_source r ∈ tier1_ids /\ rel_target r ∈ tier1_ids));
        [apply IH|].
      destruct (d2_node center_id tier1_ids r) as [k|]; [|apply IH].
      destruct (Py.truthy k); apply IH.
Qed.

Lemma candidate_Some r k :
  candidate r = Some k ->
  rel_type r = "SIMILAR" /\ ~ touches_center r
  /\ (k ∉ tier1_ids) /\ k <> center_id /\ k <> EmptyString
  /\ ((rel_source r = k) \/ (rel_source r ∈ tier1_ids /\ rel_target r = k)).
Proof.
  unfold candidate, d2_node.
  destruct (decide (rel_type r = "SIMILAR")) as [Hs|]; [|discriminate].
  destruct (decide (touches_center r)) as [|Hc]; [discriminate|].
  destruct (decide (_ /\ _)) as [|Hl]; [discriminate|].
  destruct (decide ((rel_source r ∉ tier1_ids) /\ rel_source r <> center_id))
    as [[H1 H2]|H1].
  - destruct (Py.truthy (rel_source r)) eqn:E; [|discriminate].
    intros [= <-]. apply Py.truthy_true in E. tauto.
  - destruct (decide ((rel_target r ∉ tier1_ids) /\ rel_target r <> center_id))
      as [[H3 H4]|H3]; [|discriminate].
    destruct (Py.truthy (rel_target r)) eqn:E; [|discriminate].
    intros [= <-]. apply Py.truthy_true in E.
    repeat split; try assumption. right. split; [|reflexivity].
    destruct (decide (rel_source r ∈ tier1_ids)) as [|Hn]; [assumption|].
    exfalso. apply H1. split; [exact Hn|]. intros E'. apply Hc. now left.
Qed.

(** A relationship between a tier-1 node and a node that is neither in
    tier 1 nor the centre competes for that node. *)
Lemma candidate_of_link r y w :
  rel_type r = "SIMILAR" ->
  y ∈ tier1_ids -> w ∉ tier1_ids -> w <> center_id -> w <> EmptyString ->
  y <> center_id ->
  (rel_source r = y /\ rel_target r = w) \/ (rel_source r = w /\ rel_target r = y) ->
  candidate r = Some w.
Proof.
  intros Hs Hy Hw Hwc Hwe Hyc Hends.
  assert (Ht : Py.truthy w = true) by now apply Py.truthy_true.
  unfold candidate, d2_node.
  rewrite decide_True by assumption.
  assert (Hc : ~ touches_center r).
  { unfold touches_center. destruct Hends as [[E1 E2]|[E1 E2]];
      rewrite E1, E2; intros [?|?]; congruence. }
  rewrite (decide_False (P := touches_center r)) by assumption.
  destruct r as [src tgt ty jw sh un]. cbn [rel_source rel_target] in *.
  destruct Hends as [[-> ->]|[-> ->]].
  - rewrite (decide_False (P := y ∈ tier1_ids /\ w ∈ tier1_ids)) by tauto.
    rewrite (decide_False (P := (y ∉ tier1_ids) /\ _)) by tauto.
    rewrite decide_True by tauto. now rewrite Ht.
  - rewrite (decide_False (P := w ∈ tier1_ids /\ y ∈ tier1_ids)) by tauto.
    rewrite decide_True by tauto. now rewrite Ht.
Qed.

(** *** Step 3: which link wins *)

(** The relationships that compete for a tier-2 node, in the order of
    the list. *)
Definition cands (k : string) (rels : list rel) : list rel :=
  filter (fun r => candidate r = Some k) rels.

(** The entry of a node after one more competitor: the first one, or a
    strictly heavier one. *)
Definition pick (acc : option (Q * rel)) (r : rel) : option (Q * rel) :=
  match acc with
  | None => Some (weight_of r, r)
  | Some (w, _) => if Qle_bool (weight_of r) w then acc else Some (weight_of r, r)
  end.

Definition first_max (acc : option (Q * rel)) (l : list rel) : option (Q * rel) :=
  fold_left pick l acc.

Lemma get_record_link_same k r best :
  PyDict.get k (record_link k r best) = pick (PyDict.get k best) r.
Proof.
  unfold record_link, pick.
  destruct (PyDict.get k best) as [[w r0]|] eqn:E.
  - destruct (Qle_bool (weight_of r) w); [exact E|apply PyDict.get_set_same].
  - apply PyDict.get_set_same.
Qed.

Lemma get_record_link_other k k' r best :
  k' <> k -> PyDict.get k' (record_link k r best) = PyDict.get k' best.
Proof.
  intros Hne. unfold record_link.
  destruct (PyDict.get k best) as [[w r0]|].
  - destruct (Qle_bool (weight_of r) w); [reflexivity|].
    now apply PyDict.get_set_other.
  - now apply PyDict.get_set_other.
Qed.

Lemma links_get k rels : forall best,
  PyDict.get k (links rels best) = first_max (PyDict.get k best) (cands k rels).
Proof.
  unfold links, first_max, cands.
  induction rels as [|r rest IH]; intros best; [reflexivity|].
  cbn [fold_left]. rewrite IH, filter_cons. unfold link_step.
  destruct (decide (candidate r = Some k)) as [E|E].
  - rewrite E. cbn [fold_left]. now rewrite get_record_link_same.
  - destruct (candidate r) as [k'|]; [|reflexivity].
    rewrite get_record_link_other; [reflexivity|congruence].
Qed.

Lemma elem_of_set {V} k (v : V) d x :
  x ∈ PyDict.set k v d -> x ∈ d \/ x = (k, v).
Proof.
  induction d as [|[k' v'] d IH]; cbn [PyDict.set].
  - intros H. apply list_elem_of_singleton in H. auto.
  - destruct (decide (k' = k)).
    + rewrite !elem_of_cons. tauto.
    + rewrite !elem_of_cons. intros [H|H]; [auto|]. apply IH in H. tauto.
Qed.

Lemma NoDup_keys_set {V} k (v : V) d :
  NoDup (PyDict.keys d) -> NoDup (PyDict.keys (PyDict.set k v d)).
Proof.
  intros Hd. destruct (decide (k ∈ PyDict.keys d)) as [Hin|Hout].
  - now rewrite PyDict.keys_set_present.
  - rewrite PyDict.keys_set_absent by assumption.
    apply NoDup_app. split; [exact Hd|]. split.
    + intros x Hx Hk. apply list_elem_of_singleton in Hk as ->. auto.
    + apply NoDup_singleton.
Qed.

Lemma NoDup_keys_record_link k r best :
  NoDup (PyDict.keys best) -> NoDup (PyDict.keys (record_link k r best)).
Proof.
  intros Hd. unfold record_link.
  destruct (PyDict.get k best) as [[w r0]|].
  - destruct (Qle_bool (weight_of r) w); [exact Hd|now apply NoDup_keys_set].
  - now apply NoDup_keys_set.
Qed.

Lemma links_NoDup rels : forall best,
  NoDup (PyDict.keys best) -> NoDup (PyDict.keys (links rels best)).
Proof.
  unfold links. induction rels as [|r rest IH]; intros best Hd; [exact Hd|].
  cbn [fold_left]. apply IH. unfold link_step.
  destruct (candidate r); [now apply NoDup_keys_record_link|exact Hd].
Qed.

Lemma links_entries rels : forall best k w r,
  (k, (w, r)) ∈ links rels best ->
  (k, (w, r)) ∈ best \/ (r ∈ rels /\ candidate r = Some k /\ w = weight_of r).
Proof.
  unfold links. induction rels as [|r0 rest IH]; intros best k w r H; [now left|].
  cbn [fold_left] in H. apply IH in H as [H|(H1 & H2 & H3)].
  - unfold link_step in H. destruct (candidate r0) as [k0|] eqn:E; [|now left].
    unfold record_link in H.
    assert (Hset : (k, (w, r)) ∈ PyDict.set k0 (weight_of r0, r0) best ->
                   (k, (w, r)) ∈ best
                   \/ (r ∈ r0 :: rest /\ candidate r = Some k /\ w = weight_of r)).
    { intros Hs. apply elem_of_set in Hs as [Hs|Hs]; [now left|].
      injection Hs as -> -> ->. right. split; [constructor|]. auto. }
    destruct (PyDict.get k0 best) as [[w1 r1]|]; [|auto].
    destruct (Qle_bool (weight_of r0) w1); auto.
  - right. split; [now constructor|]. auto.
Qed.

Lemma first_max_from l : forall wa ra,
  exists w r, first_max (Some (wa, ra)) l = Some (w, r) /\
    (((w, r) = (wa, ra) /\ Forall (fun x => (weight_of x <= wa)%Q) l)
     \/ (w = weight_of r /\ (wa < w)%Q /\
         exists l1 l2, l = l1 ++ r :: l2
           /\ Forall (fun x => (weight_of x < weight_of r)%Q) l1
           /\ Forall (fun x => (weight_of x <= weight_of r)%Q) l2)).
Proof.
  unfold first_max.
  induction l as [|x l IH]; intros wa ra; cbn [fold_left pick].
  - exists wa, ra. split; [reflexivity|]. left. auto.
  - destruct (Qle_bool (weight_of x) wa) eqn:E.
    + apply Qle_bool_iff in E.
      destruct (IH wa ra) as (w & r & Hf & [[Heq Hall]|(Hw & Hlt & l1 & l2 & -> & H1 & H2)]).
      * exists w, r. split; [exact Hf|]. left. split; [exact Heq|].
        constructor; assumption.
      * exists w, r. split; [exact Hf|]. right. split; [exact Hw|].
        split; [exact Hlt|]. exists (x :: l1), l2. split; [reflexivity|].
        split; [|exact H2]. constructor; [|exact H1].
        rewrite <- Hw. eapply Qle_lt_trans; eassumption.
    + assert (Hgt : (wa < weight_of x)%Q).
      { apply Qnot_le_lt. intros Hle. apply Qle_bool_iff in Hle. congruence. }
      destruct (IH (weight_of x) x)
        as (w & r & Hf & [[Heq Hall]|(Hw & Hlt & l1 & l2 & -> & H1 & H2)]).
      * injection Heq as -> ->. exists (weight_of x), x.
        split; [exact Hf|]. right. split; [reflexivity|]. split; [exact Hgt|].
        exists [], l. split; [reflexivity|]. split; [constructor|exact Hall].
      * exists w, r. split; [exact Hf|]. right. split; [exact Hw|].
        split; [eapply Qlt_trans; eassumption|].
        exists (x :: l1), l2. split; [reflexivity|]. split; [|exact H2].
        constructor; [|exact H1]. now rewrite <- Hw.
Qed.

(** The winner is the first of the heaviest competitors. *)
Lemma first_max_spec l :
  match first_max None l with
  | None => l = []
  | Some (w, r) =>
      w = weight_of r /\
      exists l1 l2, l = l1 ++ r :: l2
        /\ Forall (fun x => (weight_of x < weight_of r)%Q) l1
        /\ Forall (fun x => (weight_of x <= weight_of r)%Q) l2
  end.
Proof.
  destruct l as [|x l]; [reflexivity|].
  change (first_max None (x :: l)) with (first_max (Some (weight_of x, x)) l).
  destruct (first_max_from l (weight_of x) x)
    as (w & r & -> & [[Heq Hall]|(Hw & Hlt & l1 & l2 & -> & H1 & H2)]).
  - injection Heq as -> ->. split; [reflexivity|].
    exists [], l. split; [reflexivity|]. split; [constructor|exact Hall].
  - split; [exact Hw|]. exists (x :: l1), l2. split; [reflexivity|].
    split; [|exact H2]. constructor; [|exact H1]. now rewrite <- Hw.
Qed.

(** *** Step 4: which elements come out *)

Definition key_of (r : rel) : string := edge_key (rel_source r) (rel_target r).

(** The keys step 4 has added once it has gone through a list. *)
Definition similar_keys (l : list rel) : gset string :=
  list_to_set (map key_of (filter (fun r => rel_type r = "SIMILAR") l)).

(** The element step 4 makes of a relationship at index [i], when it
    makes one. *)
Definition emitted (i : nat) (r : rel) : element :=
  if decide (rel_type r = "HAS_DOMAIN")
  then edge_of i (rel_source r) ("dom_" +:+ rel_target r) r
  else if decide (rel_type r = "SIMILAR")
  then edge_of i (oriented center_id tier1_ids r).1 (oriented center_id tier1_ids r).2 r
  else edge_of i (rel_source r) (rel_target r) r.

Lemma similar_keys_cons_similar r l :
  rel_type r = "SIMILAR" -> similar_keys (r :: l) = {[key_of r]} ∪ similar_keys l.
Proof.
  intros Hs. unfold similar_keys. rewrite filter_cons, decide_True by assumption.
  reflexivity.
Qed.

Lemma similar_keys_cons_other r l :
  rel_type r <> "SIMILAR" -> similar_keys (r :: l) = similar_keys l.
Proof.
  intros Hs. unfold similar_keys. now rewrite filter_cons, decide_False.
Qed.

Lemma elements_loop_app l1 : forall i added l2,
  elements_loop center_id tier1_ids i (l1 ++ l2) added =
  elements_loop center_id tier1_ids i l1 added
  ++ elements_loop center_id tier1_ids (i + length l1) l2 (similar_keys l1 ∪ added).
Proof.
  induction l1 as [|r l1 IH]; intros i added l2.
  - cbn [app elements_loop length]. rewrite Nat.add_0_r.
    unfold similar_keys. cbn. now rewrite (left_id_L ∅ (∪)).
  - cbn [app elements_loop length].
    replace (i + S (length l1))%nat with (S i + length l1)%nat by lia.
    destruct (decide (rel_type r = "HAS_DOMAIN")) as [Hd|Hd].
    + rewrite similar_keys_cons_other by (rewrite Hd; discriminate).
      rewrite IH. reflexivity.
    + destruct (decide (rel_type r = "SIMILAR")) as [Hs|Hs].
      * rewrite similar_keys_cons_similar by assumption.
        fold (key_of r).
        destruct (decide (key_of r ∈ added)) as [Hin|Hout].
        -- rewrite IH. do 2 f_equal. apply set_eq. intros x.
           rewrite !elem_of_union, elem_of_singleton.
           intuition (subst; auto).
        -- destruct (oriented center_id tier1_ids r) as [vs vt].
           rewrite IH. cbn [app]. do 3 f_equal. apply set_eq. intros x.
           rewrite !elem_of_union, elem_of_singleton. tauto.
      * rewrite similar_keys_cons_other by assumption.
        rewrite IH. reflexivity.
Qed.

Lemma elements_loop_provenance l : forall i added e,
  e ∈ elements_loop center_id tier1_ids i l added ->
  exists j r, r ∈ l /\ e = emitted j r.
Proof.
  induction l as [|r l IH]; intros i added e; cbn [elements_loop].
  - intros H. inversion H.
  - assert (Hrest : forall j A, e ∈ elements_loop center_id tier1_ids j l A ->
                    exists j r0, r0 ∈ r :: l /\ e = emitted j r0).
    { intros j A H. destruct (IH _ _ _ H) as (j' & r0 & Hr0 & He).
      exists j', r0. split; [now constructor|exact He]. }
    assert (Hhere : e = emitted i r -> exists j r0, r0 ∈ r :: l /\ e = emitted j r0).
    { intros ->. exists i, r. split; [constructor|reflexivity]. }
    unfold emitted in Hhere.
    destruct (decide (rel_type r = "HAS_DOMAIN")) as [Hd|Hd].
    + rewrite elem_of_cons. intros [H|H]; eauto.
    + destruct (decide (rel_type r = "SIMILAR")) as [Hs|Hs].
      * destruct (decide (_ ∈ added)); [eauto|].
        destruct (oriented center_id tier1_ids r) as [vs vt].
        rewrite elem_of_cons. intros [H|H]; eauto.
      * rewrite elem_of_cons. intros [H|H]; eauto.
Qed.

(** Relationships of type [SIMILAR] with keys that are new and differ
    from each other all come out, one element each. *)
Lemma elements_loop_fresh l : forall i added,
  Forall (fun r => rel_type r = "SIMILAR") l ->
  NoDup (map key_of l) ->
  (forall r, r ∈ l -> key_of r ∉ added) ->
  elements_loop center_id tier1_ids i l added =
  imap (fun n r => emitted (i + n) r) l.
Proof.
  induction l as [|r l IH]; intros i added Hall Hnd Hnew; [reflexivity|].
  cbn [elements_loop imap map] in *.
  apply Forall_cons in Hall as [Hs Hall].
  apply NoDup_cons in Hnd as [Hr Hnd].
  assert (Hd : rel_type r <> "HAS_DOMAIN") by (rewrite Hs; discriminate).
  rewrite decide_False by assumption. rewrite decide_True by assumption.
  fold (key_of r).
  rewrite decide_False by (apply Hnew; constructor).
  unfold emitted at 1.
  rewrite decide_False by assumption. rewrite decide_True by assumption.
  rewrite Nat.add_0_r.
  destruct (oriented center_id tier1_ids r) as [vs vt]. cbn [fst snd].
  f_equal. rewrite IH; [| assumption | assumption |].
  - apply imap_ext. intros n x _. cbn. f_equal. lia.
  - intros x Hx. rewrite elem_of_union, elem_of_singleton.
    intros [E|Hin].
    + apply Hr. rewrite <- E. apply list_elem_of_fmap. eauto.
    + revert Hin. apply Hnew. now constructor.
Qed.

(** *** Orientation *)

(** A relationship at the centre is drawn from the centre. *)
Lemma oriented_center r :
  touches_center r ->
  oriented center_id tier1_ids r =
    (center_id, if decide (rel_target r = center_id) then rel_source r
                else rel_target r).
Proof.
  unfold oriented, touches_center. intros [Hs|Ht].
  - destruct (decide (rel_target r = center_id)); [reflexivity|].
    now rewrite decide_True.
  - now rewrite !decide_True.
Qed.

(** A relationship that competes for [k] is drawn towards [k], from its
    other end, when that end is in tier 1. *)
Lemma oriented_candidate r k :
  candidate r = Some k ->
  touches_center r \/ rel_source r ∈ tier1_ids \/ rel_target r ∈ tier1_ids ->
  exists y, oriented center_id tier1_ids r = (y, k)
            /\ y ∈ tier1_ids /\ y <> center_id
            /\ ((rel_source r = y /\ rel_target r = k)
                \/ (rel_source r = k /\ rel_target r = y)).
Proof.
  intros Hc Hshape.
  destruct (candidate_Some r k Hc) as (Hs & Hn & HkT & Hkc & _ & Hends).
  unfold touches_center in Hn. unfold oriented.
  rewrite (decide_False (P := rel_target r = center_id)) by tauto.
  rewrite (decide_False (P := rel_source r = center_id)) by tauto.
  destruct Hends as [E|[Hy E]].
  - assert (Ht : rel_target r ∈ tier1_ids).
    { destruct Hshape as [H|[H|H]]; [tauto| |exact H]. rewrite E in H. tauto. }
    exists (rel_target r).
    rewrite decide_False by (rewrite E; exact HkT).
    rewrite decide_True by exact Ht.
    rewrite E. repeat split; auto || tauto.
  - exists (rel_source r). rewrite decide_True by exact Hy.
    rewrite E. repeat split; auto || tauto.
Qed.

(** *** The elements of the export, by origin *)

(** The links that won, in the order of [best_d2_links]. *)
Definition winners (rels : list rel) : list rel :=
  map (fun x => snd (snd x)) (links rels []).

Lemma final_edges_of_spec rels :
  final_edges_of center_id tier1_ids rels = filter kept rels ++ winners rels.
Proof.
  unfold final_edges_of, winners, PyDict.values.
  rewrite edges_loop_spec. cbn [app]. now rewrite map_map.
Qed.

Lemma winners_candidate rels r :
  r ∈ winners rels -> r ∈ rels /\ exists k, candidate r = Some k.
Proof.
  unfold winners. intros H.
  apply list_elem_of_fmap in H as ([k [w r']] & -> & H). cbn [snd].
  apply links_entries in H as [H|(H1 & H2 & _)]; [inversion H|eauto].
Qed.

(** Every edge element comes from a relationship of the neighbourhood
    that step 3 kept or that won a tier-2 node. *)
Lemma final_elements_origin rels e :
  e ∈ elements_loop center_id tier1_ids 0 (final_edges_of center_id tier1_ids rels) ∅ ->
  exists j r, r ∈ rels /\ e = emitted j r
              /\ (kept r \/ exists k, candidate r = Some k).
Proof.
  intros H. apply elements_loop_provenance in H as (j & r & Hr & ->).
  rewrite final_edges_of_spec, elem_of_app in Hr.
  exists j, r. destruct Hr as [Hr|Hr].
  - apply list_elem_of_filter in Hr as [Hk Hr]. auto.
  - apply winners_candidate in Hr as [Hr Hk]. auto.
Qed.

(** The neighbourhood has the shape the queries give it: a [SIMILAR]
    relationship is at the centre or at a tier-1 node. *)
Definition retrieved_shape (rels : list rel) : Prop :=
  forall r, r ∈ rels -> rel_type r = "SIMILAR" ->
    touches_center r \/ rel_source r ∈ tier1_ids \/ rel_target r ∈ tier1_ids.

(** The other end of a [SIMILAR] relationship at the centre is in
    [tier1_ids] (or is the centre again). *)
Definition tier1_complete (rels : list rel) : Prop :=
  forall r, r ∈ rels -> rel_type r = "SIMILAR" ->
    (rel_source r = center_id -> rel_target r ∈ tier1_ids)
    /\ (rel_target r = center_id -> rel_source r <> center_id ->
        rel_source r ∈ tier1_ids).

(** No identifier of a protein in a [SIMILAR] relationship has a dash. *)
Definition dash_free (rels : list rel) : Prop :=
  forall r, r ∈ rels -> rel_type r = "SIMILAR" ->
    no_dash (rel_source r) = true /\ no_dash (rel_target r) = true.

Lemma NoDup_fmap_via {A B C} (g : A -> B) (h : A -> C) (l : list A) :
  (forall x y, x ∈ l -> y ∈ l -> g x = g y -> h x = h y) ->
  NoDup (map h l) -> NoDup (map g l).
Proof.
  induction l as [|x l IH]; intros Hinj Hnd; cbn [map] in *; [constructor|].
  apply NoDup_cons in Hnd as [Hx Hnd]. apply NoDup_cons. split.
  - intros Hin. apply list_elem_of_fmap in Hin as (y & E & Hy).
    apply Hx. apply list_elem_of_fmap. exists y. split; [|exact Hy].
    apply Hinj; [constructor|now constructor|exact E].
  - apply IH; [|exact Hnd]. intros a b Ha Hb. apply Hinj; now constructor.
Qed.

(** With dash-free identifiers, the winners have keys of their own: they
    differ from each other and from the keys of the relationships at the
    centre; so every winner comes out. *)
Lemma winners_all_emitted rels i :
  retrieved_shape rels -> dash_free rels ->
  elements_loop center_id tier1_ids i (winners rels)
    (similar_keys (filter kept rels) ∪ ∅) =
  imap (fun n r => emitted (i + n) r) (winners rels).
Proof.
  intros Hshape Hdash.
  assert (Hentry : forall k w r, (k, (w, r)) ∈ links rels [] ->
            r ∈ rels /\ candidate r = Some k).
  { intros k w r H. apply links_entries in H as [H|(H1 & H2 & _)];
      [inversion H|auto]. }
  assert (Hpair : forall k r, r ∈ rels -> candidate r = Some k ->
            rel_type r = "SIMILAR" /\ (k ∉ tier1_ids) /\ k <> center_id /\
            no_dash (rel_source r) = true /\ no_dash (rel_target r) = true /\
            exists y, y ∈ tier1_ids /\ y <> center_id /\
              ((rel_source r = y /\ rel_target r = k)
               \/ (rel_source r = k /\ rel_target r = y))).
  { intros k r Hr Hc.
    destruct (candidate_Some r k Hc) as (Hs & _ & HkT & Hkc & _ & _).
    destruct (oriented_candidate r k Hc (Hshape r Hr Hs)) as (y & _ & Hy & Hyc & He).
    destruct (Hdash r Hr Hs) as [D1 D2]. eauto 10. }
  apply elements_loop_fresh.
  - apply Forall_forall. intros r Hr.
    apply winners_candidate in Hr as [_ [k Hk]].
    now destruct (candidate_Some r k Hk).
  - unfold winners. rewrite map_map.
    apply (NoDup_fmap_via _ fst); [|apply (links_NoDup rels []); constructor].
    intros [k1 [w1 r1]] [k2 [w2 r2]] H1 H2. cbn [fst snd]. intros E.
    destruct (Hentry _ _ _ H1) as [Hr1 Hc1]. destruct (Hentry _ _ _ H2) as [Hr2 Hc2].
    destruct (Hpair _ _ Hr1 Hc1) as (_ & HT1 & _ & Da1 & Db1 & y1 & Hy1 & _ & He1).
    destruct (Hpair _ _ Hr2 Hc2) as (_ & HT2 & _ & Da2 & Db2 & y2 & Hy2 & _ & He2).
    unfold key_of in E.
    apply edge_key_inj in E; try assumption.
    destruct He1 as [[A1 B1]|[A1 B1]], He2 as [[A2 B2]|[A2 B2]];
      destruct E as [[E1 E2]|[E1 E2]]; congruence.
  - intros r Hr. apply winners_candidate in Hr as [Hr [k Hk]].
    destruct (Hpair _ _ Hr Hk) as (_ & HT & Hkc & Da & Db & y & Hy & Hyc & He).
    rewrite elem_of_union. intros [Hin|Hin]; [|revert Hin; apply not_elem_of_empty].
    unfold similar_keys in Hin. apply elem_of_list_to_set in Hin.
    apply list_elem_of_fmap in Hin as (r' & E & Hr').
    apply list_elem_of_filter in Hr' as [Hs' Hr'].
    apply list_elem_of_filter in Hr' as [Hk' Hr'].
    destruct (Hdash r' Hr' Hs') as [Da' Db'].
    assert (Hc' : touches_center r').
    { destruct Hk' as [Hd|[_ Hc']]; [|exact Hc']. rewrite Hd in Hs'. discriminate. }
    unfold key_of in E. apply edge_key_inj in E; try assumption.
    unfold touches_center in Hc'.
    destruct He as [[A1 B1]|[A1 B1]], Hc' as [C|C], E as [[E1 E2]|[E1 E2]];
      congruence.
Qed.

(** *** The edges at a tier-2 node *)

Lemma kept_not_at rels w i added :
  tier1_complete rels -> w ∉ tier1_ids -> w <> center_id ->
  filter (similar_edge_at w)
    (elements_loop center_id tier1_ids i (filter kept rels) added) = [].
Proof.
  intros Hcomp HwT Hwc. apply filter_none. intros e He.
  apply elements_loop_provenance in He as (j & r & Hr & ->).
  apply list_elem_of_filter in Hr as [Hk Hr].
  unfold emitted. destruct Hk as [Hd|[Hs Hc]].
  - rewrite decide_True by assumption. cbn. rewrite Hd. intros [E _]. discriminate.
  - assert (Hd : rel_type r <> "HAS_DOMAIN") by (rewrite Hs; discriminate).
    rewrite decide_False by assumption. rewrite decide_True by assumption.
    rewrite (oriented_center r Hc). cbn.
    destruct (Hcomp r Hr Hs) as [C1 C2].
    intros [_ [E|E]]; [congruence|].
    destruct (decide (rel_target r = center_id)) as [Ht|Ht].
    + destruct (decide (rel_source r = center_id)) as [Hsrc|Hsrc]; [congruence|].
      apply HwT. rewrite <- E. auto.
    + destruct Hc as [Hc|Hc]; [|congruence]. apply HwT. rewrite <- E. auto.
Qed.

Lemma winner_emitted rels k w r j :
  retrieved_shape rels -> (k, (w, r)) ∈ links rels [] ->
  exists y, emitted j r = edge_of j y k r /\ y ∈ tier1_ids /\ y <> center_id
            /\ r ∈ rels /\ candidate r = Some k
            /\ ((rel_source r = y /\ rel_target r = k)
                \/ (rel_source r = k /\ rel_target r = y)).
Proof.
  intros Hshape H.
  apply links_entries in H as [H|(Hr & Hc & _)]; [inversion H|].
  destruct (candidate_Some r k Hc) as (Hs & _).
  destruct (oriented_candidate r k Hc (Hshape r Hr Hs)) as (y & Ho & Hy & Hyc & He).
  exists y. unfold emitted.
  assert (Hd : rel_type r <> "HAS_DOMAIN") by (rewrite Hs; discriminate).
  rewrite decide_False by assumption. rewrite decide_True by assumption.
  rewrite Ho. auto 10.
Qed.

Lemma others_not_at rels w (f : nat -> nat) (part : list (string * (Q * rel))) :
  retrieved_shape rels -> w ∉ tier1_ids ->
  (forall x, x ∈ part -> x ∈ links rels [] /\ fst x <> w) ->
  filter (similar_edge_at w)
    (imap (fun n r => emitted (f n) r) (map (fun x => snd (snd x)) part)) = [].
Proof.
  intros Hshape HwT Hpart. apply filter_none. intros e He.
  apply elem_of_lookup_imap in He as (n & r & -> & Hn).
  change (((fun x : string * (Q * rel) => snd (snd x)) <$> part) !! n = Some r) in Hn.
  apply list_lookup_fmap_Some in Hn as ([k [w0 r0]] & -> & Hn). cbn [snd].
  apply list_elem_of_lookup_2 in Hn. destruct (Hpart _ Hn) as [Hin Hk].
  cbn [fst] in Hk.
  destruct (winner_emitted rels k w0 r0 (f n) Hshape Hin) as (y & -> & Hy & _).
  cbn. intros [_ [E|E]]; congruence.
Qed.

(** The one [SIMILAR] edge at a tier-2 node: it comes from the first of
    the heaviest relationships that compete for the node, and goes from the
    tier-1 end of that relationship to the node. *)
Lemma best_match_output rels w :
  retrieved_shape rels -> tier1_complete rels -> dash_free rels ->
  cands w rels <> [] ->
  exists l1 r l2 i y,
    cands w rels = l1 ++ r :: l2
    /\ Forall (fun x => (weight_of x < weight_of r)%Q) l1
    /\ Forall (fun x => (weight_of x <= weight_of r)%Q) l2
    /\ y ∈ tier1_ids
    /\ ((rel_source r = y /\ rel_target r = w)
        \/ (rel_source r = w /\ rel_target r = y))
    /\ filter (similar_edge_at w)
         (elements_loop center_id tier1_ids 0
            (final_edges_of center_id tier1_ids rels) ∅)
       = [edge_of i y w r].
Proof.
  intros Hshape Hcomp Hdash Hne.
  pose proof (links_get w rels []) as Hget. cbn [PyDict.get] in Hget.
  pose proof (first_max_spec (cands w rels)) as Hmax.
  destruct (first_max None (cands w rels)) as [[wr r]|]; [|contradiction].
  destruct Hmax as (Hwr & l1 & l2 & Hsplit & H1 & H2).
  apply PyDict.get_Some_elem in Hget.
  pose proof (links_NoDup rels [] (NoDup_nil_2 (A := string))) as Hnd.
  apply list_elem_of_split in Hget as (D1 & D2 & HD).
  destruct (winner_emitted rels w wr r (length (filter kept rels) + length D1)
              Hshape) as (y & Hem & Hy & Hyc & Hr & Hc & He).
  { rewrite HD, elem_of_app, elem_of_cons. auto. }
  destruct (candidate_Some r w Hc) as (_ & _ & HwT & Hwc & _).
  exists l1, r, l2, (length (filter kept rels) + length D1)%nat, y.
  repeat (split; [assumption|]).
  rewrite final_edges_of_spec, elements_loop_app, filter_app.
  rewrite (kept_not_at rels w 0 ∅ Hcomp HwT Hwc). cbn [app].
  rewrite (winners_all_emitted rels _ Hshape Hdash).
  unfold winners. rewrite HD in Hnd |- *.
  unfold PyDict.keys in Hnd. rewrite fmap_app, fmap_cons in Hnd. cbn [fst] in Hnd.
  apply NoDup_app in Hnd as (_ & Hd1 & Hnd).
  apply NoDup_cons in Hnd as [Hd2 _].
  rewrite map_app. cbn [map snd].
  rewrite imap_app, imap_cons, filter_app, filter_cons.
  rewrite (others_not_at rels w _ D1 Hshape HwT).
  2:{ intros x Hx. split.
      - rewrite HD, elem_of_app. auto.
      - intros E. apply (Hd1 (fst x)).
        + apply list_elem_of_fmap. eauto.
        + rewrite E. constructor. }
  rewrite length_map, Nat.add_0_l, Nat.add_0_r, Hem.
  rewrite decide_True by (cbn; split; [now destruct (candidate_Some r w Hc)|auto]).
  cbn [app]. f_equal.
  apply (others_not_at rels w (fun n => _) D2 Hshape HwT).
  intros x Hx. split.
  - rewrite HD, elem_of_app, elem_of_cons. auto.
  - intros E. apply Hd2. apply list_elem_of_fmap. eauto.
Qed.

End Reduction.

(** *** The export of a neighbourhood *)

Definition center_id_of (data : neighborhood) : string :=
  uniprot_id (center_protein data).

(** The edge elements of the export. *)
Definition edge_elements (data : neighborhood) : list element :=
  elements_loop (center_id_of data) (tier1_of data) 0
    (final_edges_of (center_id_of data) (tier1_of data) (relationships data)) ∅.

Lemma neighbors_loop_nodes tier1_ids ns : forall existing e,
  e ∈ neighbors_loop tier1_ids ns existing -> exists d, e = Node d.
Proof.
  induction ns as [|n ns IH]; intros existing e; cbn [neighbors_loop].
  - intros H. inversion H.
  - destruct (decide (uniprot_id n ∈ existing)); [apply IH|].
    rewrite elem_of_cons. intros [->|H]; [|eapply IH; exact H].
    unfold protein_element. eauto.
Qed.

Lemma export_elements_split data :
  exists nodes,
    export_elements data = nodes ++ edge_elements data
    /\ forall e, e ∈ nodes -> exists d, e = Node d.
Proof.
  exists (protein_element "center" (center_protein data)
          :: neighbors_loop (tier1_of data) (neighbors data) {[center_id_of data]}
          ++ map domain_element (nb_domains data)).
  split.
  - unfold export_elements, edge_elements, tier1_of, center_id_of.
    cbn [app]. now rewrite <- app_assoc.
  - intros e. rewrite elem_of_cons, elem_of_app.
    intros [->|[H|H]].
    + unfold protein_element. eauto.
    + eapply neighbors_loop_nodes. exact H.
    + apply list_elem_of_fmap in H as (d & -> & _). unfold domain_element. eauto.
Qed.

Lemma export_edge data d :
  Edge d ∈ export_elements data <-> Edge d ∈ edge_elements data.
Proof.
  destruct (export_elements_split data) as (nodes & -> & Hn).
  rewrite elem_of_app. split; [|auto].
  intros [H|H]; [|exact H]. destruct (Hn _ H) as [d' E]. discriminate.
Qed.

Lemma export_filter_at data w :
  filter (similar_edge_at w) (export_elements data)
  = filter (similar_edge_at w) (edge_elements data).
Proof.
  destruct (export_elements_split data) as (nodes & -> & Hn).
  rewrite filter_app, filter_none; [reflexivity|].
  intros e He. destruct (Hn e He) as [d ->]. cbn. tauto.
Qed.

Lemma tier1_of_complete data :
  tier1_complete (center_id_of data) (tier1_of data) (relationships data).
Proof.
  intros r Hr Hs. split.
  - intros Hc. apply tier1_of_spec. exists r. auto.
  - intros Ht Hn. apply tier1_of_spec. exists r. auto 6.
Qed.

(** A [SIMILAR] relationship between the node [w] and a tier-1 node. *)
Definition links_to (tier1_ids : gset string) (w : string) (r : rel) : Prop :=
  rel_type r = "SIMILAR"
  /\ ((rel_source r ∈ tier1_ids /\ rel_target r = w)
      \/ (rel_source r = w /\ rel_target r ∈ tier1_ids)).

#[global] Instance links_to_dec tier1_ids w r : Decision (links_to tier1_ids w r).
Proof. unfold links_to. apply _. Defined.

(** The relationships that connect a tier-2 node to tier 1, in the order
    of the neighbourhood. *)
Definition competitors (data : neighborhood) (w : string) : list rel :=
  filter (links_to (tier1_of data) w) (relationships data).

(** For a node outside tier 1 these are the relationships that step 3
    lets compete for it. *)
Lemma candidate_iff_links_to data w r :
  retrieved_shape (center_id_of data) (tier1_of data) (relationships data) ->
  w ∉ tier1_of data -> w <> center_id_of data -> w <> EmptyString ->
  r ∈ relationships data ->
  candidate (center_id_of data) (tier1_of data) r = Some w
  <-> links_to (tier1_of data) w r.
Proof.
  intros Hshape HwT Hwc Hwe Hr. split.
  - intros Hc. destruct (candidate_Some _ _ r w Hc) as (Hs & _).
    destruct (oriented_candidate _ _ r w Hc (Hshape r Hr Hs))
      as (y & _ & Hy & _ & He).
    split; [exact Hs|]. destruct He as [[<- E]|[E <-]]; auto.
  - intros [Hs He].
    assert (Hy : forall y, y ∈ tier1_of data ->
              (rel_source r = y /\ rel_target r = w)
              \/ (rel_source r = w /\ rel_target r = y) ->
              y <> center_id_of data).
    { intros y Hy Hends E. subst y.
      destruct (tier1_of_complete data r Hr Hs) as [C1 C2].
      apply HwT. destruct Hends as [[E1 E2]|[E1 E2]].
      - rewrite <- E2. auto.
      - rewrite <- E1. apply C2; congruence. }
    destruct He as [[Hsrc Ht]|[Hsrc Ht]].
    + apply (candidate_of_link _ _ r (rel_source r) w); auto.
    + apply (candidate_of_link _ _ r (rel_target r) w); auto.
Qed.

Lemma cands_competitors data w :
  retrieved_shape (center_id_of data) (tier1_of data) (relationships data) ->
  w ∉ tier1_of data -> w <> center_id_of data -> w <> EmptyString ->
  cands (center_id_of data) (tier1_of data) w (relationships data)
  = competitors data w.
Proof.
  intros Hshape HwT Hwc Hwe. unfold cands, competitors.
  apply filter_ext_elem. intros r Hr.
  now apply candidate_iff_links_to.
Qed.

(** The reduction at a tier-2 node [w]: the competitors split around the
    winner [r], all before it strictly lighter, none after it heavier, and
    the one [SIMILAR] edge of the export at [w] is the edge of [r], drawn
    from its tier-1 end [y]. *)
Lemma best_match_export data w :
  retrieved_shape (center_id_of data) (tier1_of data) (relationships data) ->
  dash_free (relationships data) ->
  w ∉ tier1_of data -> w <> center_id_of data -> w <> EmptyString ->
  competitors data w <> [] ->
  exists l1 r l2 (i : nat) y,
    competitors data w = l1 ++ r :: l2
    /\ Forall (fun x => (weight_of x < weight_of r)%Q) l1
    /\ Forall (fun x => (weight_of x <= weight_of r)%Q) l2
    /\ y ∈ tier1_of data
    /\ ((rel_source r = y /\ rel_target r = w)
        \/ (rel_source r = w /\ rel_target r = y))
    /\ filter (similar_edge_at w) (export_elements data)
       = [Edge {| edge_id := "e_" +:+ pretty i;
                  edge_source := y; edge_target := w;
                  edge_type := "SIMILAR";
                  edge_weight := option_map round2 (rel_jaccard_weight r) |}].
Proof.
  intros Hshape Hdash HwT Hwc Hwe Hne.
  rewrite <- (cands_competitors data w Hshape HwT Hwc Hwe) in Hne |- *.
  destruct (best_match_output _ _ _ w Hshape (tier1_of_complete data) Hdash Hne)
    as (l1 & r & l2 & i & y & Hsplit & H1 & H2 & Hy & He & Hout).
  exists l1, r, l2, i, y. repeat (split; [assumption|]).
  rewrite export_filter_at. unfold edge_elements. rewrite Hout.
  unfold edge_of. do 2 f_equal.
  assert (Hr : r ∈ cands (center_id_of data) (tier1_of data) w (relationships data)).
  { rewrite Hsplit, elem_of_app, elem_of_cons. auto. }
  apply list_elem_of_filter in Hr as [Hc _].
  destruct (candidate_Some _ _ r w Hc) as (-> & _). reflexivity.
Qed.

(** *** What the queries return *)

Lemma find_protein_id d id p : find_protein d id = Some p -> uniprot_id p = id.
Proof.
  unfold find_protein. intros H. apply List.find_some in H as [_ H].
  now apply String.eqb_eq.
Qed.

Lemma distinct_from_elem {A} (same : A -> A -> bool) l : forall seen x,
  x ∈ distinct_from same seen l -> x ∈ l.
Proof.
  induction l as [|y l IH]; intros seen x; cbn [distinct_from].
  - intros H. inversion H.
  - destruct (existsb (same y) seen).
    + intros H. constructor. eapply IH. exact H.
    + rewrite !elem_of_cons. intros [->|H]; [auto|]. right. eapply IH. exact H.
Qed.

Lemma center_domain_rels_type d id r :
  r ∈ center_domain_rels d id -> rel_type r = "HAS_DOMAIN".
Proof.
  unfold center_domain_rels, distinct. intros H.
  apply distinct_from_elem in H.
  apply list_elem_of_omap in H as (e & _ & H).
  destruct (decide (fst e = id)); [|discriminate].
  destruct (find_domain d (snd e)); [|discriminate].
  injection H as <-. reflexivity.
Qed.

Lemma incident_iff id r : incident id r = true <-> source r = id \/ target r = id.
Proof.
  unfold incident. rewrite orb_true_iff, !bool_decide_eq_true. reflexivity.
Qed.

(** The neighbourhoods the two queries return have the shape the
    reduction relies on. *)
Lemma query_shape m id depth data :
  get_protein_neighborhood m id depth = Some data ->
  retrieved_shape (center_id_of data) (tier1_of data) (relationships data).
Proof.
  unfold get_protein_neighborhood.
  destruct (driver m) as [d|]; [|discriminate].
  destruct (decide (depth = 1)) as [Hd|Hd].
  - unfold query_depth1. destruct (find_protein d id) as [p|] eqn:Hp; [|discriminate].
    intros [= <-] r Hr Hs. left.
    unfold center_id_of, touches_center. cbn in *.
    rewrite (find_protein_id _ _ _ Hp).
    apply elem_of_app in Hr as [Hr|Hr].
    + apply distinct_from_elem in Hr.
      apply list_elem_of_fmap in Hr as (r0 & -> & Hr0).
      apply list_elem_of_In, List.filter_In in Hr0 as [_ Hi].
      apply incident_iff in Hi. exact Hi.
    + apply center_domain_rels_type in Hr. rewrite Hr in Hs. discriminate.
  - unfold query_depth2. destruct (find_protein d id) as [p|] eqn:Hp; [|discriminate].
    intros [= <-] r Hr Hs.
    pose proof (find_protein_id _ _ _ Hp) as Hid.
    unfold center_id_of, touches_center.
    cbn [center_protein relationships] in *. rewrite Hid.
    apply elem_of_app in Hr as [Hr|Hr].
    2:{ apply center_domain_rels_type in Hr. rewrite Hr in Hs. discriminate. }
    apply list_elem_of_fmap in Hr as (r0 & -> & Hr0).
    apply list_elem_of_In, List.filter_In in Hr0 as [Hr0 Hon].
    unfold on_paths in Hon. apply orb_true_iff in Hon as [Hi|Hex].
    + left. apply incident_iff in Hi. exact Hi.
    + right. apply existsb_exists in Hex as (n & Hn & Hi).
      apply incident_iff in Hi. unfold one_hop in Hn.
      apply List.in_map_iff in Hn as (r1 & <- & Hr1).
      apply List.filter_In in Hr1 as [Hr1 Hi1].
      match goal with |- context [tier1_of ?D] =>
        assert (Ht : other_end id r1 ∈ tier1_of D)
      end.
      2:{ cbn [similar_projection rel_source rel_target].
          destruct Hi as [-> | ->]; [left|right]; exact Ht. }
      apply tier1_of_spec. cbn [center_protein relationships]. rewrite Hid.
      exists (similar_projection r1). split; [|split; [reflexivity|]].
      * apply elem_of_app. left. apply list_elem_of_fmap. exists r1.
        split; [reflexivity|]. apply list_elem_of_In, List.filter_In.
        split; [exact Hr1|]. unfold on_paths. now rewrite Hi1.
      * unfold other_end. cbn [similar_projection rel_source rel_target].
        apply incident_iff in Hi1.
        destruct (decide (source r1 = id)) as [E|E]; [auto|].
        destruct Hi1 as [?|?]; [congruence|auto].
Qed.

(** There is one way to split a list around the first of its heaviest
    elements. *)
Lemma first_heaviest_unique (l1 : list rel) : forall r l2 l1' r' l2',
  l1 ++ r :: l2 = l1' ++ r' :: l2' ->
  Forall (fun x => (weight_of x < weight_of r)%Q) l1 ->
  Forall (fun x => (weight_of x <= weight_of r)%Q) l2 ->
  Forall (fun x => (weight_of x < weight_of r')%Q) l1' ->
  Forall (fun x => (weight_of x <= weight_of r')%Q) l2' ->
  l1 = l1' /\ r = r' /\ l2 = l2'.
Proof.
  induction l1 as [|x l1 IH]; intros r l2 [|x' l1'] r' l2' E H1 H2 H1' H2'.
  - injection E as -> ->. auto.
  - injection E as -> ->. exfalso.
    apply Forall_cons in H1' as [Hlt _].
    rewrite Forall_app, Forall_cons in H2. destruct H2 as (_ & Hle & _).
    apply (Qlt_not_le _ _ Hlt Hle).
  - injection E as -> <-. exfalso.
    apply Forall_cons in H1 as [Hlt _].
    rewrite Forall_app, Forall_cons in H2'. destruct H2' as (_ & Hle & _).
    apply (Qlt_not_le _ _ Hlt Hle).
  - injection E as -> E.
    apply Forall_cons in H1 as [_ H1]. apply Forall_cons in H1' as [_ H1'].
    destruct (IH _ _ _ _ _ E H1 H2 H1' H2') as (-> & -> & ->). auto.
Qed.

(** The reduction itself, before the elements are made: of the
    relationships that connect [w] to tier 1, step 3 hands exactly one to
    step 4, the first of the heaviest. *)
Lemma best_match_reduction data w :
  retrieved_shape (center_id_of data) (tier1_of data) (relationships data) ->
  w ∉ tier1_of data -> w <> center_id_of data -> w <> EmptyString ->
  competitors data w <> [] ->
  exists l1 r l2,
    competitors data w = l1 ++ r :: l2
    /\ Forall (fun x => (weight_of x < weight_of r)%Q) l1
    /\ Forall (fun x => (weight_of x <= weight_of r)%Q) l2
    /\ filter (links_to (tier1_of data) w)
         (final_edges_of (center_id_of data) (tier1_of data) (relationships data))
       = [r].
Proof.
  intros Hshape HwT Hwc Hwe Hne.
  pose proof (cands_competitors data w Hshape HwT Hwc Hwe) as Hcc.
  rewrite <- Hcc in Hne.
  set (c := center_id_of data) in *. set (t := tier1_of data) in *.
  set (rels := relationships data) in *.
  pose proof (links_get c t w rels []) as Hget. cbn [PyDict.get] in Hget.
  pose proof (first_max_spec (cands c t w rels)) as Hmax.
  destruct (first_max None (cands c t w rels)) as [[wr r]|]; [|contradiction].
  destruct Hmax as (Hwr & l1 & l2 & Hsplit & H1 & H2).
  apply PyDict.get_Some_elem in Hget.
  pose proof (links_NoDup c t rels [] (NoDup_nil_2 (A := string))) as Hnd.
  pose proof Hget as Hin.
  apply list_elem_of_split in Hget as (D1 & D2 & HD).
  exists l1, r, l2. rewrite <- Hcc. repeat (split; [assumption|]).
  assert (Hother : forall part,
            (forall x, x ∈ part -> x ∈ links c t rels [] /\ fst x <> w) ->
            filter (links_to t w) (map (fun x => snd (snd x)) part) = []).
  { intros part Hpart. apply filter_none. intros r' Hr'.
    apply list_elem_of_fmap in Hr' as ([k [w0 r0]] & -> & Hx). cbn [snd].
    destruct (Hpart _ Hx) as [Hl Hk]. cbn [fst] in Hk.
    destruct (winner_emitted c t rels k w0 r0 0%nat Hshape Hl)
      as (y & _ & Hy & _ & _ & Hc & He).
    destruct (candidate_Some c t r0 k Hc) as (_ & _ & HkT & _).
    intros [_ Hl'].
    destruct He as [[E1 E2]|[E1 E2]], Hl' as [[F1 F2]|[F1 F2]];
      try congruence; subst; contradiction. }
  rewrite final_edges_of_spec, filter_app.
  rewrite (filter_none (links_to t w) (filter (kept c) rels)).
  2:{ intros r' Hr' [Hs Hl]. apply list_elem_of_filter in Hr' as [Hk Hr'].
      destruct (tier1_of_complete data r' Hr' Hs) as [C1 C2].
      fold c t in C1, C2.
      destruct Hk as [Hd|[_ Hc]]; [rewrite Hd in Hs; discriminate|].
      unfold touches_center in Hc.
      destruct Hl as [[F1 F2]|[F1 F2]], Hc as [Hc|Hc].
      - apply HwT. rewrite <- F2. auto.
      - congruence.
      - congruence.
      - apply HwT. rewrite <- F1. apply C2; congruence. }
  cbn [app]. unfold winners. rewrite HD in Hnd |- *.
  unfold PyDict.keys in Hnd. rewrite fmap_app, fmap_cons in Hnd. cbn [fst] in Hnd.
  apply NoDup_app in Hnd as (_ & Hd1 & Hnd).
  apply NoDup_cons in Hnd as [Hd2 _].
  rewrite map_app. cbn [map snd]. rewrite filter_app, filter_cons.
  rewrite (Hother D1).
  2:{ intros x Hx. split.
      - rewrite HD, elem_of_app. auto.
      - intros E. apply (Hd1 (fst x)).
        + apply list_elem_of_fmap. eauto.
        + rewrite E. constructor. }
  rewrite (Hother D2).
  2:{ intros x Hx. split.
      - rewrite HD, elem_of_app, elem_of_cons. auto.
      - intros E. apply Hd2. apply list_elem_of_fmap. eauto. }
  assert (Hr : r ∈ cands c t w rels).
  { rewrite Hsplit, elem_of_app, elem_of_cons. auto. }
  rewrite Hcc in Hr. apply list_elem_of_filter in Hr as [Hl _].
  now rewrite decide_True.
Qed.

(** The two conditions on a neighbourhood can be checked. *)
#[global] Instance retrieved_shape_dec c t rels : Decision (retrieved_shape c t rels).
Proof.
  refine (cast_if (decide (Forall (fun r => rel_type r = "SIMILAR" ->
            touches_center c r \/ rel_source r ∈ t \/ rel_target r ∈ t) rels)));
    unfold retrieved_shape; rewrite Forall_forall in *; auto.
Defined.

#[global] Instance dash_free_dec rels : Decision (dash_free rels).
Proof.
  refine (cast_if (decide (Forall (fun r => rel_type r = "SIMILAR" ->
            no_dash (rel_source r) = true /\ no_dash (rel_target r) = true) rels)));
    unfold dash_free; rewrite Forall_forall in *; auto.
Defined.

(** *** Examples *)

Definition example_protein (id : string) : protein_node :=
  {| uniprot_id := id; entry_name := PyNone; organism := PyNone;
     p_length := PyNone; ec_numbers := []; is_labelled := false;
     protein_names := None; domain_count := None |}.

Definition example_similar (a b : string) (w : Q) : similar_rel :=
  {| source := a; target := b; jaccard_weight := Some w;
     shared_domains := None; union_domains := None |}.

Definition example_manager (rels : list similar_rel) : manager :=
  {| driver := Some
       {| proteins := map example_protein ["X"; "Y"; "Z"; "W"; "V"];
          domains := [{| interpro_id := "IPR1"; name := None |}];
          has_domain := [("X", "IPR1")];
          similar := rels; catalog := []; schema := [] |} |}.

(** The centre [X] with [Y] (0.5) and [Z] (0.2), the lateral [Y]-[Z], and
    the tier-2 node [W], reachable through [Y] (0.4) and [Z] (0.6). *)
Definition example_rels : list similar_rel :=
  [ example_similar "X" "Y" (1 # 2); example_similar "X" "Z" (1 # 5);
    example_similar "Y" "Z" (3 # 10);
    example_similar "Y" "W" (2 # 5); example_similar "Z" "W" (3 # 5) ].

(** The same with a tie at [W]: [Z] first, then [Y]; and [Y] first. *)
Definition tie_rels_z_first : list similar_rel :=
  [ example_similar "X" "Y" (1 # 2); example_similar "X" "Z" (1 # 5);
    example_similar "Z" "W" (1 # 2); example_similar "Y" "W" (1 # 2) ].


(** The neighbourhood of [X] at depth 2 in the first example. *)
Definition example_neighborhood : neighborhood :=
  {| center_protein := example_protein "X";
     neighbors := map example_protein ["Y"; "Z"; "W"];
     relationships :=
       map similar_projection example_rels ++ [domain_projection "X" "IPR1"];
     nb_domains := [{| interpro_id := "IPR1"; name := None |}];
     depth := 2 |}.

Lemma example_neighborhood_retrieved :
  get_protein_neighborhood (example_manager example_rels) "X" 2
  = Some example_neighborhood.
Proof. vm_compute. reflexivity. Qed.

(** *** Properties *)

(** In a neighbourhood of the shape the depth-2 query returns, take a
    node [w] outside tier 1 (not the centre, not the empty identifier)
    that has relationships to tier-1 nodes. Of these relationships step 3
    keeps exactly one, and none of them has a greater [jaccard_weight]
    than the one kept, a missing weight counting as 0. When no identifier
    has a dash (so that the keys of step 4 tell the pairs apart), the
    export has exactly one [SIMILAR] edge with [w] at an end: the edge of
    the relationship kept, pointing to [w] from its tier-1 end. *)
Theorem tier2_node_gets_its_best_edge (data : neighborhood) (w : string) :
  retrieved_shape (center_id_of data) (tier1_of data) (relationships data) ->
  w ∉ tier1_of data -> w <> center_id_of data -> w <> EmptyString ->
  competitors data w <> [] ->
  exists r,
    r ∈ relationships data
    /\ links_to (tier1_of data) w r
    /\ (forall r', r' ∈ relationships data -> links_to (tier1_of data) w r' ->
          (default 0 (rel_jaccard_weight r') <= default 0 (rel_jaccard_weight r))%Q)
    /\ filter (links_to (tier1_of data) w)
         (final_edges_of (center_id_of data) (tier1_of data) (relationships data))
       = [r]
    /\ (dash_free (relationships data) ->
        exists (i : nat) y,
          y ∈ tier1_of data
          /\ ((rel_source r = y /\ rel_target r = w)
              \/ (rel_source r = w /\ rel_target r = y))
          /\ filter (similar_edge_at w) (export_elements data)
             = [Edge {| edge_id := "e_" +:+ pretty i;
                        edge_source := y; edge_target := w;
                        edge_type := "SIMILAR";
                        edge_weight := option_map round2 (rel_jaccard_weight r) |}]).
Proof.
  intros Hshape HwT Hwc Hwe Hne.
  destruct (best_match_reduction data w Hshape HwT Hwc Hwe Hne)
    as (l1 & r & l2 & Hsplit & H1 & H2 & Hkept).
  assert (Hr : r ∈ competitors data w).
  { rewrite Hsplit, elem_of_app, elem_of_cons. auto. }
  apply list_elem_of_filter in Hr as [Hl Hr].
  exists r. repeat (split; [assumption|]). split; [|split; [exact Hkept|]].
  - intros r' Hr' Hl'.
    assert (Hin : r' ∈ competitors data w) by (apply list_elem_of_filter; auto).
    rewrite Hsplit, elem_of_app, elem_of_cons in Hin.
    rewrite Forall_forall in H1, H2.
    change (weight_of r' <= weight_of r)%Q.
    destruct Hin as [Hin|[->|Hin]].
    + apply Qlt_le_weak. auto.
    + apply Qle_refl.
    + auto.
  - intros Hdash.
    destruct (best_match_export data w Hshape Hdash HwT Hwc Hwe Hne)
      as (l1' & r' & l2' & i & y & Hsplit' & H1' & H2' & Hy & He & Hout).
    rewrite Hsplit in Hsplit'.
    destruct (first_heaviest_unique _ _ _ _ _ _ Hsplit' H1 H2 H1' H2')
      as (_ & <- & _).
    exists i, y. auto.
Qed.

(** On the example: [W], reachable through [Y] (0.4) and [Z] (0.6), keeps
    the relationship of [Z] and has one edge, from [Z], of weight 0.6. *)
Lemma tier2_node_gets_its_best_edge_example :
  exists r,
    r = similar_projection (example_similar "Z" "W" (3 # 5))
    /\ r ∈ relationships example_neighborhood
    /\ (forall r', r' ∈ relationships example_neighborhood ->
          links_to (tier1_of example_neighborhood) "W" r' ->
          (default 0 (rel_jaccard_weight r') <= 3 # 5)%Q)
    /\ filter (similar_edge_at "W") (export_elements example_neighborhood)
       = [Edge {| edge_id := "e_3"; edge_source := "Z"; edge_target := "W";
                  edge_type := "SIMILAR"; edge_weight := Some (3 # 5) |}].
Proof.
  destruct (tier2_node_gets_its_best_edge example_neighborhood "W")
    as (r & Hr & Hl & Hmax & Hkept & Hexp).
  - apply (bool_decide_unpack _). vm_compute. exact I.
  - apply (bool_decide_eq_false_1 _). vm_compute. reflexivity.
  - vm_compute. discriminate.
  - discriminate.
  - vm_compute. discriminate.
  - assert (Er : r = similar_projection (example_similar "Z" "W" (3 # 5))).
    { assert (E : filter (links_to (tier1_of example_neighborhood) "W")
                    (final_edges_of (center_id_of example_neighborhood)
                       (tier1_of example_neighborhood)
                       (relationships example_neighborhood))
                  = [similar_projection (example_similar "Z" "W" (3 # 5))])
        by (vm_compute; reflexivity).
      rewrite E in Hkept. now injection Hkept. }
    exists r. split; [exact Er|]. split; [exact Hr|]. split.
    + intros r' Hr' Hl'. specialize (Hmax r' Hr' Hl'). now rewrite Er in Hmax.
    + vm_compute. reflexivity.
Defined.

(** The neighbourhood of [X] at depth 2 with a tie at [W], the
    relationship of [Z] returned before the one of [Y]. *)
Definition tie_neighborhood : neighborhood :=
  {| center_protein := example_protein "X";
     neighbors := map example_protein ["Y"; "Z"; "W"];
     relationships :=
       map similar_projection tie_rels_z_first ++ [domain_projection "X" "IPR1"];
     nb_domains := [{| interpro_id := "IPR1"; name := None |}];
     depth := 2 |}.

Lemma tie_neighborhood_retrieved :
  get_protein_neighborhood (example_manager tie_rels_z_first) "X" 2
  = Some tie_neighborhood.
Proof. vm_compute. reflexivity. Qed.




(** *** Rounded weights *)

Lemma round_half_even_near (y : Q) :
  (- (1 # 2) <= inject_Z (round_half_even y) - y
   /\ inject_Z (round_half_even y) - y <= 1 # 2)%Q.
Proof.
  unfold round_half_even.
  pose proof (Qfloor_le y) as L. pose proof (Qlt_floor y) as U.
  rewrite inject_Z_plus in U. change (inject_Z 1) with 1%Q in U.
  set (f := Qfloor y) in *.
  destruct (Qcompare_spec (y - inject_Z f) (1 # 2)) as [E|E|E].
  - destruct (Z.even f); [|rewrite inject_Z_plus; change (inject_Z 1) with 1%Q]; lra.
  - lra.
  - rewrite inject_Z_plus. change (inject_Z 1) with 1%Q. lra.
Qed.

Lemma round_half_even_tie (y : Q) :
  (Qabs (y - inject_Z (round_half_even y)) == 1 # 2)%Q ->
  Z.even (round_half_even y) = true.
Proof.
  unfold round_half_even.
  pose proof (Qfloor_le y) as L. pose proof (Qlt_floor y) as U.
  rewrite inject_Z_plus in U. change (inject_Z 1) with 1%Q in U.
  set (f := Qfloor y) in *.
  destruct (Qcompare_spec (y - inject_Z f) (1 # 2)) as [E|E|E].
  - intros _. destruct (Z.even f) eqn:Ef; [exact Ef|].
    change (f + 1)%Z with (Z.succ f). rewrite Z.even_succ, <- Z.negb_even, Ef.
    reflexivity.
  - intros H. exfalso. rewrite Qabs_pos in H by lra. lra.
  - intros H. exfalso. rewrite inject_Z_plus in H.
    change (inject_Z 1) with 1%Q in H. rewrite Qabs_neg in H by lra. lra.
Qed.





(** The floats of some decimals, and what [round(x, 2)] makes of them:
    [0.175] and [2.675] are held a little below the decimal and go down;
    [0.125] and [0.375] are held exactly and go to the even neighbour. *)
Lemma binary64_examples :
  binary64 (7 # 40) = 3152519739159347 # 18014398509481984
  /\ binary64 (3 # 8) = 3 # 8
  /\ binary64 (binary64 (7 # 40)) = binary64 (7 # 40)
  /\ round2 (7 # 40) = 17 # 100
  /\ round2 (2675 # 1000) = 267 # 100
  /\ round2 (1 # 8) = 3 # 25
  /\ round2 (3 # 8) = 19 # 50.
Proof. vm_compute. repeat split; reflexivity. Qed.

Lemma round2_hundredths (x : Q) :
  (round2 x * 100 == inject_Z (round_half_even (binary64 x * 100)))%Q.
Proof. unfold round2. rewrite Qred_correct, Qmake_Qdiv. field. Qed.



(** *** Weights *)

Lemma edge_origin data d :
  Edge d ∈ export_elements data ->
  exists (j : nat) r,
    r ∈ relationships data
    /\ Edge d = emitted (center_id_of data) (tier1_of data) j r
    /\ edge_type d = rel_type r
    /\ edge_weight d = option_map round2 (rel_jaccard_weight r).
Proof.
  intros H. apply export_edge in H. unfold edge_elements in H.
  apply final_elements_origin in H as (j & r & Hr & He & _).
  exists j, r. split; [exact Hr|]. split; [exact He|].
  unfold emitted, edge_of in He.
  repeat case_decide; injection He as ->; auto.
Qed.

(** A relationship with the weight step 3 reads from it written in. *)
Definition with_read_weight (r : rel) : rel :=
  {| rel_source := rel_source r; rel_target := rel_target r;
     rel_type := rel_type r;
     rel_jaccard_weight := Some (weight_of r);
     rel_shared_domains := rel_shared_domains r;
     rel_union_domains := rel_union_domains r |}.

Definition entry_with_read_weight (x : string * (Q * rel)) : string * (Q * rel) :=
  (fst x, (fst (snd x), with_read_weight (snd (snd x)))).

Lemma get_entries k (best : best_links) :
  PyDict.get k (map entry_with_read_weight best)
  = option_map (fun v => (fst v, with_read_weight (snd v))) (PyDict.get k best).
Proof.
  induction best as [|[k' [w r]] best IH]; [reflexivity|].
  cbn [map entry_with_read_weight fst snd PyDict.get].
  destruct (decide (k' = k)); [reflexivity|exact IH].
Qed.

Lemma set_entries k w r (best : best_links) :
  PyDict.set k (w, with_read_weight r) (map entry_with_read_weight best)
  = map entry_with_read_weight (PyDict.set k (w, r) best).
Proof.
  induction best as [|[k' [w' r']] best IH]; [reflexivity|].
  cbn [map entry_with_read_weight fst snd PyDict.set].
  destruct (decide (k' = k)); [reflexivity|].
  cbn [map]. now rewrite IH.
Qed.

Lemma record_link_read_weight k r (best : best_links) :
  record_link k (with_read_weight r) (map entry_with_read_weight best)
  = map entry_with_read_weight (record_link k r best).
Proof.
  unfold record_link. rewrite get_entries.
  change (weight_of (with_read_weight r)) with (weight_of r).
  destruct (PyDict.get k best) as [[w r0]|]; cbn [option_map fst snd].
  - destruct (Qle_bool (weight_of r) w); [reflexivity|apply set_entries].
  - apply set_entries.
Qed.

Lemma edges_loop_read_weight center_id tier1_ids rels : forall final_edges best,
  edges_loop center_id tier1_ids (map with_read_weight rels)
    (map with_read_weight final_edges) (map entry_with_read_weight best)
  = (map with_read_weight
       (fst (edges_loop center_id tier1_ids rels final_edges best)),
     map entry_with_read_weight
       (snd (edges_loop center_id tier1_ids rels final_edges best))).
Proof.
  induction rels as [|r rest IH]; intros fe best; [reflexivity|].
  cbn [map edges_loop].
  change (rel_type (with_read_weight r)) with (rel_type r).
  change (rel_source (with_read_weight r)) with (rel_source r).
  change (rel_target (with_read_weight r)) with (rel_target r).
  change (d2_node center_id tier1_ids (with_read_weight r))
    with (d2_node center_id tier1_ids r).
  assert (Happ : map with_read_weight fe ++ [with_read_weight r]
                 = map with_read_weight (fe ++ [r])) by now rewrite map_app.
  repeat case_decide; rewrite ?Happ; try apply IH.
  destruct (d2_node center_id tier1_ids r) as [k|]; [|apply IH].
  destruct (Py.truthy k); [|apply IH].
  rewrite record_link_read_weight. apply IH.
Qed.

(** The centre [X] with the one neighbour [Y], at weight 0.175. *)
Definition rounding_rels : list similar_rel := [example_similar "X" "Y" (7 # 40)].

Definition rounding_neighborhood : neighborhood :=
  {| center_protein := example_protein "X";
     neighbors := [example_protein "Y"];
     relationships :=
       [ similar_projection (example_similar "X" "Y" (7 # 40));
         domain_projection "X" "IPR1" ];
     nb_domains := [{| interpro_id := "IPR1"; name := None |}];
     depth := 1 |}.

(** Its edge to [Y], as the export has it. *)
Definition rounding_edge : edge_data :=
  {| edge_id := "e_0"; edge_source := "X"; edge_target := "Y";
     edge_type := "SIMILAR"; edge_weight := Some (17 # 100) |}.

Lemma rounding_neighborhood_retrieved :
  get_protein_neighborhood (example_manager rounding_rels) "X" 1
  = Some rounding_neighborhood
  /\ Edge rounding_edge ∈ export_elements rounding_neighborhood.
Proof. split; [vm_compute; reflexivity|]. vm_compute. repeat constructor. Qed.

(** C10. Every edge element of an export is the element step 4 builds
    from a relationship of the neighbourhood and has the type of that
    relationship. When the relationship carries a [jaccard_weight], the
    edge has a weight, and this weight is a number of hundredths [k / 100]
    where [k] is the integer nearest to a hundred times the float weight,
    the even one of the two when both are as near; when the relationship
    carries none, the edge has no weight. In step 3 a relationship
    without [jaccard_weight] is compared as one of weight 0 and one with a
    weight as that weight: a first link is recorded with weight 0, a link
    that is there is replaced exactly when its weight is below 0, and
    writing the weight that is read into every relationship (0 where
    there is none) changes neither the relationships kept nor the links
    that win. *)
Theorem edge_weight_is_rounded_jaccard_weight (data : neighborhood) (d : edge_data) :
  Edge d ∈ export_elements data ->
  (exists (j : nat) r,
     r ∈ relationships data
     /\ Edge d = emitted (center_id_of data) (tier1_of data) j r
     /\ edge_type d = rel_type r
     /\ match rel_jaccard_weight r with
        | Some J =>
            exists (w : Q) (k : Z),
              edge_weight d = Some w
              /\ (w == inject_Z k / 100)%Q
              /\ (Qabs (binary64 J * 100 - inject_Z k) <= 1 # 2)%Q
              /\ ((Qabs (binary64 J * 100 - inject_Z k) == 1 # 2)%Q ->
                  Z.even k = true)
        | None => edge_weight d = None
        end)
  /\ (forall r, rel_jaccard_weight r = None -> weight_of r = 0%Q)
  /\ (forall r w, rel_jaccard_weight r = Some w -> weight_of r = w)
  /\ (forall k r best,
        rel_jaccard_weight r = None -> PyDict.get k best = None ->
        PyDict.get k (record_link k r best) = Some (0%Q, r))
  /\ (forall k r best w r0,
        rel_jaccard_weight r = None -> PyDict.get k best = Some (w, r0) ->
        record_link k r best
        = if Qle_bool 0 w then best else PyDict.set k (0%Q, r) best)
  /\ (forall center_id tier1_ids rels,
        edges_loop center_id tier1_ids (map with_read_weight rels) [] []
        = (map with_read_weight (fst (edges_loop center_id tier1_ids rels [] [])),
           map entry_with_read_weight
             (snd (edges_loop center_id tier1_ids rels [] [])))).
Proof.
  intros Hd. split; [|split; [|split; [|split; [|split]]]].
  - destruct (edge_origin data d Hd) as (j & r & Hr & He & Hty & Hw).
    exists j, r. split; [exact Hr|]. split; [exact He|]. split; [exact Hty|].
    destruct (rel_jaccard_weight r) as [J|]; [|exact Hw].
    exists (round2 J), (round_half_even (binary64 J * 100)).
    split; [exact Hw|].
    pose proof (round2_hundredths J) as E.
    pose proof (round_half_even_near (binary64 J * 100)) as [L U].
    split; [|split].
    + apply Qmult_inj_r with (z := 100%Q); [discriminate|]. rewrite E. field.
    + apply Qabs_Qle_condition. split; lra.
    + apply round_half_even_tie.
  - intros r H. unfold weight_of. now rewrite H.
  - intros r w H. unfold weight_of. now rewrite H.
  - intros k r best Hw Hg. unfold record_link, weight_of. rewrite Hg, Hw.
    apply PyDict.get_set_same.
  - intros k r best w r0 Hw Hg. unfold record_link, weight_of.
    now rewrite Hg, Hw.
  - intros c t rels. apply (edges_loop_read_weight c t rels [] []).
Qed.

(** C10 on an example: the edge to [Y], whose relationship has the weight
    0.175, a float a little below the decimal, shows 0.17. *)
Lemma edge_weight_is_rounded_jaccard_weight_example :
  exists (j : nat) r (k : Z),
    r ∈ relationships rounding_neighborhood
    /\ Edge rounding_edge
       = emitted (center_id_of rounding_neighborhood)
           (tier1_of rounding_neighborhood) j r
    /\ rel_jaccard_weight r = Some (7 # 40)
    /\ edge_weight rounding_edge = Some (17 # 100)
    /\ k = 17%Z
    /\ (Qabs (binary64 (7 # 40) * 100 - inject_Z k) <= 1 # 2)%Q.
Proof.
  destruct (edge_weight_is_rounded_jaccard_weight rounding_neighborhood rounding_edge
              (proj2 rounding_neighborhood_retrieved))
    as [(j & r & Hr & He & Hty & Hw) _].
  cbn [relationships rounding_neighborhood] in Hr.
  apply elem_of_cons in Hr as [->|Hr].
  - change (rel_jaccard_weight (similar_projection (example_similar "X" "Y" (7 # 40))))
      with (Some (7 # 40)) in Hw.
    destruct Hw as (w & k & Ew & Ek & Hnear & _).
    injection Ew as <-.
    assert (Hk : k = 17%Z).
    { apply inject_Z_injective.
      transitivity ((17 # 100) * 100)%Q; [rewrite Ek; field|reflexivity]. }
    exists j, (similar_projection (example_similar "X" "Y" (7 # 40))), k.
    split; [constructor|]. split; [exact He|].
    split; [reflexivity|]. split; [reflexivity|]. split; [exact Hk|exact Hnear].
  - apply list_elem_of_singleton in Hr as ->. discriminate Hty.
Defined.

(** *** A centre that is not there, a centre without neighbours *)

Lemma find_protein_None d id :
  (forall p, p ∈ proteins d -> uniprot_id p <> id) -> find_protein d id = None.
Proof.
  unfold find_protein. intros H.
  induction (proteins d) as [|p ps IH]; [reflexivity|]. cbn [List.find].
  destruct (String.eqb_spec (uniprot_id p) id) as [E|E].
  - exfalso. apply (H p); [constructor|exact E].
  - apply IH. intros q Hq. apply H. now constructor.
Qed.

Lemma no_incident d id :
  (forall r, r ∈ similar d -> source r <> id /\ target r <> id) ->
  List.filter (incident id) (similar d) = [].
Proof.
  intros H. induction (similar d) as [|r rs IH]; [reflexivity|].
  cbn [List.filter]. destruct (incident id r) eqn:E.
  - apply incident_iff in E. destruct (H r) as [H1 H2]; [constructor|tauto].
  - apply IH. intros x Hx. apply H. now constructor.
Qed.

Lemma center_domain_rels_source d id r :
  r ∈ center_domain_rels d id -> rel_source r = id.
Proof.
  unfold center_domain_rels, distinct. intros H.
  apply distinct_from_elem in H.
  apply list_elem_of_omap in H as (e & _ & H).
  destruct (decide (fst e = id)); [|discriminate].
  destruct (find_domain d (snd e)); [|discriminate].
  injection H as <-. reflexivity.
Qed.

Lemma tier1_loop_domains center_id rels : forall tier1_ids,
  Forall (fun r => rel_type r = "HAS_DOMAIN") rels ->
  tier1_loop center_id rels tier1_ids = tier1_ids.
Proof.
  induction rels as [|r rels IH]; intros t Hall; [reflexivity|].
  apply Forall_cons in Hall as [Hd Hall]. cbn [tier1_loop].
  rewrite decide_False by (rewrite Hd; discriminate). now apply IH.
Qed.

Lemma edges_loop_domains center_id tier1_ids rels : forall final_edges best,
  Forall (fun r => rel_type r = "HAS_DOMAIN") rels ->
  edges_loop center_id tier1_ids rels final_edges best = (final_edges ++ rels, best).
Proof.
  induction rels as [|r rels IH]; intros fe best Hall; cbn [edges_loop].
  - now rewrite app_nil_r.
  - apply Forall_cons in Hall as [Hd Hall].
    rewrite decide_True by assumption. rewrite IH by assumption.
    now rewrite <- app_assoc.
Qed.

Lemma elements_loop_domains center_id tier1_ids rels : forall i added,
  Forall (fun r => rel_type r = "HAS_DOMAIN") rels ->
  elements_loop center_id tier1_ids i rels added
  = imap (fun n r => edge_of (i + n) (rel_source r) ("dom_" +:+ rel_target r) r) rels.
Proof.
  induction rels as [|r rels IH]; intros i added Hall; [reflexivity|].
  apply Forall_cons in Hall as [Hd Hall]. cbn [elements_loop imap].
  rewrite decide_True by assumption. rewrite Nat.add_0_r. f_equal.
  rewrite IH by assumption. apply imap_ext. intros n x _. cbn. f_equal. lia.
Qed.

(** The export of a neighbourhood without neighbours: the centre, its
    domains, its [HAS_DOMAIN] edges. *)
Lemma export_without_neighbors p doms domain_rels depth :
  Forall (fun r => rel_type r = "HAS_DOMAIN") domain_rels ->
  export_elements {| center_protein := p; neighbors := [];
                     relationships := domain_rels;
                     nb_domains := doms; depth := depth |}
  = protein_element "center" p
    :: map domain_element doms
    ++ imap (fun n r => edge_of n (rel_source r) ("dom_" +:+ rel_target r) r)
         domain_rels.
Proof.
  intros Hall. unfold export_elements, final_edges_of.
  cbn [center_protein neighbors relationships nb_domains neighbors_loop app].
  rewrite edges_loop_domains by assumption. cbn [app PyDict.values map].
  rewrite app_nil_r, elements_loop_domains by assumption. reflexivity.
Qed.

(** C8, as the code has it. With a driver at hand: when no protein has
    the identifier asked for, [get_protein_neighborhood] returns the empty
    dictionary and the export the empty list; when a protein has it and no
    [SIMILAR] relationship is at that protein, [get_protein_neighborhood]
    returns a dictionary with the protein as centre, no neighbour and no
    relationship but the [HAS_DOMAIN] ones of the centre, and the export
    starts with the centre node, followed by the domain nodes and the
    [HAS_DOMAIN] edges, so it is not empty. *)
Theorem not_found_differs_from_no_neighbors (m : manager) (d : graph_db)
    (id : string) (depth : Z) :
  driver m = Some d ->
  ((forall p, p ∈ proteins d -> uniprot_id p <> id) ->
     get_protein_neighborhood m id depth = None
     /\ export_neighborhood_for_visualization m id depth = [])
  /\ (forall p,
        find_protein d id = Some p ->
        (forall r, r ∈ similar d -> source r <> id /\ target r <> id) ->
        get_protein_neighborhood m id depth
        = Some {| center_protein := p; neighbors := [];
                  relationships := center_domain_rels d id;
                  nb_domains := center_domains d id; depth := depth |}
        /\ (forall r, r ∈ center_domain_rels d id -> rel_type r = "HAS_DOMAIN")
        /\ export_neighborhood_for_visualization m id depth
           = protein_element "center" p
             :: map domain_element (center_domains d id)
             ++ imap (fun n r => edge_of n id ("dom_" +:+ rel_target r) r)
                  (center_domain_rels d id)
        /\ get_protein_neighborhood m id depth <> None
        /\ export_neighborhood_for_visualization m id depth <> []).
Proof.
  intros Hm. split.
  - intros Hnone. apply find_protein_None in Hnone.
    unfold export_neighborhood_for_visualization, get_protein_neighborhood.
    rewrite Hm. unfold query_depth1, query_depth2. rewrite Hnone.
    destruct (decide (depth = 1)); auto.
  - intros p Hp Hnone.
    assert (Hget : get_protein_neighborhood m id depth
                   = Some {| center_protein := p; neighbors := [];
                             relationships := center_domain_rels d id;
                             nb_domains := center_domains d id; depth := depth |}).
    { unfold get_protein_neighborhood. rewrite Hm.
      unfold query_depth1, query_depth2, on_paths, one_hop. rewrite Hp.
      pose proof (no_incident d id Hnone) as Hinc.
      destruct (decide (depth = 1)).
      - rewrite Hinc. reflexivity.
      - assert (Hnil : List.filter
                         (fun r => incident id r
                                   || existsb (fun n => incident n r)
                                        (map (other_end id)
                                           (List.filter (incident id) (similar d))))
                         (similar d) = []).
        { rewrite Hinc. cbn [map existsb].
          rewrite <- Hinc. apply List.filter_ext. intros r. apply orb_false_r. }
        rewrite Hnil. cbn [flat_map omap list_omap distinct distinct_from existsb
                            List.filter map app rec_center_protein rec_neighbors
                            rec_relationships rec_domains rec_domain_rels].
        unfold same_protein. rewrite bool_decide_eq_true_2 by reflexivity.
        reflexivity. }
    assert (Htype : forall r, r ∈ center_domain_rels d id -> rel_type r = "HAS_DOMAIN")
      by (intros r; apply center_domain_rels_type).
    assert (Hexp : export_neighborhood_for_visualization m id depth
                   = protein_element "center" p
                     :: map domain_element (center_domains d id)
                     ++ imap (fun n r => edge_of n id ("dom_" +:+ rel_target r) r)
                          (center_domain_rels d id)).
    { unfold export_neighborhood_for_visualization. rewrite Hget.
      rewrite export_without_neighbors by (apply Forall_forall; exact Htype).
      do 2 f_equal. apply imap_ext. intros n r Hr. cbn.
      apply list_elem_of_lookup_2 in Hr.
      now rewrite (center_domain_rels_source d id r Hr). }
    split; [exact Hget|]. split; [exact Htype|]. split; [exact Hexp|].
    split; [rewrite Hget; discriminate|rewrite Hexp; discriminate].
Qed.

(** *** Which [SIMILAR] edges survive *)

Lemma oriented_ends center_id tier1_ids r :
  oriented center_id tier1_ids r = (rel_source r, rel_target r)
  \/ oriented center_id tier1_ids r = (rel_target r, rel_source r).
Proof.
  unfold oriented. repeat case_decide; subst; auto.
Qed.

Lemma similar_edge_origin data d :
  Edge d ∈ export_elements data -> edge_type d = "SIMILAR" ->
  exists r, r ∈ relationships data /\ rel_type r = "SIMILAR"
    /\ (edge_source d, edge_target d)
       = oriented (center_id_of data) (tier1_of data) r
    /\ edge_weight d = option_map round2 (rel_jaccard_weight r)
    /\ (touches_center (center_id_of data) r
        \/ exists k, candidate (center_id_of data) (tier1_of data) r = Some k).
Proof.
  intros H Hs. apply export_edge in H. unfold edge_elements in H.
  apply final_elements_origin in H as (j & r & Hr & He & Hk).
  exists r. split; [exact Hr|].
  assert (Hsr : rel_type r = "SIMILAR").
  { destruct Hk as [[Hd|[Hsr _]]|[k Hk]].
    - exfalso. unfold emitted in He. rewrite decide_True in He by assumption.
      injection He as ->. cbn in Hs. rewrite Hd in Hs. discriminate.
    - exact Hsr.
    - now destruct (candidate_Some _ _ r k Hk). }
  split; [exact Hsr|].
  unfold emitted in He.
  rewrite decide_False in He by (rewrite Hsr; discriminate).
  rewrite decide_True in He by assumption.
  injection He as ->. cbn [edge_source edge_target edge_weight].
  split; [now destruct (oriented _ _ r)|]. split; [reflexivity|].
  destruct Hk as [[Hd|[_ Hc]]|Hk]; [|auto|auto].
  rewrite Hd in Hsr. discriminate.
Qed.

(** No [SIMILAR] edge of the export joins two tier-1 nodes. *)
Lemma no_lateral_edge data d :
  Edge d ∈ export_elements data -> edge_type d = "SIMILAR" ->
  edge_source d = center_id_of data
  \/ edge_source d ∉ tier1_of data \/ edge_target d ∉ tier1_of data.
Proof.
  intros H Hs.
  destruct (similar_edge_origin data d H Hs) as (r & Hr & Hsr & Ho & _ & Hk).
  destruct Hk as [Hc|[k Hk]].
  - left. rewrite (oriented_center _ _ r Hc) in Ho. now injection Ho.
  - right. destruct (candidate_Some _ _ r k Hk) as (_ & _ & HkT & _ & _ & He).
    destruct (oriented_ends (center_id_of data) (tier1_of data) r) as [E|E];
      rewrite E in Ho; injection Ho as -> ->;
      destruct He as [->|[_ ->]]; auto.
Qed.

(** In a neighbourhood of the shape the queries return, a [SIMILAR] edge
    of the export goes from the centre to a tier-1 node, or from a tier-1
    node to a node that is neither in tier 1 nor the centre. *)
Lemma surviving_edges data d :
  retrieved_shape (center_id_of data) (tier1_of data) (relationships data) ->
  Edge d ∈ export_elements data -> edge_type d = "SIMILAR" ->
  (edge_source d = center_id_of data /\ edge_target d ∈ tier1_of data)
  \/ (edge_source d ∈ tier1_of data /\ edge_source d <> center_id_of data
      /\ (edge_target d ∉ tier1_of data) /\ edge_target d <> center_id_of data).
Proof.
  intros Hshape H Hs.
  destruct (similar_edge_origin data d H Hs) as (r & Hr & Hsr & Ho & _ & Hk).
  destruct Hk as [Hc|[k Hk]].
  - left. rewrite (oriented_center _ _ r Hc) in Ho. injection Ho as -> ->.
    split; [reflexivity|]. apply tier1_of_spec. exists r.
    split; [exact Hr|]. split; [exact Hsr|]. fold (center_id_of data).
    destruct (decide (rel_target r = center_id_of data)) as [Ht|Ht].
    + destruct (decide (rel_source r = center_id_of data)) as [Hsrc|Hsrc].
      * left. split; congruence.
      * right. auto.
    + destruct Hc as [Hc|Hc]; [|contradiction]. left. auto.
  - right. destruct (candidate_Some _ _ r k Hk) as (_ & _ & HkT & Hkc & _).
    destruct (oriented_candidate _ _ r k Hk (Hshape r Hr Hsr))
      as (y & Hy & HyT & Hyc & _).
    rewrite Hy in Ho. injection Ho as -> ->. auto.
Qed.

(** *** One edge for each pair *)

Lemma edge_key_sym a b : edge_key a b = edge_key b a.
Proof.
  unfold edge_key, String.ltb. rewrite (String.compare_antisym a b).
  destruct (String.compare b a) eqn:E; cbn; try reflexivity.
  apply String.compare_eq_iff in E. now subst.
Qed.

(** The ends of the [SIMILAR] edges of a list of elements. *)
Definition pair_of (e : element) : option (string * string) :=
  match e with
  | Edge d => if decide (edge_type d = "SIMILAR")
              then Some (edge_source d, edge_target d) else None
  | Node _ => None
  end.

Definition similar_pairs (l : list element) : list (string * string) :=
  omap pair_of l.

Definition pair_key (p : string * string) : string := edge_key (fst p) (snd p).

Lemma pair_key_oriented center_id tier1_ids r :
  pair_key (oriented center_id tier1_ids r) = key_of r.
Proof.
  unfold pair_key, key_of.
  destruct (oriented_ends center_id tier1_ids r) as [-> | ->]; cbn [fst snd];
    [reflexivity|apply edge_key_sym].
Qed.

(** Step 4 draws one edge for each key that is new. *)
Lemma elements_loop_keys center_id tier1_ids l : forall i added,
  NoDup (map pair_key (similar_pairs (elements_loop center_id tier1_ids i l added)))
  /\ forall k,
       k ∈ map pair_key (similar_pairs (elements_loop center_id tier1_ids i l added))
       <-> k ∈ similar_keys l /\ k ∉ added.
Proof.
  induction l as [|r l IH]; intros i added.
  - cbn. split; [constructor|]. intros k. split.
    + intros H. inversion H.
    + intros [H _]. unfold similar_keys in H. cbn in H.
      exfalso. revert H. apply not_elem_of_empty.
  - cbn [elements_loop].
    destruct (decide (rel_type r = "HAS_DOMAIN")) as [Hd|Hd].
    + assert (Hs : rel_type r <> "SIMILAR") by (rewrite Hd; discriminate).
      unfold similar_pairs. cbn [omap list_omap pair_of edge_of edge_type].
      rewrite decide_False by assumption.
      rewrite similar_keys_cons_other by assumption. apply IH.
    + destruct (decide (rel_type r = "SIMILAR")) as [Hs|Hs].
      * rewrite similar_keys_cons_similar by assumption. fold (key_of r).
        destruct (decide (key_of r ∈ added)) as [Hin|Hout].
        -- destruct (IH (S i) added) as [Hnd Hk]. split; [exact Hnd|].
           intros k. rewrite Hk, elem_of_union, elem_of_singleton.
           split; [tauto|]. intros [[->|H1] H2]; tauto.
        -- destruct (IH (S i) ({[key_of r]} ∪ added)) as [Hnd Hk].
           pose proof (pair_key_oriented center_id tier1_ids r) as Hkey.
           destruct (oriented center_id tier1_ids r) as [vs vt].
           unfold similar_pairs in *.
           cbn [omap list_omap pair_of edge_of edge_type edge_source edge_target].
           rewrite decide_True by assumption. cbn [map]. rewrite Hkey.
           split.
           ++ apply NoDup_cons. split; [|exact Hnd].
              intros H. apply Hk in H as [_ H]. apply H.
              apply elem_of_union. left. now apply elem_of_singleton.
           ++ intros k. rewrite elem_of_cons, Hk, !elem_of_union, elem_of_singleton.
              destruct (decide (k = key_of r)) as [->|Hne]; tauto.
      * unfold similar_pairs. cbn [omap list_omap pair_of edge_of edge_type].
        rewrite decide_False by assumption.
        rewrite similar_keys_cons_other by assumption. apply IH.
Qed.

Lemma links_no_candidate center_id tier1_ids rels : forall best,
  (forall r, r ∈ rels -> candidate center_id tier1_ids r = None) ->
  links center_id tier1_ids rels best = best.
Proof.
  unfold links. induction rels as [|r rels IH]; intros best H; [reflexivity|].
  cbn [fold_left]. unfold link_step at 2. rewrite (H r) by constructor.
  apply IH. intros x Hx. apply H. now constructor.
Qed.

Lemma neighbors_loop_fresh tier1_ids ns : forall existing,
  NoDup (map uniprot_id ns) ->
  (forall n, n ∈ ns -> (uniprot_id n ∉ existing) /\ uniprot_id n ∈ tier1_ids) ->
  neighbors_loop tier1_ids ns existing = map (protein_element "neighbor_d1") ns.
Proof.
  induction ns as [|n ns IH]; intros existing Hnd Hall; [reflexivity|].
  cbn [neighbors_loop map] in *. apply NoDup_cons in Hnd as [Hn Hnd].
  destruct (Hall n) as [H1 H2]; [constructor|].
  rewrite decide_False by assumption. rewrite decide_True by assumption.
  f_equal. apply IH; [exact Hnd|]. intros x Hx.
  destruct (Hall x) as [H3 H4]; [now constructor|]. split; [|exact H4].
  rewrite elem_of_union, elem_of_singleton. intros [E|E]; [|contradiction].
  apply Hn. rewrite <- E. apply list_elem_of_fmap. eauto.
Qed.

(** A depth-1 neighbourhood whose centre has exactly the two neighbours
    [y] and [z]: the export has the two neighbour nodes, both in tier 1,
    and its [SIMILAR] edges are one from the centre to [y] and one from the
    centre to [z]. *)
Lemma depth1_two_neighbors data y z :
  (forall r, r ∈ relationships data -> rel_type r = "SIMILAR" ->
     touches_center (center_id_of data) r) ->
  dash_free (relationships data) ->
  y <> z -> y <> center_id_of data -> z <> center_id_of data ->
  (forall x, x ∈ tier1_of data <-> x = y \/ x = z) ->
  map uniprot_id (neighbors data) ≡ₚ [y; z] ->
  export_elements data
    = protein_element "center" (center_protein data)
      :: map (protein_element "neighbor_d1") (neighbors data)
      ++ map domain_element (nb_domains data)
      ++ edge_elements data
  /\ length (neighbors data) = 2%nat
  /\ similar_pairs (edge_elements data)
     ≡ₚ [(center_id_of data, y); (center_id_of data, z)].
Proof.
  intros Hcenter Hdash Hyz Hyc Hzc Htier Hns.
  assert (HcT : center_id_of data ∉ tier1_of data).
  { rewrite Htier. intros [E|E]; congruence. }
  split; [|split].
  - unfold export_elements, edge_elements, center_id_of, tier1_of.
    do 2 f_equal. apply neighbors_loop_fresh.
    + change (NoDup (uniprot_id <$> neighbors data)).
      change (map uniprot_id (neighbors data)) with (uniprot_id <$> neighbors data) in Hns.
      rewrite Hns. apply NoDup_cons. split.
      * rewrite list_elem_of_singleton. exact Hyz.
      * apply NoDup_singleton.
    + intros n Hn.
      assert (Hid : uniprot_id n ∈ [y; z]).
      { rewrite <- Hns. apply list_elem_of_fmap. eauto. }
      rewrite !elem_of_cons in Hid.
      fold (center_id_of data). fold (tier1_of data).
      rewrite elem_of_singleton, Htier.
      destruct Hid as [->|[->|Hid]]; [auto|auto|inversion Hid].
  - change (map uniprot_id (neighbors data)) with (uniprot_id <$> neighbors data) in Hns.
    apply Permutation_length in Hns. rewrite length_fmap in Hns. exact Hns.
  - assert (Hshape : retrieved_shape (center_id_of data) (tier1_of data)
                       (relationships data)).
    { intros r Hr Hs. left. auto. }
    assert (Hpairs : forall q, q ∈ similar_pairs (edge_elements data) ->
              q = (center_id_of data, y) \/ q = (center_id_of data, z)).
    { intros q Hq. unfold similar_pairs in Hq.
      apply list_elem_of_omap in Hq as (e & He & Hq).
      destruct e as [nd|d]; [discriminate|]. cbn [pair_of] in Hq.
      destruct (decide (edge_type d = "SIMILAR")) as [Hs|]; [|discriminate].
      injection Hq as <-.
      assert (Hd : Edge d ∈ export_elements data) by now apply export_edge.
      destruct (surviving_edges data d Hshape Hd Hs) as [[-> Ht]|(Hsrc & _ & _)].
      - apply Htier in Ht as [-> | ->]; auto.
      - exfalso.
        destruct (similar_edge_origin data d Hd Hs) as (r & Hr & Hsr & Ho & _ & _).
        rewrite (oriented_center _ _ r (Hcenter r Hr Hsr)) in Ho.
        injection Ho as Ho _. congruence. }
    destruct (elements_loop_keys (center_id_of data) (tier1_of data)
                (final_edges_of (center_id_of data) (tier1_of data)
                   (relationships data)) 0 ∅) as [Hnd Hkeys].
    fold (edge_elements data) in Hnd, Hkeys.
    assert (Hhas : forall x, x ∈ tier1_of data ->
              (center_id_of data, x) ∈ similar_pairs (edge_elements data)).
    { intros x Hx. pose proof Hx as Hx'.
      apply tier1_of_spec in Hx as (r & Hr & Hs & Hends).
      fold (center_id_of data) in Hends.
      assert (Hk : key_of r ∈ map pair_key (similar_pairs (edge_elements data))).
      { apply Hkeys. split; [|apply not_elem_of_empty].
        unfold similar_keys. apply elem_of_list_to_set.
        apply list_elem_of_fmap. exists r. split; [reflexivity|].
        apply list_elem_of_filter. split; [exact Hs|].
        rewrite final_edges_of_spec, elem_of_app. left.
        apply list_elem_of_filter. split; [|exact Hr].
        right. split; [exact Hs|]. apply Hcenter; assumption. }
      apply list_elem_of_fmap in Hk as (q & Hk & Hq).
      destruct (Hdash r Hr Hs) as [D1 D2].
      assert (Hq' := Hpairs q Hq).
      assert (Hdx : forall v, v ∈ tier1_of data -> no_dash v = true).
      { intros v Hv. apply tier1_of_spec in Hv as (r' & Hr' & Hs' & He').
        destruct (Hdash r' Hr' Hs') as [E1 E2].
        destruct He' as [[_ <-]|(_ & _ & <-)]; assumption. }
      assert (Dc : no_dash (center_id_of data) = true).
      { destruct Hends as [[<- _]|(_ & <- & _)]; assumption. }
      assert (Dy : no_dash y = true) by (apply Hdx, Htier; auto).
      assert (Dz : no_dash z = true) by (apply Hdx, Htier; auto).
      assert (Dxx : no_dash x = true) by now apply Hdx.
      assert (Ekey : key_of r = edge_key (center_id_of data) x).
      { unfold key_of. destruct Hends as [[-> ->]|(_ & -> & ->)];
          [reflexivity|apply edge_key_sym]. }
      rewrite Ekey in Hk. unfold pair_key in Hk.
      destruct Hq' as [-> | ->]; cbn [fst snd] in Hk;
        apply edge_key_inj in Hk; try assumption;
        destruct Hk as [[_ <-]|[E1 E2]]; try exact Hq; congruence. }
    apply NoDup_Permutation.
    + eapply NoDup_fmap_1. exact Hnd.
    + apply NoDup_cons. split; [|apply NoDup_singleton].
      rewrite list_elem_of_singleton. congruence.
    + intros q. rewrite !elem_of_cons. split.
      * intros Hq. destruct (Hpairs q Hq); auto.
      * intros [->|[->|Hq]]; [| |inversion Hq]; apply Hhas, Htier; auto.
Qed.

(** The neighbourhood of [X] at depth 1 in the first example. *)
Definition example_neighborhood_depth1 : neighborhood :=
  {| center_protein := example_protein "X";
     neighbors := map example_protein ["Y"; "Z"];
     relationships :=
       [ similar_projection (example_similar "X" "Y" (1 # 2));
         similar_projection (example_similar "X" "Z" (1 # 5));
         domain_projection "X" "IPR1" ];
     nb_domains := [{| interpro_id := "IPR1"; name := None |}];
     depth := 1 |}.

Lemma example_neighborhood_depth1_retrieved :
  get_protein_neighborhood (example_manager example_rels) "X" 1
  = Some example_neighborhood_depth1.
Proof. vm_compute. reflexivity. Qed.

Lemma example_tier1_depth1 :
  tier1_of example_neighborhood_depth1 = {["Z"]} ∪ ({["Y"]} ∪ ∅).
Proof. vm_compute. reflexivity. Qed.

(** No [SIMILAR] edge of an export joins two tier-1 nodes; in a
    neighbourhood of the shape the queries return, every [SIMILAR] edge of
    the export goes from the centre to a tier-1 node or from a tier-1 node
    to a tier-2 node; and, when no identifier has a dash, the export of a
    depth-1 neighbourhood whose centre has exactly two [SIMILAR]
    neighbours has the two neighbour nodes in tier 1 and, as [SIMILAR]
    edges, one from the centre to each. *)
Theorem lateral_edges_do_not_survive :
  (forall data d,
     Edge d ∈ export_elements data -> edge_type d = "SIMILAR" ->
     edge_source d = center_id_of data
     \/ edge_source d ∉ tier1_of data \/ edge_target d ∉ tier1_of data)
  /\ (forall data d,
        retrieved_shape (center_id_of data) (tier1_of data) (relationships data) ->
        Edge d ∈ export_elements data -> edge_type d = "SIMILAR" ->
        (edge_source d = center_id_of data /\ edge_target d ∈ tier1_of data)
        \/ (edge_source d ∈ tier1_of data /\ edge_source d <> center_id_of data
            /\ (edge_target d ∉ tier1_of data)
            /\ edge_target d <> center_id_of data))
  /\ (forall data y z,
        (forall r, r ∈ relationships data -> rel_type r = "SIMILAR" ->
           touches_center (center_id_of data) r) ->
        dash_free (relationships data) ->
        y <> z -> y <> center_id_of data -> z <> center_id_of data ->
        (forall x, x ∈ tier1_of data <-> x = y \/ x = z) ->
        map uniprot_id (neighbors data) ≡ₚ [y; z] ->
        export_elements data
          = protein_element "center" (center_protein data)
            :: map (protein_element "neighbor_d1") (neighbors data)
            ++ map domain_element (nb_domains data)
            ++ edge_elements data
        /\ length (neighbors data) = 2%nat
        /\ similar_pairs (edge_elements data)
           ≡ₚ [(center_id_of data, y); (center_id_of data, z)]).
Proof.
  split; [exact no_lateral_edge|]. split; [exact surviving_edges|].
  exact depth1_two_neighbors.
Qed.

(** On the example: the depth-1 export for [X], with [Y] (0.5) and
    [Z] (0.2), has the two tier-1 nodes and the two edges from [X]. *)
Lemma lateral_edges_do_not_survive_example :
  export_elements example_neighborhood_depth1
    = protein_element "center" (example_protein "X")
      :: map (protein_element "neighbor_d1") (map example_protein ["Y"; "Z"])
      ++ map domain_element [{| interpro_id := "IPR1"; name := None |}]
      ++ edge_elements example_neighborhood_depth1
  /\ length (map example_protein ["Y"; "Z"]) = 2%nat
  /\ similar_pairs (edge_elements example_neighborhood_depth1)
     ≡ₚ [("X", "Y"); ("X", "Z")].
Proof.
  apply (proj2 (proj2 lateral_edges_do_not_survive)
           example_neighborhood_depth1 "Y" "Z").
  - intros r Hr. cbn [relationships example_neighborhood_depth1] in Hr.
    rewrite !elem_of_cons in Hr.
    destruct Hr as [->|[->|[->|Hr]]]; [| | |inversion Hr].
    + intros _. left. reflexivity.
    + intros _. left. reflexivity.
    + intros H. discriminate H.
  - apply (bool_decide_unpack _). vm_compute. exact I.
  - discriminate.
  - discriminate.
  - discriminate.
  - intros x. rewrite example_tier1_depth1.
    rewrite !elem_of_union, !elem_of_singleton.
    split; [intros [?|[?|H]]; [auto|auto|]|intros [?|?]; auto].
    exfalso. revert H. apply not_elem_of_empty.
  - reflexivity.
Defined.

(** *** Identifiers with a dash *)

(** A graph of proteins without domains. *)
Definition manager_of (ids : list string) (rels : list similar_rel) : manager :=
  {| driver := Some
       {| proteins := map example_protein ids;
          domains := []; has_domain := [];
          similar := rels; catalog := []; schema := [] |} |}.

(** The centre [X] with the neighbours [A-B] and [A], and the tier-2 node
    [B-X], reachable through [A] (0.6) and through [A-B] (0.4). *)
Definition dashed_depth2 : manager :=
  manager_of ["X"; "A-B"; "A"; "B-X"]
    [ example_similar "X" "A-B" (1 # 2); example_similar "X" "A" (1 # 2);
      example_similar "A" "B-X" (3 # 5); example_similar "A-B" "B-X" (2 # 5) ].

(** The centre [A-B-A] with its two neighbours [A-B] and [B-A]. *)
Definition dashed_depth1 : manager :=
  manager_of ["A-B-A"; "A-B"; "B-A"]
    [ example_similar "A-B-A" "A-B" (1 # 2);
      example_similar "A-B-A" "B-A" (1 # 5) ].

(** C4. With identifiers that hold a dash the export can lose the best
    edge. The tier-2 node [B-X] is reachable through the two tier-1 nodes
    [A] and [A-B]; step 3 keeps its heaviest relationship, the one of [A];
    step 4 gives this relationship the key [A-B-X], which the edge from
    the centre to [A-B] already has, and skips it: [B-X] is a node of the
    export and no [SIMILAR] edge of the export ends at it. *)
Theorem dashed_ids_lose_the_best_edge :
  exists data,
    get_protein_neighborhood dashed_depth2 "X" 2 = Some data
    /\ tier1_of data = {["A"]} ∪ ({["A-B"]} ∪ ∅)
    /\ competitors data "B-X"
       = [ similar_projection (example_similar "A" "B-X" (3 # 5));
           similar_projection (example_similar "A-B" "B-X" (2 # 5)) ]
    /\ final_edges_of (center_id_of data) (tier1_of data) (relationships data)
       = [ similar_projection (example_similar "X" "A-B" (1 # 2));
           similar_projection (example_similar "X" "A" (1 # 2));
           similar_projection (example_similar "A" "B-X" (3 # 5)) ]
    /\ edge_key "X" "A-B" = "A-B-X"
    /\ edge_key "A" "B-X" = "A-B-X"
    /\ export_neighborhood_for_visualization dashed_depth2 "X" 2
       = [ protein_element "center" (example_protein "X");
           protein_element "neighbor_d1" (example_protein "A-B");
           protein_element "neighbor_d1" (example_protein "A");
           protein_element "neighbor_d2" (example_protein "B-X");
           Edge {| edge_id := "e_0"; edge_source := "X"; edge_target := "A-B";
                   edge_type := "SIMILAR"; edge_weight := Some (1 # 2) |};
           Edge {| edge_id := "e_1"; edge_source := "X"; edge_target := "A";
                   edge_type := "SIMILAR"; edge_weight := Some (1 # 2) |} ]
    /\ filter (similar_edge_at "B-X")
         (export_neighborhood_for_visualization dashed_depth2 "X" 2)
       = [].
Proof.
  eexists. split; [vm_compute; reflexivity|].
  vm_compute. repeat split; reflexivity.
Qed.

(** C6. With identifiers that hold a dash a depth-1 export can lose an
    edge of the centre. The centre [A-B-A] has exactly the two neighbours
    [A-B] and [B-A], and both are nodes of tier 1 in the export; the keys
    of its two relationships are the same string [A-B-A-B-A], so step 4
    skips the second one: the export has one [SIMILAR] edge from the
    centre, not two. *)
Theorem dashed_ids_lose_a_center_edge :
  exists data,
    get_protein_neighborhood dashed_depth1 "A-B-A" 1 = Some data
    /\ map uniprot_id (neighbors data) = ["A-B"; "B-A"]
    /\ tier1_of data = {["B-A"]} ∪ ({["A-B"]} ∪ ∅)
    /\ map (fun r => (rel_source r, rel_target r, rel_type r)) (relationships data)
       = [("A-B-A", "A-B", "SIMILAR"); ("A-B-A", "B-A", "SIMILAR")]
    /\ edge_key "A-B-A" "A-B" = "A-B-A-B-A"
    /\ edge_key "A-B-A" "B-A" = "A-B-A-B-A"
    /\ export_neighborhood_for_visualization dashed_depth1 "A-B-A" 1
       = [ protein_element "center" (example_protein "A-B-A");
           protein_element "neighbor_d1" (example_protein "A-B");
           protein_element "neighbor_d1" (example_protein "B-A");
           Edge {| edge_id := "e_0"; edge_source := "A-B-A"; edge_target := "A-B";
                   edge_type := "SIMILAR"; edge_weight := Some (1 # 2) |} ]
    /\ similar_pairs (export_neighborhood_for_visualization dashed_depth1 "A-B-A" 1)
       = [("A-B-A", "A-B")].
Proof.
  eexists. split; [vm_compute; reflexivity|].
  vm_compute. repeat split; reflexivity.
Qed.

(** The two exports of the example, as the specification gives them:
    at depth 1 two tier-1 nodes and two edges from the centre; at depth 2
    no edge between [Y] and [Z], and one edge into [W], from [Z]. *)
Lemma example_exports :
  export_neighborhood_for_visualization (example_manager example_rels) "X" 1
  = [ protein_element "center" (example_protein "X");
      protein_element "neighbor_d1" (example_protein "Y");
      protein_element "neighbor_d1" (example_protein "Z");
      domain_element {| interpro_id := "IPR1"; name := None |};
      Edge {| edge_id := "e_0"; edge_source := "X"; edge_target := "Y";
              edge_type := "SIMILAR"; edge_weight := Some (1 # 2) |};
      Edge {| edge_id := "e_1"; edge_source := "X"; edge_target := "Z";
              edge_type := "SIMILAR"; edge_weight := Some (1 # 5) |};
      Edge {| edge_id := "e_2"; edge_source := "X"; edge_target := "dom_IPR1";
              edge_type := "HAS_DOMAIN"; edge_weight := None |} ]
  /\ export_neighborhood_for_visualization (example_manager example_rels) "X" 2
     = [ protein_element "center" (example_protein "X");
         protein_element "neighbor_d1" (example_protein "Y");
         protein_element "neighbor_d1" (example_protein "Z");
         protein_element "neighbor_d2" (example_protein "W");
         domain_element {| interpro_id := "IPR1"; name := None |};
         Edge {| edge_id := "e_0"; edge_source := "X"; edge_target := "Y";
                 edge_type := "SIMILAR"; edge_weight := Some (1 # 2) |};
         Edge {| edge_id := "e_1"; edge_source := "X"; edge_target := "Z";
                 edge_type := "SIMILAR"; edge_weight := Some (1 # 5) |};
         Edge {| edge_id := "e_2"; edge_source := "X"; edge_target := "dom_IPR1";
                 edge_type := "HAS_DOMAIN"; edge_weight := None |};
         Edge {| edge_id := "e_3"; edge_source := "Z"; edge_target := "W";
                 edge_type := "SIMILAR"; edge_weight := Some (3 # 5) |} ].
Proof. vm_compute. split; reflexivity. Qed.

(** C8 on the example: [Q] is not a protein of the graph; [V] is one and
    has no [SIMILAR] relationship. *)
Lemma not_found_differs_from_no_neighbors_example :
  (get_protein_neighborhood (example_manager example_rels) "Q" 2 = None
   /\ export_neighborhood_for_visualization (example_manager example_rels) "Q" 2 = [])
  /\ get_protein_neighborhood (example_manager example_rels) "V" 2
     = Some {| center_protein := example_protein "V"; neighbors := [];
               relationships := []; nb_domains := []; depth := 2 |}
  /\ export_neighborhood_for_visualization (example_manager example_rels) "V" 2
     = [protein_element "center" (example_protein "V")].
Proof.
  split.
  - eapply (proj1 (not_found_differs_from_no_neighbors
                     (example_manager example_rels) _ "Q" 2 eq_refl)).
    intros p Hp. cbn [proteins map] in Hp. rewrite !elem_of_cons in Hp.
    destruct Hp as [->|[->|[->|[->|[->|Hp]]]]]; [discriminate..|inversion Hp].
  - destruct (proj2 (not_found_differs_from_no_neighbors
                       (example_manager example_rels) _ "V" 2 eq_refl)
                (example_protein "V")) as (Hget & _ & Hexp & _).
    + vm_compute. reflexivity.
    + apply Forall_forall. unfold example_manager, example_rels. cbn [similar].
      repeat (apply Forall_cons; split; [split; discriminate|]).
      apply Forall_nil. exact I.
    + split; [exact Hget|exact Hexp].
Defined.

(** C8, as the specification has it, fails in one point: the centre [X]
    is found and has no neighbour, yet the list of relationships and the
    edges of the export are not empty, they hold the [HAS_DOMAIN] edge of
    the centre. *)
Lemma no_neighbors_keeps_domain_edges :
  get_protein_neighborhood (example_manager []) "X" 1
  = Some {| center_protein := example_protein "X"; neighbors := [];
            relationships := [domain_projection "X" "IPR1"];
            nb_domains := [{| interpro_id := "IPR1"; name := None |}];
            depth := 1 |}
  /\ export_neighborhood_for_visualization (example_manager []) "X" 1
     = [ protein_element "center" (example_protein "X");
         domain_element {| interpro_id := "IPR1"; name := None |};
         Edge {| edge_id := "e_0"; edge_source := "X"; edge_target := "dom_IPR1";
                 edge_type := "HAS_DOMAIN"; edge_weight := None |} ].
Proof. vm_compute. split; reflexivity. Qed.



(** *** Identifiers of the elements *)

Definition edge_ids (l : list element) : list string :=
  omap (fun e => match e with Edge d => Some (edge_id d) | Node _ => None end) l.

Definition node_ids (l : list element) : list string :=
  omap (fun e => match e with Node n => Some (node_id n) | Edge _ => None end) l.

(** The identifiers of the nodes that stand for proteins, and of those
    that stand for domains. *)
Definition protein_node_ids (l : list element) : list string :=
  omap (fun e => match e with
                 | Node n => if decide (node_type n = "domain") then None
                             else Some (node_id n)
                 | Edge _ => None
                 end) l.

Definition domain_node_ids (l : list element) : list string :=
  omap (fun e => match e with
                 | Node n => if decide (node_type n = "domain") then Some (node_id n)
                             else None
                 | Edge _ => None
                 end) l.

Lemma elements_loop_edge_ids c T l : forall i added,
  edge_ids (elements_loop c T i l added)
  `sublist_of` map (fun j : nat => "e_" +:+ pretty j) (seq i (length l)).
Proof.
  induction l as [|r l IH]; intros i added; cbn [elements_loop length seq map].
  - constructor.
  - repeat case_decide; try destruct (oriented c T r) as [a b];
      cbn [edge_ids omap list_omap edge_of edge_id];
      first [apply sublist_skip, IH | apply sublist_cons, IH].
Qed.

Lemma elements_loop_edges c T l : forall i added e,
  e ∈ elements_loop c T i l added -> exists d, e = Edge d.
Proof.
  intros i added e H. apply elements_loop_provenance in H as (j & r & _ & ->).
  unfold emitted, edge_of. repeat case_decide; eauto.
Qed.

Lemma omap_none {A B} (f : A -> option B) (l : list A) :
  (forall x, x ∈ l -> f x = None) -> omap f l = [].
Proof.
  induction l as [|x l IH]; intros H; [reflexivity|].
  cbn [omap list_omap]. rewrite (H x) by constructor.
  apply IH. intros y Hy. apply H. now constructor.
Qed.

Lemma edge_id_inj : Inj (=) (=) (fun j : nat => "e_" +:+ pretty j).
Proof.
  intros a b H. cbn in H. injection H as H. now apply (inj pretty).
Qed.

Lemma neighbors_loop_ids T ns : forall existing,
  NoDup (protein_node_ids (neighbors_loop T ns existing))
  /\ (forall x, x ∈ protein_node_ids (neighbors_loop T ns existing) -> x ∉ existing)
  /\ domain_node_ids (neighbors_loop T ns existing) = []
  /\ edge_ids (neighbors_loop T ns existing) = [].
Proof.
  induction ns as [|n ns IH]; intros existing; cbn [neighbors_loop].
  - cbn. repeat split; [apply NoDup_nil_2|]. intros x Hx. inversion Hx.
  - destruct (decide (uniprot_id n ∈ existing)) as [Hin|Hout]; [apply IH|].
    destruct (IH ({[uniprot_id n]} ∪ existing)) as (Hnd & Hfresh & Hdom & Hedge).
    assert (Hp : forall ty, ty <> "domain" ->
              protein_node_ids
                (protein_element ty n
                 :: neighbors_loop T ns ({[uniprot_id n]} ∪ existing))
              = uniprot_id n
                :: protein_node_ids (neighbors_loop T ns ({[uniprot_id n]} ∪ existing))).
    { intros ty Hty. cbn [protein_node_ids omap list_omap protein_element node_type node_id].
      now rewrite decide_False by exact Hty. }
    assert (Hd : forall ty, ty <> "domain" ->
              domain_node_ids
                (protein_element ty n
                 :: neighbors_loop T ns ({[uniprot_id n]} ∪ existing)) = []).
    { intros ty Hty. cbn [domain_node_ids omap list_omap protein_element node_type node_id].
      rewrite decide_False by exact Hty. exact Hdom. }
    assert (Hty : (if decide (uniprot_id n ∈ T) then "neighbor_d1" else "neighbor_d2")
                  <> "domain").
    { destruct (decide (uniprot_id n ∈ T)); discriminate. }
    rewrite (Hp _ Hty), (Hd _ Hty). repeat split.
    + apply NoDup_cons. split; [|exact Hnd].
      intros Hx. apply Hfresh in Hx. apply Hx.
      apply elem_of_union. left. now apply elem_of_singleton.
    + intros x Hx. apply elem_of_cons in Hx as [->|Hx]; [exact Hout|].
      apply Hfresh in Hx. intros Hx'. apply Hx. apply elem_of_union. now right.
    + exact Hedge.
Qed.

Lemma domain_elements_ids (doms : list domain_node) :
  protein_node_ids (map domain_element doms) = []
  /\ domain_node_ids (map domain_element doms)
     = map (fun x => "dom_" +:+ interpro_id x) doms
  /\ edge_ids (map domain_element doms) = [].
Proof.
  induction doms as [|x doms (H1 & H2 & H3)]; [auto|].
  cbn [map protein_node_ids domain_node_ids edge_ids omap list_omap domain_element
       node_type node_id].
  rewrite decide_True by reflexivity.
  repeat split; [exact H1| |exact H3]. f_equal. exact H2.
Qed.

Lemma edges_only_ids (l : list element) :
  (forall e, e ∈ l -> exists d, e = Edge d) ->
  protein_node_ids l = [] /\ domain_node_ids l = [] /\ node_ids l = [].
Proof.
  intros H. repeat split; apply omap_none; intros e He;
    destruct (H e He) as (d & ->); reflexivity.
Qed.

(** The four parts of the list of elements. *)
Lemma export_elements_parts data :
  export_elements data =
  [protein_element "center" (center_protein data)]
  ++ neighbors_loop (tier1_of data) (neighbors data) {[center_id_of data]}
  ++ map domain_element (nb_domains data)
  ++ edge_elements data.
Proof. reflexivity. Qed.

Lemma distinct_from_keys {A} (key : A -> string) (l : list A) : forall seen,
  NoDup (map key (distinct_from (fun a b => bool_decide (key a = key b)) seen l))
  /\ (forall x, x ∈ distinct_from (fun a b => bool_decide (key a = key b)) seen l ->
        key x ∉ map key seen)
  /\ (forall x, x ∈ l ->
        key x ∈ map key seen
        \/ key x ∈ map key (distinct_from (fun a b => bool_decide (key a = key b)) seen l)).
Proof.
  induction l as [|a l IH]; intros seen; cbn [distinct_from].
  - repeat split; [apply NoDup_nil_2| |]; intros x Hx; inversion Hx.
  - assert (Hex : existsb (fun b => bool_decide (key a = key b)) seen = true
                  <-> key a ∈ map key seen).
    { rewrite existsb_exists. split.
      - intros (b & Hb & E). apply bool_decide_eq_true in E. rewrite E.
        apply list_elem_of_fmap. exists b. split; [reflexivity|now apply list_elem_of_In].
      - intros H. apply list_elem_of_fmap in H as (b & E & Hb).
        exists b. split; [now apply list_elem_of_In|now apply bool_decide_eq_true]. }
    destruct (existsb _ seen) eqn:E.
    + destruct (IH seen) as (H1 & H2 & H3). repeat split; auto.
      intros x Hx. apply elem_of_cons in Hx as [->|Hx]; [|auto].
      left. now apply Hex.
    + destruct (IH (a :: seen)) as (H1 & H2 & H3).
      assert (Hout : key a ∉ map key seen).
      { intros H. apply Hex in H. discriminate. }
      repeat split.
      * cbn [map]. apply NoDup_cons. split; [|exact H1].
        intros H. apply list_elem_of_fmap in H as (b & Eb & Hb).
        apply (H2 b Hb). cbn [map]. rewrite <- Eb. constructor.
      * intros x Hx. apply elem_of_cons in Hx as [->|Hx]; [exact Hout|].
        intros H. apply (H2 x Hx). cbn [map]. now constructor.
      * intros x Hx. cbn [map].
        apply elem_of_cons in Hx as [->|Hx]; [right; constructor|].
        destruct (H3 x Hx) as [H|H].
        -- cbn [map] in H. apply elem_of_cons in H as [->|H]; [right; constructor|auto].
        -- right. now constructor.
Qed.

Lemma dom_prefix_inj (a b : string) : "dom_" +:+ a = "dom_" +:+ b -> a = b.
Proof.
  intros H.
  change (String "d" (String "o" (String "m" (String "_" a)))
          = String "d" (String "o" (String "m" (String "_" b)))) in H.
  congruence.
Qed.

Lemma center_domains_NoDup d id : NoDup (map interpro_id (center_domains d id)).
Proof. unfold center_domains, distinct. apply (distinct_from_keys interpro_id). Qed.

Lemma neighborhood_domains m id depth data :
  get_protein_neighborhood m id depth = Some data ->
  exists d p,
    driver m = Some d /\ find_protein d id = Some p
    /\ center_protein data = p
    /\ nb_domains data = center_domains d id
    /\ (relationships data
        = (if decide (depth = 1)
           then distinct same_rel
                  (map similar_projection (List.filter (incident id) (similar d)))
           else map similar_projection (List.filter (on_paths d id) (similar d)))
          ++ center_domain_rels d id).
Proof.
  unfold get_protein_neighborhood, query_depth1, query_depth2.
  destruct (driver m) as [d|]; [|discriminate].
  destruct (find_protein d id) as [p|] eqn:Ep.
  - destruct (decide (depth = 1)); intros [= <-]; exists d, p; auto.
  - destruct (decide (depth = 1)); discriminate.
Qed.

(** No two edge elements of an export share an [id], no two protein
    nodes do, and no two domain nodes do. *)
Theorem export_ids_are_unique (m : manager) (protein_id : string) (depth : Z) :
  NoDup (edge_ids (export_neighborhood_for_visualization m protein_id depth))
  /\ NoDup (protein_node_ids (export_neighborhood_for_visualization m protein_id depth))
  /\ NoDup (domain_node_ids (export_neighborhood_for_visualization m protein_id depth)).
Proof.
  unfold export_neighborhood_for_visualization.
  destruct (get_protein_neighborhood m protein_id depth) as [data|] eqn:E;
    [|cbn; repeat split; apply NoDup_nil_2].
  destruct (neighborhood_domains _ _ _ _ E) as (d & p & _ & _ & _ & Hdom & _).
  rewrite export_elements_parts.
  destruct (neighbors_loop_ids (tier1_of data) (neighbors data) {[center_id_of data]})
    as (Hn1 & Hn2 & Hn3 & Hn4).
  destruct (domain_elements_ids (nb_domains data)) as (Hd1 & Hd2 & Hd3).
  destruct (edges_only_ids (edge_elements data)) as (He1 & He2 & _).
  { intros e He. unfold edge_elements in He. now apply elements_loop_edges in He. }
  unfold edge_ids, protein_node_ids, domain_node_ids in *.
  rewrite !omap_app.
  repeat split.
  - rewrite Hn4, Hd3. cbn [omap list_omap protein_element app].
    eapply sublist_NoDup; [|apply elements_loop_edge_ids].
    apply NoDup_fmap_2_strong; [|apply NoDup_seq].
    intros a b _ _ Hab. now apply edge_id_inj.
  - rewrite Hd1, He1, app_nil_r.
    cbn [omap list_omap protein_element node_type node_id app].
    rewrite decide_False by discriminate. cbn [app].
    apply NoDup_cons. split; [|exact Hn1].
    intros H. apply Hn2 in H. apply H. now apply elem_of_singleton.
  - rewrite Hn3, He2, Hd2, app_nil_r.
    cbn [omap list_omap protein_element node_type node_id app].
    rewrite decide_False by discriminate. cbn [app].
    rewrite Hdom.
    apply (NoDup_fmap_2_strong (fun x => "dom_" +:+ interpro_id x)).
    + intros x y Hx Hy Hxy. apply dom_prefix_inj in Hxy.
      pose proof (center_domains_NoDup d protein_id) as Hnd.
      revert Hnd Hx Hy Hxy. generalize (center_domains d protein_id). intros l.
      induction l as [|a l IH]; intros Hnd Hx Hy Hxy; [inversion Hx|].
      cbn [map] in Hnd. apply NoDup_cons in Hnd as [Ha Hnd].
      apply elem_of_cons in Hx as [->|Hx]; apply elem_of_cons in Hy as [->|Hy];
        auto.
      * exfalso. apply Ha. rewrite Hxy. apply list_elem_of_fmap. eauto.
      * exfalso. apply Ha. rewrite <- Hxy. apply list_elem_of_fmap. eauto.
    + eapply NoDup_fmap_1. apply center_domains_NoDup.
Qed.

(** *** Looking a protein up *)

(** [search_by_identifier]: the node, or [None] when no protein has the
    identifier and when the session raises (here: no driver). *)
Definition search_by_identifier (m : manager) (protein_id : string)
  : option protein_node :=
  match driver m with
  | None => None
  | Some d => find_protein d protein_id
  end.

(** The neighbourhood and the export are about the protein
    [search_by_identifier] finds: when it finds none they are empty, and
    when it finds one this protein has the identifier asked for, is the
    centre of the neighbourhood, and its node is the first element of the
    export. *)
Theorem center_is_the_protein_found (m : manager) (protein_id : string) (depth : Z) :
  (search_by_identifier m protein_id = None ->
     get_protein_neighborhood m protein_id depth = None
     /\ export_neighborhood_for_visualization m protein_id depth = [])
  /\ (forall p, search_by_identifier m protein_id = Some p ->
        uniprot_id p = protein_id
        /\ (exists data, get_protein_neighborhood m protein_id depth = Some data
                         /\ center_protein data = p)
        /\ (exists rest, export_neighborhood_for_visualization m protein_id depth
                         = protein_element "center" p :: rest)).
Proof.
  unfold search_by_identifier, export_neighborhood_for_visualization,
    get_protein_neighborhood, query_depth1, query_depth2.
  destruct (driver m) as [d|]; [|split; [auto|discriminate]].
  destruct (find_protein d protein_id) as [p|] eqn:E.
  - split; [discriminate|]. intros ? [= <-].
    split; [now apply find_protein_id in E|].
    destruct (decide (depth = 1)); (split; [eauto|]);
      rewrite export_elements_parts; cbn [center_protein app]; eauto.
  - split; [|discriminate]. intros _. destruct (decide (depth = 1)); auto.
Qed.

(** *** The shape of an export *)

Lemma distinct_from_repr {A} (same : A -> A -> bool) (l : list A) : forall seen x,
  x ∈ l ->
  (exists y, y ∈ seen /\ same x y = true)
  \/ (exists y, y ∈ distinct_from same seen l /\ (y = x \/ same x y = true)).
Proof.
  induction l as [|a l IH]; intros seen x Hx; [inversion Hx|].
  cbn [distinct_from]. destruct (existsb (same a) seen) eqn:E.
  - apply elem_of_cons in Hx as [->|Hx]; [|auto].
    left. apply existsb_exists in E as (y & Hy & Es).
    exists y. split; [now apply list_elem_of_In|exact Es].
  - apply elem_of_cons in Hx as [->|Hx].
    + right. exists a. split; [constructor|now left].
    + destruct (IH (a :: seen) x Hx) as [(y & Hy & Es)|(y & Hy & Es)].
      * apply elem_of_cons in Hy as [->|Hy]; [|left; eauto].
        right. exists a. split; [constructor|now right].
      * right. exists y. split; [now constructor|exact Es].
Qed.

Lemma same_rel_ends a b :
  same_rel a b = true ->
  rel_source a = rel_source b /\ rel_target a = rel_target b /\ rel_type a = rel_type b.
Proof.
  unfold same_rel. rewrite !andb_true_iff, !bool_decide_eq_true. tauto.
Qed.

Lemma neighbors_loop_origin T ns : forall existing e,
  e ∈ neighbors_loop T ns existing ->
  exists n, n ∈ ns /\ (uniprot_id n ∉ existing)
            /\ e = protein_element
                     (if decide (uniprot_id n ∈ T) then "neighbor_d1" else "neighbor_d2") n.
Proof.
  induction ns as [|n ns IH]; intros existing e; cbn [neighbors_loop].
  - intros H. inversion H.
  - destruct (decide (uniprot_id n ∈ existing)) as [Hin|Hout].
    + intros H. destruct (IH _ _ H) as (x & Hx & Hfresh & ->).
      exists x. split; [now constructor|auto].
    + intros H. apply elem_of_cons in H as [->|H].
      * exists n. split; [constructor|auto].
      * destruct (IH _ _ H) as (x & Hx & Hfresh & ->).
        exists x. split; [now constructor|]. split; [|reflexivity].
        intros Hx'. apply Hfresh. apply elem_of_union. now right.
Qed.

Lemma neighbors_loop_cover T ns : forall existing n,
  n ∈ ns ->
  uniprot_id n ∈ existing
  \/ uniprot_id n ∈ node_ids (neighbors_loop T ns existing).
Proof.
  induction ns as [|a ns IH]; intros existing n Hn; [inversion Hn|].
  cbn [neighbors_loop]. destruct (decide (uniprot_id a ∈ existing)) as [Hin|Hout].
  - apply elem_of_cons in Hn as [->|Hn]; [now left|auto].
  - cbn [node_ids omap list_omap protein_element node_id].
    apply elem_of_cons in Hn as [->|Hn]; [right; constructor|].
    destruct (IH ({[uniprot_id a]} ∪ existing) n Hn) as [H|H].
    + apply elem_of_union in H as [H|H]; [|now left].
      apply elem_of_singleton in H. right. rewrite H. constructor.
    + right. now constructor.
Qed.

(** The [SIMILAR] relationships of a depth-1 neighbourhood are at the
    centre, and every neighbour is the other end of one of them. *)
Lemma depth1_shape m id data :
  get_protein_neighborhood m id 1 = Some data ->
  center_id_of data = id
  /\ (forall r, r ∈ relationships data ->
        rel_source r = id \/ rel_target r = id)
  /\ (forall n, n ∈ neighbors data -> uniprot_id n <> id ->
        uniprot_id n ∈ tier1_of data).
Proof.
  intros Hget.
  destruct (neighborhood_domains _ _ _ _ Hget) as (d & p & Hm & Hp & Hc & _ & Hrels).
  rewrite decide_True in Hrels by reflexivity.
  assert (Hid : center_id_of data = id).
  { unfold center_id_of. rewrite Hc. now apply find_protein_id in Hp. }
  split; [exact Hid|]. split.
  - intros r Hr. rewrite Hrels in Hr. apply elem_of_app in Hr as [Hr|Hr].
    + apply distinct_from_elem, list_elem_of_fmap in Hr as (r0 & -> & Hr0).
      apply list_elem_of_In, List.filter_In in Hr0 as [_ Hinc].
      apply incident_iff in Hinc. exact Hinc.
    + left. now apply center_domain_rels_source in Hr.
  - intros n Hn Hne.
    assert (Hns : neighbors data
                  = distinct same_protein
                      (omap (fun r => find_protein d (other_end id r))
                            (List.filter (incident id) (similar d)))).
    { revert Hget. unfold get_protein_neighborhood, query_depth1.
      rewrite Hm, Hp. cbn. now intros [= <-]. }
    rewrite Hns in Hn.
    apply distinct_from_elem, list_elem_of_omap in Hn as (r0 & Hr0 & Hfind).
    apply find_protein_id in Hfind.
    pose proof Hr0 as Hinc.
    apply list_elem_of_In, List.filter_In in Hinc as [_ Hinc].
    apply incident_iff in Hinc.
    assert (Hrep : exists r', r' ∈ relationships data
                     /\ rel_source r' = source r0 /\ rel_target r' = target r0
                     /\ rel_type r' = "SIMILAR").
    { destruct (distinct_from_repr same_rel
                  (map similar_projection (List.filter (incident id) (similar d)))
                  [] (similar_projection r0)) as [(y & Hy & _)|(y & Hy & Hs)].
      - apply list_elem_of_fmap. eauto.
      - inversion Hy.
      - exists y. split; [rewrite Hrels; apply elem_of_app; now left|].
        destruct Hs as [->|Hs]; [auto|].
        apply same_rel_ends in Hs as (H1 & H2 & H3).
        cbn in H1, H2, H3. auto. }
    destruct Hrep as (r' & Hr' & Hs & Ht & Hty).
    apply tier1_of_spec. exists r'. split; [exact Hr'|]. split; [exact Hty|].
    fold (center_id_of data). rewrite Hid, Hs, Ht.
    unfold other_end in Hfind. destruct (decide (source r0 = id)) as [E|E].
    + left. auto.
    + right. destruct Hinc as [Hinc|Hinc]; [contradiction|]. auto.
Qed.

(** A depth-1 export is a star around the centre: every edge starts at
    the centre, and every node is the centre, a direct neighbour or a
    domain; no node is typed as a neighbour of depth 2. *)
Theorem depth1_export_is_a_star (m : manager) (protein_id : string) (e : element) :
  e ∈ export_neighborhood_for_visualization m protein_id 1 ->
  match e with
  | Edge d => edge_source d = protein_id
  | Node n => node_type n = "center" \/ node_type n = "neighbor_d1"
              \/ node_type n = "domain"
  end.
Proof.
  unfold export_neighborhood_for_visualization.
  destruct (get_protein_neighborhood m protein_id 1) as [data|] eqn:Hget;
    [|intros H; inversion H].
  destruct (depth1_shape _ _ _ Hget) as (Hid & Hrels & Hns).
  destruct e as [n|d].
  - rewrite export_elements_parts. rewrite !elem_of_app.
    intros [H|[H|[H|H]]].
    + apply list_elem_of_singleton in H. injection H as ->. auto.
    + apply neighbors_loop_origin in H as (x & Hx & Hfresh & H).
      injection H as ->. cbn [node_type].
      rewrite decide_True; [auto|]. apply Hns; [exact Hx|].
      intros E. apply Hfresh. apply elem_of_singleton. now rewrite Hid.
    + apply list_elem_of_fmap in H as (x & H & _). injection H as ->. auto.
    + unfold edge_elements in H. apply elements_loop_edges in H as (? & ?).
      discriminate.
  - intros H. destruct (edge_origin data d H) as (j & r & Hr & He & _ & _).
    specialize (Hrels r Hr). rewrite <- Hid in Hrels.
    unfold emitted, edge_of in He.
    destruct (decide (rel_type r = "HAS_DOMAIN")) as [Hty|Hty].
    + injection He as ->. cbn [edge_source].
      assert (Hsrc : rel_source r = protein_id); [|exact Hsrc].
      destruct (neighborhood_domains _ _ _ _ Hget) as (g & p & _ & _ & _ & _ & Hall).
      rewrite Hall in Hr. apply elem_of_app in Hr as [Hr|Hr].
      * rewrite decide_True in Hr by reflexivity.
        apply distinct_from_elem, list_elem_of_fmap in Hr as (r0 & -> & _).
        discriminate.
      * now apply center_domain_rels_source in Hr.
    + destruct (decide (rel_type r = "SIMILAR")) as [Hs|Hs].
      * rewrite (oriented_center _ _ _ Hrels) in He.
        injection He as ->. cbn [edge_source fst]. exact Hid.
      * exfalso.
        destruct (neighborhood_domains _ _ _ _ Hget) as (g & p & _ & _ & _ & _ & Hall).
        rewrite Hall in Hr. apply elem_of_app in Hr as [Hr|Hr].
        -- rewrite decide_True in Hr by reflexivity.
           apply distinct_from_elem, list_elem_of_fmap in Hr as (r0 & -> & _).
           now apply Hs.
        -- apply center_domain_rels_type in Hr. contradiction.
Qed.

Lemma depth1_export_is_a_star_example :
  edge_source {| edge_id := "e_1"; edge_source := "X"; edge_target := "Z";
                 edge_type := "SIMILAR"; edge_weight := Some (1 # 5) |} = "X".
Proof.
  apply (depth1_export_is_a_star (example_manager example_rels) "X"
           (Edge {| edge_id := "e_1"; edge_source := "X"; edge_target := "Z";
                    edge_type := "SIMILAR"; edge_weight := Some (1 # 5) |})).
  vm_compute. repeat constructor.
Defined.

(** Every [SIMILAR] relationship joins proteins that are in the graph. *)
Definition ends_exist (d : graph_db) : Prop :=
  forall r, r ∈ similar d ->
    source r ∈ map uniprot_id (proteins d) /\ target r ∈ map uniprot_id (proteins d).

Lemma find_protein_Some d id :
  id ∈ map uniprot_id (proteins d) ->
  exists p, find_protein d id = Some p /\ p ∈ proteins d.
Proof.
  unfold find_protein. intros H.
  induction (proteins d) as [|q ps IH]; [inversion H|].
  cbn [List.find]. destruct (String.eqb_spec (uniprot_id q) id) as [E|E].
  - exists q. split; [reflexivity|constructor].
  - cbn [map] in H. apply elem_of_cons in H as [H|H]; [congruence|].
    destruct (IH H) as (p & Hp & Hin). exists p. split; [exact Hp|now constructor].
Qed.

(** In a neighbourhood the queries return, the two ends of every
    [SIMILAR] relationship are the centre or one of the neighbours. *)
Lemma neighbors_cover m d id depth data :
  driver m = Some d -> ends_exist d ->
  get_protein_neighborhood m id depth = Some data ->
  forall r, r ∈ relationships data -> rel_type r = "SIMILAR" ->
    (rel_source r = id \/ rel_source r ∈ map uniprot_id (neighbors data))
    /\ (rel_target r = id \/ rel_target r ∈ map uniprot_id (neighbors data)).
Proof.
  intros Hm Hends Hget r Hr Hty.
  destruct (neighborhood_domains _ _ _ _ Hget) as (d' & p & Hm' & Hp & Hc & _ & Hrels).
  rewrite Hm in Hm'. injection Hm' as <-.
  pose proof (find_protein_id _ _ _ Hp) as Hpid.
  rewrite Hrels in Hr. apply elem_of_app in Hr as [Hr|Hr];
    [|apply center_domain_rels_type in Hr; rewrite Hr in Hty; discriminate].
  destruct (decide (depth = 1)) as [Hd|Hd].
  - assert (Hns : neighbors data
                  = distinct same_protein
                      (omap (fun r => find_protein d (other_end id r))
                            (List.filter (incident id) (similar d)))).
    { revert Hget. unfold get_protein_neighborhood, query_depth1.
      rewrite Hm, Hp, decide_True by exact Hd. cbn. now intros [= <-]. }
    apply distinct_from_elem, list_elem_of_fmap in Hr as (r0 & -> & Hr0).
    pose proof Hr0 as Hinc.
    apply list_elem_of_In, List.filter_In in Hinc as [Hin Hinc].
    apply incident_iff in Hinc. apply list_elem_of_In in Hin.
    assert (Hother : other_end id r0 ∈ map uniprot_id (neighbors data)).
    { assert (Hex : other_end id r0 ∈ map uniprot_id (proteins d)).
      { unfold other_end. destruct (Hends r0 Hin). now destruct (decide _). }
      apply find_protein_Some in Hex as (n & Hn & _).
      pose proof (find_protein_id _ _ _ Hn) as <-.
      rewrite Hns. unfold distinct.
      destruct (distinct_from_keys uniprot_id
                  (omap (fun r => find_protein d (other_end id r))
                        (List.filter (incident id) (similar d))) [])
        as (_ & _ & Hcov).
      destruct (Hcov n) as [H|H]; [|inversion H|exact H].
      apply list_elem_of_omap. eauto. }
    cbn [similar_projection rel_source rel_target].
    unfold other_end in Hother. destruct (decide (source r0 = id)) as [E|E].
    + split; [now left|now right].
    + destruct Hinc as [Hinc|Hinc]; [contradiction|]. split; [now right|now left].
  - assert (Hns : neighbors data
                  = List.filter
                      (fun n => negb (bool_decide (uniprot_id n = uniprot_id p)))
                      (distinct same_protein
                         (p :: omap (find_protein d)
                                 (flat_map (fun r => [source r; target r])
                                    (List.filter (on_paths d id) (similar d)))))).
    { revert Hget. unfold get_protein_neighborhood, query_depth2.
      rewrite Hm, Hp, decide_False by exact Hd. cbn. now intros [= <-]. }
    apply list_elem_of_fmap in Hr as (r0 & -> & Hr0).
    pose proof Hr0 as Hin. apply list_elem_of_In, List.filter_In in Hin as [Hin _].
    apply list_elem_of_In in Hin.
    assert (Hend : forall x, x = source r0 \/ x = target r0 ->
              x = id \/ x ∈ map uniprot_id (neighbors data)).
    { intros x Hx.
      destruct (decide (x = id)) as [E|E]; [now left|right].
      assert (Hex : x ∈ map uniprot_id (proteins d)).
      { destruct (Hends r0 Hin). destruct Hx as [->| ->]; assumption. }
      apply find_protein_Some in Hex as (n & Hn & _).
      pose proof (find_protein_id _ _ _ Hn) as Hnid.
      assert (Hn' : n ∈ p :: omap (find_protein d)
                          (flat_map (fun r => [source r; target r])
                             (List.filter (on_paths d id) (similar d)))).
      { apply elem_of_cons. right. apply list_elem_of_omap. exists x.
        split; [|exact Hn]. apply list_elem_of_In, in_flat_map.
        exists r0. split; [now apply list_elem_of_In|].
        cbn. destruct Hx as [->| ->]; auto. }
      destruct (distinct_from_keys uniprot_id
                  (p :: omap (find_protein d)
                          (flat_map (fun r => [source r; target r])
                             (List.filter (on_paths d id) (similar d)))) [])
        as (_ & _ & Hcov).
      destruct (Hcov n Hn') as [H|H]; [inversion H|].
      apply list_elem_of_fmap in H as (n' & Hid' & Hn'').
      rewrite Hns. apply list_elem_of_fmap. exists n'.
      split; [congruence|].
      apply list_elem_of_In, List.filter_In. split; [now apply list_elem_of_In|].
      apply negb_true_iff, bool_decide_eq_false. congruence. }
    cbn [similar_projection rel_source rel_target]. split; apply Hend; auto.
Qed.

Lemma node_ids_app l1 l2 : node_ids (l1 ++ l2) = node_ids l1 ++ node_ids l2.
Proof. apply omap_app. Qed.

Lemma node_ids_domains (doms : list domain_node) :
  node_ids (map domain_element doms) = map (fun x => "dom_" +:+ interpro_id x) doms.
Proof.
  induction doms as [|x doms IH]; [reflexivity|].
  cbn [map node_ids omap list_omap domain_element node_id]. f_equal. exact IH.
Qed.

Lemma center_domain_rels_target d id r :
  r ∈ center_domain_rels d id ->
  rel_target r ∈ map interpro_id (center_domains d id).
Proof.
  unfold center_domain_rels, distinct. intros H.
  apply distinct_from_elem in H.
  apply list_elem_of_omap in H as (e & He & H).
  destruct (decide (fst e = id)) as [E|]; [|discriminate].
  destruct (find_domain d (snd e)) as [x|] eqn:Ex; [|discriminate].
  injection H as <-. cbn [domain_projection rel_target].
  unfold center_domains, distinct.
  destruct (distinct_from_keys interpro_id
              (omap (fun e => if decide (fst e = id) then find_domain d (snd e) else None)
                    (has_domain d)) []) as (_ & _ & Hcov).
  destruct (Hcov x) as [H|H]; [|inversion H|exact H].
  apply list_elem_of_omap. exists e. split; [exact He|].
  now rewrite decide_True by exact E.
Qed.

(** On a graph whose [SIMILAR] relationships join proteins that are
    there (as the rebuild leaves it), no edge of an export dangles: its
    source and its target are identifiers of nodes of the same export. *)
Theorem export_has_no_dangling_edge (m : manager) (d : graph_db)
    (protein_id : string) (depth : Z) (e : edge_data) :
  driver m = Some d -> ends_exist d ->
  Edge e ∈ export_neighborhood_for_visualization m protein_id depth ->
  edge_source e ∈ node_ids (export_neighborhood_for_visualization m protein_id depth)
  /\ edge_target e ∈ node_ids (export_neighborhood_for_visualization m protein_id depth).
Proof.
  intros Hm Hends. unfold export_neighborhood_for_visualization.
  destruct (get_protein_neighborhood m protein_id depth) as [data|] eqn:Hget;
    [|intros H; inversion H].
  intros He.
  destruct (neighborhood_domains _ _ _ _ Hget) as (d' & p & Hm' & Hp & Hc & Hdoms & Hrels).
  rewrite Hm in Hm'. injection Hm' as <-.
  assert (Hid : center_id_of data = protein_id).
  { unfold center_id_of. rewrite Hc. now apply find_protein_id in Hp. }
  assert (Hcenter : protein_id ∈ node_ids (export_elements data)).
  { rewrite export_elements_parts, node_ids_app.
    apply elem_of_app. left. cbn. fold (center_id_of data). rewrite Hid. constructor. }
  assert (Hneighbor : forall x, x ∈ map uniprot_id (neighbors data) ->
                        x ∈ node_ids (export_elements data)).
  { intros x Hx. apply list_elem_of_fmap in Hx as (n & -> & Hn).
    destruct (neighbors_loop_cover (tier1_of data) _ {[center_id_of data]} n Hn) as [H|H].
    - apply elem_of_singleton in H. rewrite H, Hid. exact Hcenter.
    - rewrite export_elements_parts, !node_ids_app.
      apply elem_of_app. right. apply elem_of_app. now left. }
  assert (Hdomain : forall x, x ∈ map interpro_id (nb_domains data) ->
                      "dom_" +:+ x ∈ node_ids (export_elements data)).
  { intros x Hx. rewrite export_elements_parts, !node_ids_app.
    apply elem_of_app. right. apply elem_of_app. right. apply elem_of_app. left.
    rewrite node_ids_domains.
    apply list_elem_of_fmap in Hx as (y & -> & Hy).
    apply list_elem_of_fmap. eauto. }
  destruct (edge_origin data e He) as (j & r & Hr & Hem & _ & _).
  unfold emitted, edge_of in Hem.
  destruct (decide (rel_type r = "HAS_DOMAIN")) as [Hty|Hty].
  - injection Hem as ->. cbn [edge_source edge_target].
    assert (Hdr : r ∈ center_domain_rels d protein_id).
    { rewrite Hrels in Hr. apply elem_of_app in Hr as [Hr|Hr]; [|exact Hr].
      exfalso. destruct (decide (depth = 1)).
      - apply distinct_from_elem, list_elem_of_fmap in Hr as (r0 & -> & _).
        discriminate.
      - apply list_elem_of_fmap in Hr as (r0 & -> & _). discriminate. }
    split.
    + rewrite (center_domain_rels_source _ _ _ Hdr). exact Hcenter.
    + apply Hdomain. rewrite Hdoms. now apply center_domain_rels_target.
  - assert (Hs : rel_type r = "SIMILAR").
    { rewrite Hrels in Hr. apply elem_of_app in Hr as [Hr|Hr].
      - destruct (decide (depth = 1)).
        + now apply distinct_from_elem, list_elem_of_fmap in Hr as (r0 & -> & _).
        + now apply list_elem_of_fmap in Hr as (r0 & -> & _).
      - apply center_domain_rels_type in Hr. contradiction. }
    rewrite decide_True in Hem by exact Hs.
    destruct (neighbors_cover m d protein_id depth data Hm Hends Hget r Hr Hs)
      as [Hsrc Htgt].
    assert (Hsrc' : rel_source r ∈ node_ids (export_elements data)).
    { destruct Hsrc as [->|H]; auto. }
    assert (Htgt' : rel_target r ∈ node_ids (export_elements data)).
    { destruct Htgt as [->|H]; auto. }
    injection Hem as ->. cbn [edge_source edge_target].
    unfold oriented. rewrite Hid.
    repeat case_decide; cbn [fst snd]; auto.
Qed.

Lemma rebuilt_ends_exist
    (node_similarity : BuildGraph.similarity_config -> projection
                       -> list (string * string * Q))
    (d : graph_db) :
  ends_exist (BuildGraph.rebuilt_db node_similarity d).
Proof.
  intros r Hr.
  destruct (BuildGraph.rebuilt_db_parts node_similarity d) as (-> & _).
  now apply BuildGraph.rebuilt_similar_ends in Hr.
Qed.

(** The graph the three example documents give, asked for [P1]. *)
Lemma export_has_no_dangling_edge_example :
  "P1" ∈ node_ids
           (export_neighborhood_for_visualization
              {| driver := Some (BuildGraph.rebuilt_db BuildGraph.exact_jaccard
                                   (BuildGraph.imported_db BuildGraph.example_collection
                                      empty_db)) |} "P1" 2)
  /\ "P3" ∈ node_ids
             (export_neighborhood_for_visualization
                {| driver := Some (BuildGraph.rebuilt_db BuildGraph.exact_jaccard
                                     (BuildGraph.imported_db BuildGraph.example_collection
                                        empty_db)) |} "P1" 2).
Proof.
  apply (export_has_no_dangling_edge
           {| driver := Some (BuildGraph.rebuilt_db BuildGraph.exact_jaccard
                                (BuildGraph.imported_db BuildGraph.example_collection
                                   empty_db)) |}
           (BuildGraph.rebuilt_db BuildGraph.exact_jaccard
              (BuildGraph.imported_db BuildGraph.example_collection empty_db))
           "P1" 2
           {| edge_id := "e_1"; edge_source := "P1"; edge_target := "P3";
              edge_type := "SIMILAR"; edge_weight := Some (33 # 100) |}).
  - reflexivity.
  - apply rebuilt_ends_exist.
  - vm_compute. repeat constructor.
Defined.

(** *** Domains of a protein, proteins of a domain *)

(** The order of [ORDER BY] on a string property: ascending, code point
    by code point. *)
Definition str_le (a b : string) : Prop := String.leb a b = true.

#[global] Instance str_le_dec a b : Decision (str_le a b).
Proof. unfold str_le. apply _. Defined.

#[global] Instance str_le_total : Total str_le.
Proof. intros a b. apply String.leb_total. Qed.

#[global] Instance str_le_trans : Transitive str_le.
Proof.
  intros a b c. unfold str_le, String.leb.
  destruct (String.compare a b) eqn:Eab; [|..]; intros Hab; try discriminate.
  - apply String.compare_eq_iff in Eab as ->. auto.
  - destruct (String.compare b c) eqn:Ebc; intros Hbc; try discriminate.
    + apply String.compare_eq_iff in Ebc as <-. now rewrite Eab.
    + assert (H : String.compare a c = Lt).
      { apply OrderedTypeEx.String_as_OT.cmp_lt.
        eapply OrderedTypeEx.String_as_OT.lt_trans;
          apply OrderedTypeEx.String_as_OT.cmp_lt; eassumption. }
      now rewrite H.
Qed.

Definition by_interpro_id (a b : domain_node) : Prop :=
  str_le (interpro_id a) (interpro_id b).

Definition by_uniprot_id (a b : protein_node) : Prop :=
  str_le (uniprot_id a) (uniprot_id b).

#[global] Instance by_interpro_id_dec a b : Decision (by_interpro_id a b).
Proof. unfold by_interpro_id. apply _. Defined.

#[global] Instance by_uniprot_id_dec a b : Decision (by_uniprot_id a b).
Proof. unfold by_uniprot_id. apply _. Defined.

#[global] Instance by_interpro_id_total : Total by_interpro_id.
Proof. intros a b. apply str_le_total. Qed.

#[global] Instance by_uniprot_id_total : Total by_uniprot_id.
Proof. intros a b. apply str_le_total. Qed.

#[global] Instance by_interpro_id_trans : Transitive by_interpro_id.
Proof. intros a b c. apply str_le_trans. Qed.

#[global] Instance by_uniprot_id_trans : Transitive by_uniprot_id.
Proof. intros a b c. apply str_le_trans. Qed.

(** The rows of [MATCH (p:Protein {uniprot_id: $protein_id})
    -[:HAS_DOMAIN]->(d:Domain) RETURN d], one per relationship. *)
Definition domain_rows (d : graph_db) (protein_id : string) : list domain_node :=
  omap (fun e => if decide (fst e = protein_id) then find_domain d (snd e) else None)
       (has_domain d).

(** The rows of [MATCH (d:Domain {interpro_id: $domain_id})
    <-[:HAS_DOMAIN]-(p:Protein) RETURN p]. *)
Definition protein_rows (d : graph_db) (domain_id : string) : list protein_node :=
  omap (fun e => if decide (snd e = domain_id) then find_protein d (fst e) else None)
       (has_domain d).

(** [get_protein_domains]: the rows in the order of [interpro_id]; the
    empty list when there is no such protein and when the session raises.
    The query does not say in which order rows with one identifier come:
    the sort fixes one, and nothing below depends on it. *)
Definition get_protein_domains (m : manager) (protein_id : string)
  : list domain_node :=
  match driver m with
  | None => []
  | Some d =>
      match find_protein d protein_id with
      | None => []
      | Some _ => merge_sort by_interpro_id (domain_rows d protein_id)
      end
  end.

(** [get_proteins_by_interpro_domain] *)
Definition get_proteins_by_interpro_domain (m : manager) (domain_id : string)
  : list protein_node :=
  match driver m with
  | None => []
  | Some d =>
      match find_domain d domain_id with
      | None => []
      | Some _ => merge_sort by_uniprot_id (protein_rows d domain_id)
      end
  end.

Lemma find_key_self {A} (key : A -> string) (f : A -> bool) (l : list A) (x : A) :
  (forall y, f y = true <-> key y = key x) ->
  NoDup (map key l) -> x ∈ l -> List.find f l = Some x.
Proof.
  intros Hf. induction l as [|a l IH]; intros Hnd Hx; [inversion Hx|].
  cbn [map] in Hnd. apply NoDup_cons in Hnd as [Ha Hnd].
  cbn [List.find]. destruct (f a) eqn:E.
  - apply Hf in E. apply elem_of_cons in Hx as [->|Hx]; [reflexivity|].
    exfalso. apply Ha. rewrite E. apply list_elem_of_fmap. eauto.
  - apply elem_of_cons in Hx as [->|Hx]; [|auto].
    assert (f a = true) by (now apply Hf). congruence.
Qed.

Lemma find_domain_elem d k x :
  find_domain d k = Some x -> x ∈ domains d /\ interpro_id x = k.
Proof.
  unfold find_domain. intros H. apply find_some in H as [H1 H2].
  apply bool_decide_eq_true in H2. split; [now apply list_elem_of_In|exact H2].
Qed.

Lemma find_domain_self d x :
  NoDup (map interpro_id (domains d)) -> x ∈ domains d ->
  find_domain d (interpro_id x) = Some x.
Proof.
  unfold find_domain. apply (find_key_self interpro_id).
  intros y. apply bool_decide_eq_true.
Qed.

Lemma find_domain_Some d k :
  k ∈ map interpro_id (domains d) -> exists x, find_domain d k = Some x.
Proof.
  unfold find_domain. intros H.
  induction (domains d) as [|q ds IH]; [inversion H|].
  cbn [List.find]. destruct (bool_decide (interpro_id q = k)) eqn:E; [eauto|].
  apply bool_decide_eq_false in E.
  cbn [map] in H. apply elem_of_cons in H as [H|H]; [congruence|auto].
Qed.

Lemma find_protein_elem d k p :
  find_protein d k = Some p -> p ∈ proteins d /\ uniprot_id p = k.
Proof.
  unfold find_protein. intros H. apply find_some in H as [H1 H2].
  apply String.eqb_eq in H2. split; [now apply list_elem_of_In|exact H2].
Qed.

Lemma find_protein_self d p :
  NoDup (map uniprot_id (proteins d)) -> p ∈ proteins d ->
  find_protein d (uniprot_id p) = Some p.
Proof.
  unfold find_protein. apply (find_key_self uniprot_id).
  intros y. apply String.eqb_eq.
Qed.

Lemma domain_rows_elem d pid x :
  x ∈ domain_rows d pid
  <-> exists e, e ∈ has_domain d /\ fst e = pid /\ find_domain d (snd e) = Some x.
Proof.
  unfold domain_rows. rewrite list_elem_of_omap. split.
  - intros (e & He & H). destruct (decide (fst e = pid)); [eauto|discriminate].
  - intros (e & He & Hp & H). exists e. split; [exact He|].
    now rewrite decide_True by exact Hp.
Qed.

Lemma protein_rows_elem d did p :
  p ∈ protein_rows d did
  <-> exists e, e ∈ has_domain d /\ snd e = did /\ find_protein d (fst e) = Some p.
Proof.
  unfold protein_rows. rewrite list_elem_of_omap. split.
  - intros (e & He & H). destruct (decide (snd e = did)); [eauto|discriminate].
  - intros (e & He & Hp & H). exists e. split; [exact He|].
    now rewrite decide_True by exact Hp.
Qed.

Lemma domain_rows_member d pid x :
  BuildGraph.well_formed d ->
  x ∈ domain_rows d pid <-> x ∈ domains d /\ (pid, interpro_id x) ∈ has_domain d.
Proof.
  intros Hwf. rewrite domain_rows_elem. split.
  - intros ([a b] & He & <- & Hf). cbn [fst snd] in *.
    apply find_domain_elem in Hf as [Hx <-]. auto.
  - intros [Hx He]. exists (pid, interpro_id x). cbn [fst snd].
    split; [exact He|]. split; [reflexivity|].
    apply find_domain_self; [apply Hwf|exact Hx].
Qed.

Lemma protein_rows_member d did p :
  BuildGraph.well_formed d ->
  p ∈ protein_rows d did <-> p ∈ proteins d /\ (uniprot_id p, did) ∈ has_domain d.
Proof.
  intros Hwf. rewrite protein_rows_elem. split.
  - intros ([a b] & He & <- & Hf). cbn [fst snd] in *.
    apply find_protein_elem in Hf as [Hx <-]. auto.
  - intros [Hx He]. exists (uniprot_id p, did). cbn [fst snd].
    split; [exact He|]. split; [reflexivity|].
    apply find_protein_self; [apply Hwf|exact Hx].
Qed.

Lemma find_protein_absent d id :
  find_protein d id = None -> id ∉ map uniprot_id (proteins d).
Proof.
  intros Hnone Hin. apply find_protein_Some in Hin as (p & Hp & _). congruence.
Qed.

Lemma find_domain_absent d id :
  find_domain d id = None -> id ∉ map interpro_id (domains d).
Proof.
  intros Hnone Hin. apply find_domain_Some in Hin as (p & Hp). congruence.
Qed.

Lemma get_protein_domains_perm m d pid :
  driver m = Some d -> BuildGraph.well_formed d ->
  get_protein_domains m pid ≡ₚ domain_rows d pid.
Proof.
  intros Hm Hwf. unfold get_protein_domains. rewrite Hm.
  destruct (find_protein d pid) eqn:E; [apply merge_sort_Permutation|].
  apply find_protein_absent in E.
  unfold domain_rows. rewrite omap_none; [reflexivity|].
  intros e He. destruct (decide (fst e = pid)) as [<-|]; [|reflexivity].
  exfalso. apply E. now apply (BuildGraph.wf_members d Hwf).
Qed.

Lemma get_proteins_by_interpro_domain_perm m d did :
  driver m = Some d -> BuildGraph.well_formed d ->
  get_proteins_by_interpro_domain m did ≡ₚ protein_rows d did.
Proof.
  intros Hm Hwf. unfold get_proteins_by_interpro_domain. rewrite Hm.
  destruct (find_domain d did) eqn:E; [apply merge_sort_Permutation|].
  apply find_domain_absent in E.
  unfold protein_rows. rewrite omap_none; [reflexivity|].
  intros e He. destruct (decide (snd e = did)) as [<-|]; [|reflexivity].
  exfalso. apply E. now apply (BuildGraph.wf_members d Hwf).
Qed.

(** The two queries read the same memberships: on a well-formed graph, a
    domain is among the domains of a protein exactly when the protein is
    among the proteins of the domain. *)
Theorem domains_and_proteins_queries_agree (m : manager) (d : graph_db)
    (p : protein_node) (x : domain_node) :
  driver m = Some d -> BuildGraph.well_formed d ->
  p ∈ proteins d -> x ∈ domains d ->
  (x ∈ get_protein_domains m (uniprot_id p)
   <-> p ∈ get_proteins_by_interpro_domain m (interpro_id x))
  /\ (x ∈ get_protein_domains m (uniprot_id p)
      <-> (uniprot_id p, interpro_id x) ∈ has_domain d).
Proof.
  intros Hm Hwf Hp Hx.
  rewrite (get_protein_domains_perm m d _ Hm Hwf).
  rewrite (get_proteins_by_interpro_domain_perm m d _ Hm Hwf).
  rewrite (domain_rows_member d _ x Hwf), (protein_rows_member d _ p Hwf).
  tauto.
Qed.

Lemma domain_rows_ids d pid :
  BuildGraph.well_formed d ->
  map interpro_id (domain_rows d pid)
  = map snd (List.filter (fun e => String.eqb (fst e) pid) (has_domain d)).
Proof.
  intros Hwf. unfold domain_rows.
  pose proof (BuildGraph.wf_members d Hwf) as Hm.
  induction (has_domain d) as [|e es IH]; [reflexivity|].
  cbn [omap list_omap List.filter].
  assert (IH' := IH (fun x Hx => Hm x (list_elem_of_further _ _ _ Hx))).
  destruct (decide (fst e = pid)) as [E|E].
  - rewrite E, String.eqb_refl.
    destruct (Hm e) as [_ Hd]; [constructor|].
    apply find_domain_Some in Hd as (x & Hx). rewrite Hx.
    apply find_domain_elem in Hx as [_ Hx]. cbn. rewrite Hx. f_equal. exact IH'.
  - apply String.eqb_neq in E. rewrite E. exact IH'.
Qed.

Lemma memberships_of_NoDup d pid :
  NoDup (has_domain d) ->
  NoDup (map snd (List.filter (fun e => String.eqb (fst e) pid) (has_domain d))).
Proof.
  intros Hnd. apply NoDup_fmap_2_strong.
  - intros [a x] [b y] Hx Hy. cbn. intros ->.
    apply list_elem_of_In, List.filter_In in Hx as [_ Hx].
    apply list_elem_of_In, List.filter_In in Hy as [_ Hy].
    cbn in Hx, Hy. apply String.eqb_eq in Hx, Hy. congruence.
  - now apply NoDup_ListNoDup, List.NoDup_filter, NoDup_ListNoDup.
Qed.

Lemma distinct_from_NoDup {A} (key : A -> string) (l : list A) : forall seen,
  NoDup (map key l) -> (forall x, x ∈ l -> key x ∉ map key seen) ->
  distinct_from (fun a b => bool_decide (key a = key b)) seen l = l.
Proof.
  induction l as [|a l IH]; intros seen Hnd Hfresh; [reflexivity|].
  cbn [map] in Hnd. apply NoDup_cons in Hnd as [Ha Hnd].
  cbn [distinct_from].
  assert (E : existsb (fun b => bool_decide (key a = key b)) seen = false).
  { apply not_true_is_false. intros E. apply existsb_exists in E as (b & Hb & E).
    apply bool_decide_eq_true in E. apply (Hfresh a); [constructor|].
    rewrite E. apply list_elem_of_fmap. exists b. split; [reflexivity|].
    now apply list_elem_of_In. }
  rewrite E. f_equal. apply IH; [exact Hnd|].
  intros x Hx. cbn [map]. apply not_elem_of_cons. split.
  - intros Ex. apply Ha. rewrite <- Ex. apply list_elem_of_fmap. eauto.
  - apply Hfresh. now constructor.
Qed.

(** On a well-formed graph [get_protein_domains] lists every domain of
    the protein once, in the order of the identifiers, and they are the
    domains the neighbourhood of the protein holds. *)
Theorem get_protein_domains_lists_each_domain_once (m : manager) (d : graph_db)
    (protein_id : string) :
  driver m = Some d -> BuildGraph.well_formed d ->
  StronglySorted by_interpro_id (get_protein_domains m protein_id)
  /\ NoDup (map interpro_id (get_protein_domains m protein_id))
  /\ (forall x, x ∈ get_protein_domains m protein_id
        <-> x ∈ domains d /\ (protein_id, interpro_id x) ∈ has_domain d)
  /\ (forall depth data,
        get_protein_neighborhood m protein_id depth = Some data ->
        get_protein_domains m protein_id ≡ₚ nb_domains data).
Proof.
  intros Hm Hwf.
  pose proof (get_protein_domains_perm m d protein_id Hm Hwf) as Hperm.
  assert (Hnd : NoDup (map interpro_id (domain_rows d protein_id))).
  { rewrite (domain_rows_ids d _ Hwf). apply memberships_of_NoDup, Hwf. }
  split; [|split; [|split]].
  - unfold get_protein_domains. rewrite Hm.
    destruct (find_protein d protein_id); [|constructor].
    apply StronglySorted_merge_sort; apply _.
  - change (map interpro_id (get_protein_domains m protein_id))
      with (interpro_id <$> get_protein_domains m protein_id).
    rewrite Hperm. exact Hnd.
  - intros x. rewrite Hperm. now apply domain_rows_member.
  - intros depth data Hget.
    destruct (neighborhood_domains _ _ _ _ Hget) as (d' & p & Hm' & _ & _ & -> & _).
    rewrite Hm in Hm'. injection Hm' as <-.
    rewrite Hperm. unfold center_domains, distinct. fold (domain_rows d protein_id).
    unfold same_domain.
    rewrite (distinct_from_NoDup interpro_id); [reflexivity|exact Hnd|].
    intros x _ H. inversion H.
Qed.

(** The database of [example_manager]. *)
Definition example_db (rels : list similar_rel) : graph_db :=
  {| proteins := map example_protein ["X"; "Y"; "Z"; "W"; "V"];
     domains := [{| interpro_id := "IPR1"; name := None |}];
     has_domain := [("X", "IPR1")];
     similar := rels; catalog := []; schema := [] |}.

Lemma example_db_well_formed rels :
  Forall (fun r => source r ∈ ["X"; "Y"; "Z"; "W"; "V"]
                   /\ target r ∈ ["X"; "Y"; "Z"; "W"; "V"]) rels ->
  BuildGraph.well_formed (example_db rels).
Proof.
  intros Hends. split; cbn.
  - apply NoDup_ListNoDup. repeat constructor; cbn; intuition discriminate.
  - apply NoDup_singleton.
  - apply NoDup_singleton.
  - intros e He. apply list_elem_of_singleton in He as ->. cbn.
    split; [constructor|constructor].
  - intros r Hr. rewrite Forall_forall in Hends. now apply Hends.
Qed.

Lemma example_rels_ends :
  Forall (fun r => source r ∈ ["X"; "Y"; "Z"; "W"; "V"]
                   /\ target r ∈ ["X"; "Y"; "Z"; "W"; "V"]) example_rels.
Proof. unfold example_rels. repeat constructor. Qed.

Lemma domains_and_proteins_queries_agree_example :
  ({| interpro_id := "IPR1"; name := None |}
     ∈ get_protein_domains (example_manager example_rels) "X"
   <-> example_protein "X"
         ∈ get_proteins_by_interpro_domain (example_manager example_rels) "IPR1")
  /\ ({| interpro_id := "IPR1"; name := None |}
        ∈ get_protein_domains (example_manager example_rels) "X"
      <-> ("X", "IPR1") ∈ has_domain (example_db example_rels)).
Proof.
  apply (domains_and_proteins_queries_agree (example_manager example_rels)
           (example_db example_rels) (example_protein "X")
           {| interpro_id := "IPR1"; name := None |}).
  - reflexivity.
  - apply example_db_well_formed, example_rels_ends.
  - cbn. constructor.
  - cbn. constructor.
Defined.

Lemma get_protein_domains_lists_each_domain_once_example :
  StronglySorted by_interpro_id (get_protein_domains (example_manager example_rels) "X")
  /\ NoDup (map interpro_id (get_protein_domains (example_manager example_rels) "X"))
  /\ (forall x, x ∈ get_protein_domains (example_manager example_rels) "X"
        <-> x ∈ domains (example_db example_rels)
            /\ ("X", interpro_id x) ∈ has_domain (example_db example_rels))
  /\ (forall depth data,
        get_protein_neighborhood (example_manager example_rels) "X" depth = Some data ->
        get_protein_domains (example_manager example_rels) "X" ≡ₚ nb_domains data).
Proof.
  apply (get_protein_domains_lists_each_domain_once (example_manager example_rels)
           (example_db example_rels) "X").
  - reflexivity.
  - apply example_db_well_formed, example_rels_ends.
Defined.

Lemma get_protein_domains_length m d pid :
  driver m = Some d -> BuildGraph.well_formed d ->
  Z.of_nat (length (get_protein_domains m pid)) = count_domains d pid.
Proof.
  intros Hm Hwf. unfold count_domains. f_equal.
  rewrite (Permutation_length (get_protein_domains_perm m d pid Hm Hwf)).
  rewrite <- (length_fmap interpro_id (domain_rows d pid)).
  change (interpro_id <$> domain_rows d pid) with (map interpro_id (domain_rows d pid)).
  rewrite (domain_rows_ids d pid Hwf). apply length_fmap.
Qed.

(** The [domain_count] the rebuild stores on a protein is the number of
    domains [get_protein_domains] lists for it afterwards. *)
Theorem domain_count_is_what_get_protein_domains_lists
    (node_similarity : BuildGraph.similarity_config -> projection
                       -> list (string * string * Q))
    (col : LoadMongo.collection) (s : BuildGraph.session) :
  BuildGraph.well_formed (BuildGraph.db s) ->
  exists s',
    BuildGraph.main node_similarity col s = BuildGraph.Returned tt s'
    /\ forall p, p ∈ proteins (BuildGraph.db s') ->
         domain_count p
         = Some (Z.of_nat (length
             (get_protein_domains {| driver := Some (BuildGraph.db s') |}
                                  (uniprot_id p)))).
Proof.
  intros Hwf.
  destruct (BuildGraph.main_runs node_similarity col s) as (bs & Hrun & _ & _).
  eexists. split; [exact Hrun|]. cbn [BuildGraph.db]. intros p Hp.
  set (R := BuildGraph.rebuilt_db node_similarity
              (BuildGraph.imported_db col (BuildGraph.db s))) in *.
  rewrite (get_protein_domains_length {| driver := Some R |} R (uniprot_id p) eq_refl
             (BuildGraph.rebuilt_well_formed node_similarity _
                (BuildGraph.imported_well_formed col _ Hwf))).
  rewrite (BuildGraph.rebuilt_proteins node_similarity _ p Hp).
  unfold count_domains, R.
  now destruct (BuildGraph.rebuilt_db_parts node_similarity
                  (BuildGraph.imported_db col (BuildGraph.db s))) as (_ & _ & -> & _).
Qed.

Lemma domain_count_is_what_get_protein_domains_lists_example :
  exists s',
    BuildGraph.main BuildGraph.exact_jaccard BuildGraph.example_collection
                    BuildGraph.start = BuildGraph.Returned tt s'
    /\ forall p, p ∈ proteins (BuildGraph.db s') ->
         domain_count p
         = Some (Z.of_nat (length
             (get_protein_domains {| driver := Some (BuildGraph.db s') |}
                                  (uniprot_id p)))).
Proof.
  apply (domain_count_is_what_get_protein_domains_lists BuildGraph.exact_jaccard
           BuildGraph.example_collection BuildGraph.start).
  exact BuildGraph.empty_db_well_formed.
Defined.

(** *** Pairs above a similarity threshold *)

(** The order of [ORDER BY r.jaccard_weight DESC] on the rows. *)
Definition weight_ge (x y : string * string * Q) : Prop :=
  Qle_bool (snd y) (snd x) = true.

#[global] Instance weight_ge_dec x y : Decision (weight_ge x y).
Proof. unfold weight_ge. apply _. Defined.

#[global] Instance weight_ge_total : Total weight_ge.
Proof.
  intros x y. unfold weight_ge. rewrite !Qle_bool_iff.
  destruct (Qlt_le_dec (snd x) (snd y)) as [H|H];
    [right; now apply Qlt_le_weak|now left].
Qed.

#[global] Instance weight_ge_trans : Transitive weight_ge.
Proof.
  intros x y z. unfold weight_ge. rewrite !Qle_bool_iff. intros H1 H2.
  eapply Qle_trans; eassumption.
Qed.

Section ElementIds.

(** [elementId(n)], the identifier the store gives a node. The query
    only compares two of them. *)
Variable element_id : protein_node -> string.

(** The rows of [MATCH (p1:Protein)-[r:SIMILAR]-(p2:Protein) WHERE
    r.jaccard_weight >= $min_jaccard AND elementId(p1) < elementId(p2)]:
    every relationship is matched from both of its ends, and a
    relationship without weight is not kept. *)
Definition pair_rows (d : graph_db) (min_jaccard : Q) : list (string * string * Q) :=
  flat_map
    (fun r =>
       match find_protein d (source r), find_protein d (target r), jaccard_weight r with
       | Some a, Some b, Some w =>
           if Qle_bool min_jaccard w then
             (if String.ltb (element_id a) (element_id b)
              then [(uniprot_id a, uniprot_id b, w)] else [])
             ++ (if String.ltb (element_id b) (element_id a)
                 then [(uniprot_id b, uniprot_id a, w)] else [])
           else []
       | _, _, _ => []
       end)
    (similar d).

(** [find_proteins_by_similarity_threshold]: the rows by decreasing
    weight, the first 100 of them; the empty list when the session raises.
    The query does not say in which order rows of one weight come: the
    sort fixes one, and nothing below depends on it. *)
Definition find_proteins_by_similarity_threshold (m : manager) (min_jaccard : Q)
  : list (string * string * Q) :=
  match driver m with
  | None => []
  | Some d => take 100 (merge_sort weight_ge (pair_rows d min_jaccard))
  end.

Lemma pair_rows_elem d min_jaccard a b w :
  (a, b, w) ∈ pair_rows d min_jaccard ->
  (min_jaccard <= w)%Q
  /\ exists r, r ∈ similar d /\ jaccard_weight r = Some w
               /\ ((source r = a /\ target r = b) \/ (source r = b /\ target r = a)).
Proof.
  unfold pair_rows. intros H.
  apply list_elem_of_In, in_flat_map in H as (r & Hr & H).
  apply list_elem_of_In in Hr, H.
  destruct (find_protein d (source r)) as [pa|] eqn:Ea; [|inversion H].
  destruct (find_protein d (target r)) as [pb|] eqn:Eb; [|inversion H].
  destruct (jaccard_weight r) as [w'|] eqn:Ew; [|inversion H].
  destruct (Qle_bool min_jaccard w') eqn:Eq; [|inversion H].
  apply Qle_bool_iff in Eq.
  apply find_protein_id in Ea, Eb.
  apply elem_of_app in H as [H|H].
  - destruct (String.ltb _ _); [|inversion H].
    apply list_elem_of_singleton in H. injection H as -> -> ->.
    split; [exact Eq|]. exists r. auto.
  - destruct (String.ltb _ _); [|inversion H].
    apply list_elem_of_singleton in H. injection H as -> -> ->.
    split; [exact Eq|]. exists r. auto.
Qed.

(** [find_proteins_by_similarity_threshold] returns at most 100 pairs, by
    decreasing weight; each is a [SIMILAR] relationship whose weight is at
    least the threshold (a weight equal to the threshold is kept); a row
    that is left out is not heavier than any pair returned; and nothing is
    left out when there are at most 100 rows. *)
Theorem similar_pairs_are_the_heaviest (m : manager) (d : graph_db) (min_jaccard : Q) :
  driver m = Some d ->
  (length (find_proteins_by_similarity_threshold m min_jaccard) <= 100)%nat
  /\ StronglySorted weight_ge (find_proteins_by_similarity_threshold m min_jaccard)
  /\ (forall a b w,
        (a, b, w) ∈ find_proteins_by_similarity_threshold m min_jaccard ->
        (min_jaccard <= w)%Q
        /\ exists r, r ∈ similar d /\ jaccard_weight r = Some w
                     /\ ((source r = a /\ target r = b)
                         \/ (source r = b /\ target r = a)))
  /\ (forall x y,
        x ∈ find_proteins_by_similarity_threshold m min_jaccard ->
        y ∈ pair_rows d min_jaccard ->
        y ∉ find_proteins_by_similarity_threshold m min_jaccard ->
        (snd y <= snd x)%Q)
  /\ ((length (pair_rows d min_jaccard) <= 100)%nat ->
      find_proteins_by_similarity_threshold m min_jaccard ≡ₚ pair_rows d min_jaccard).
Proof.
  intros Hm. unfold find_proteins_by_similarity_threshold. rewrite Hm.
  set (rows := pair_rows d min_jaccard).
  set (sorted := merge_sort weight_ge rows).
  assert (Hperm : sorted ≡ₚ rows) by apply merge_sort_Permutation.
  assert (Hsorted : StronglySorted weight_ge (take 100 sorted ++ drop 100 sorted)).
  { rewrite take_drop. apply StronglySorted_merge_sort; apply _. }
  split; [|split; [|split; [|split]]].
  - rewrite length_take. lia.
  - now apply StronglySorted_app_1_l in Hsorted.
  - intros a b w H. apply (pair_rows_elem d min_jaccard).
    fold rows. rewrite <- Hperm, <- (take_drop 100 sorted).
    apply elem_of_app. now left.
  - intros x y Hx Hy Hout. apply Qle_bool_iff.
    apply (StronglySorted_app_1_elem_of _ _ _ _ _ Hsorted Hx).
    rewrite <- Hperm, <- (take_drop 100 sorted) in Hy.
    apply elem_of_app in Hy as [Hy|Hy]; [contradiction|exact Hy].
  - intros Hlen. rewrite take_ge; [exact Hperm|].
    now rewrite (Permutation_length Hperm).
Qed.

End ElementIds.

(** The pairs of the example graph at threshold 0.5, with the
    [uniprot_id] standing in for the element identifier: the
    relationship of weight 0.5 exactly is kept. *)
Lemma similar_pairs_are_the_heaviest_example :
  (length (find_proteins_by_similarity_threshold uniprot_id
             (example_manager example_rels) (1 # 2)) <= 100)%nat
  /\ StronglySorted weight_ge
       (find_proteins_by_similarity_threshold uniprot_id
          (example_manager example_rels) (1 # 2))
  /\ (forall a b w,
        (a, b, w) ∈ find_proteins_by_similarity_threshold uniprot_id
                      (example_manager example_rels) (1 # 2) ->
        (1 # 2 <= w)%Q
        /\ exists r, r ∈ similar (example_db example_rels) /\ jaccard_weight r = Some w
                     /\ ((source r = a /\ target r = b)
                         \/ (source r = b /\ target r = a)))
  /\ (forall x y,
        x ∈ find_proteins_by_similarity_threshold uniprot_id
              (example_manager example_rels) (1 # 2) ->
        y ∈ pair_rows uniprot_id (example_db example_rels) (1 # 2) ->
        y ∉ find_proteins_by_similarity_threshold uniprot_id
              (example_manager example_rels) (1 # 2) ->
        (snd y <= snd x)%Q)
  /\ ((length (pair_rows uniprot_id (example_db example_rels) (1 # 2)) <= 100)%nat ->
      find_proteins_by_similarity_threshold uniprot_id
        (example_manager example_rels) (1 # 2)
      ≡ₚ pair_rows uniprot_id (example_db example_rels) (1 # 2)).
Proof.
  apply (similar_pairs_are_the_heaviest uniprot_id (example_manager example_rels)
           (example_db example_rels) (1 # 2)).
  reflexivity.
Defined.

Lemma similar_pairs_example_rows :
  find_proteins_by_similarity_threshold uniprot_id (example_manager example_rels) (1 # 2)
  = [("W", "Z", 3 # 5); ("X", "Y", 1 # 2)].
Proof. vm_compute. reflexivity. Qed.

(** *** Every neighbour is linked *)

Lemma one_hop_tier1 m id depth data d h :
  get_protein_neighborhood m id depth = Some data -> driver m = Some d ->
  h ∈ one_hop d id -> h ∈ tier1_of data.
Proof.
  intros Hget Hm Hh.
  destruct (neighborhood_domains _ _ _ _ Hget) as (d' & p & Hm' & Hp & Hc & _ & Hrels).
  rewrite Hm in Hm'. injection Hm' as <-.
  assert (Hid : uniprot_id (center_protein data) = id).
  { rewrite Hc. now apply find_protein_id in Hp. }
  unfold one_hop in Hh. apply list_elem_of_fmap in Hh as (r1 & -> & Hr1).
  pose proof Hr1 as Hinc. apply list_elem_of_In, List.filter_In in Hinc as [Hin Hinc].
  apply incident_iff in Hinc.
  assert (Hrep : exists r', r' ∈ relationships data
                   /\ rel_source r' = source r1 /\ rel_target r' = target r1
                   /\ rel_type r' = "SIMILAR").
  { rewrite Hrels. destruct (decide (depth = 1)).
    - destruct (distinct_from_repr same_rel
                  (map similar_projection (List.filter (incident id) (similar d)))
                  [] (similar_projection r1)) as [(y & Hy & _)|(y & Hy & Hs)].
      + apply list_elem_of_fmap. eauto.
      + inversion Hy.
      + exists y. split; [apply elem_of_app; now left|].
        destruct Hs as [->|Hs]; [auto|].
        apply same_rel_ends in Hs as (H1 & H2 & H3). cbn in H1, H2, H3. auto.
    - exists (similar_projection r1). split; [|auto].
      apply elem_of_app. left. apply list_elem_of_fmap. exists r1. split; [reflexivity|].
      apply list_elem_of_In, List.filter_In. split; [exact Hin|].
      unfold on_paths. apply orb_true_iff. left. now apply incident_iff. }
  destruct Hrep as (r' & Hr' & Hs & Ht & Hty).
  apply tier1_of_spec. exists r'. split; [exact Hr'|]. split; [exact Hty|].
  rewrite Hid, Hs, Ht. unfold other_end.
  destruct (decide (source r1 = id)) as [E|E]; [left; auto|].
  right. destruct Hinc as [Hinc|Hinc]; [contradiction|]. auto.
Qed.

(** A neighbour outside tier 1 has a relationship with a tier-1 node. *)
Lemma tier2_has_link m id depth data x :
  get_protein_neighborhood m id depth = Some data ->
  x ∈ neighbors data ->
  uniprot_id x ∉ tier1_of data -> uniprot_id x <> id ->
  exists r, r ∈ relationships data /\ links_to (tier1_of data) (uniprot_id x) r.
Proof.
  intros Hget Hx HxT Hxc.
  destruct (neighborhood_domains _ _ _ _ Hget) as (d & p & Hm & Hp & Hc & _ & Hrels).
  pose proof (find_protein_id _ _ _ Hp) as Hpid.
  destruct (decide (depth = 1)) as [Hd|Hd].
  { subst depth. destruct (depth1_shape _ _ _ Hget) as (_ & _ & Hns).
    exfalso. apply HxT. now apply Hns. }
  assert (Hns : neighbors data
                = List.filter
                    (fun n => negb (bool_decide (uniprot_id n = uniprot_id p)))
                    (distinct same_protein
                       (p :: omap (find_protein d)
                               (flat_map (fun r => [source r; target r])
                                  (List.filter (on_paths d id) (similar d)))))).
  { revert Hget. unfold get_protein_neighborhood, query_depth2.
    rewrite Hm, Hp, decide_False by exact Hd. cbn. now intros [= <-]. }
  rewrite Hns in Hx. apply list_elem_of_In, List.filter_In in Hx as [Hx _].
  apply list_elem_of_In, distinct_from_elem in Hx.
  apply elem_of_cons in Hx as [->|Hx]; [congruence|].
  apply list_elem_of_omap in Hx as (i & Hi & Hfind).
  apply find_protein_id in Hfind. subst i.
  apply list_elem_of_In, in_flat_map in Hi as (r0 & Hr0 & Hend).
  pose proof Hr0 as Hpath. apply List.filter_In in Hpath as [Hin Hpath].
  assert (Hproj : similar_projection r0 ∈ relationships data).
  { rewrite Hrels. apply elem_of_app. left.
    apply list_elem_of_fmap. exists r0. split; [reflexivity|now apply list_elem_of_In]. }
  assert (Hends : uniprot_id x = source r0 \/ uniprot_id x = target r0).
  { cbn in Hend. destruct Hend as [H|[H|[]]]; auto. }
  unfold on_paths in Hpath. apply orb_true_iff in Hpath as [Hinc|Hhop].
  - exfalso. apply HxT. apply (one_hop_tier1 m id depth data d _ Hget Hm).
    unfold one_hop. apply list_elem_of_fmap. exists r0.
    split; [|apply list_elem_of_In, List.filter_In; auto].
    apply incident_iff in Hinc. unfold other_end.
    destruct (decide (source r0 = id)) as [E|E].
    + destruct Hends as [H|H]; [congruence|exact H].
    + destruct Hinc as [Hinc|Hinc]; [contradiction|].
      destruct Hends as [H|H]; [exact H|congruence].
  - apply existsb_exists in Hhop as (h & Hh & Hinc).
    apply list_elem_of_In in Hh.
    pose proof (one_hop_tier1 m id depth data d h Hget Hm Hh) as HhT.
    apply incident_iff in Hinc.
    exists (similar_projection r0). split; [exact Hproj|].
    split; [reflexivity|]. cbn [similar_projection rel_source rel_target].
    destruct Hinc as [Hinc|Hinc].
    + left. split; [now rewrite Hinc|].
      destruct Hends as [H|H]; [|auto]. exfalso. apply HxT. now rewrite H, Hinc.
    + right. split; [|now rewrite Hinc].
      destruct Hends as [H|H]; [auto|]. exfalso. apply HxT. now rewrite H, Hinc.
Qed.

Lemma similar_pairs_app l1 l2 : similar_pairs (l1 ++ l2) = similar_pairs l1 ++ similar_pairs l2.
Proof. apply omap_app. Qed.

Lemma similar_pairs_elem p l :
  p ∈ similar_pairs l
  <-> exists d, Edge d ∈ l /\ edge_type d = "SIMILAR"
                /\ p = (edge_source d, edge_target d).
Proof.
  unfold similar_pairs. rewrite list_elem_of_omap. split.
  - intros ([n|d] & He & H); [discriminate|]. cbn in H.
    destruct (decide (edge_type d = "SIMILAR")); [|discriminate].
    injection H as <-. eauto.
  - intros (d & He & Hty & ->). exists (Edge d). split; [exact He|].
    cbn. now rewrite decide_True by exact Hty.
Qed.

(** A tier-1 node has its edge from the centre. *)
Lemma tier1_edge data y :
  dash_free (relationships data) ->
  y ∈ tier1_of data -> y <> center_id_of data ->
  (center_id_of data, y) ∈ similar_pairs (export_elements data).
Proof.
  intros Hdash Hy Hyc.
  apply tier1_of_spec in Hy as (r & Hr & Hty & Hends). fold (center_id_of data) in Hends.
  assert (Hkept : kept (center_id_of data) r).
  { right. split; [exact Hty|]. unfold touches_center. tauto. }
  assert (Hkey : key_of r
                 ∈ map pair_key (similar_pairs (edge_elements data))).
  { unfold edge_elements.
    apply (elements_loop_keys (center_id_of data) (tier1_of data)).
    split; [|apply not_elem_of_empty].
    rewrite final_edges_of_spec. unfold similar_keys.
    apply elem_of_list_to_set. apply list_elem_of_fmap. exists r. split; [reflexivity|].
    apply list_elem_of_filter. split; [exact Hty|].
    apply elem_of_app. left. apply list_elem_of_filter. auto. }
  apply list_elem_of_fmap in Hkey as (q & Hq & Hin).
  pose proof Hin as Hin'.
  apply similar_pairs_elem in Hin' as (e & He & Hety & ->).
  apply export_edge in He.
  destruct (similar_edge_origin data e He Hety) as (r' & Hr' & Hty' & Ho & _ & _).
  rewrite Ho, pair_key_oriented in Hq. unfold key_of in Hq.
  destruct (Hdash r Hr Hty) as [Hd1 Hd2]. destruct (Hdash r' Hr' Hty') as [Hd1' Hd2'].
  apply edge_key_inj in Hq; try assumption.
  assert (Htouch : touches_center (center_id_of data) r').
  { unfold touches_center.
    destruct Hq as [[E1 E2]|[E1 E2]];
      destruct Hends as [[H3 H4]|(H3 & H4 & H5)];
      first [left; congruence|right; congruence]. }
  assert (Hpair : (edge_source e, edge_target e) = (center_id_of data, y)).
  { rewrite Ho, (oriented_center _ _ r' Htouch). f_equal.
    destruct (decide (rel_target r' = center_id_of data)) as [E|E];
      destruct Hq as [[H1 H2]|[H1 H2]];
      destruct Hends as [[H3 H4]|(H3 & H4 & H5)]; congruence. }
  rewrite Hpair in Hin.
  rewrite export_elements_parts, !similar_pairs_app.
  apply elem_of_app. right. apply elem_of_app. right. apply elem_of_app. now right.
Qed.

Lemma similar_pairs_export data :
  similar_pairs (export_elements data) = similar_pairs (edge_elements data).
Proof.
  rewrite export_elements_parts, !similar_pairs_app.
  assert (Hnone : forall l, (forall e, e ∈ l -> exists n, e = Node n) ->
                    similar_pairs l = []).
  { intros l Hl. apply omap_none. intros e He. destruct (Hl e He) as (n & ->).
    reflexivity. }
  rewrite (Hnone [_]), (Hnone (neighbors_loop _ _ _)), (Hnone (map domain_element _)).
  - reflexivity.
  - intros e He. apply list_elem_of_fmap in He as (x & -> & _). eauto.
  - intros e He. eapply neighbors_loop_nodes, He.
  - intros e He. apply list_elem_of_singleton in He as ->. eauto.
Qed.

Lemma similar_pairs_NoDup data : NoDup (similar_pairs (export_elements data)).
Proof.
  rewrite similar_pairs_export. unfold edge_elements.
  eapply NoDup_fmap_1.
  apply (elements_loop_keys (center_id_of data) (tier1_of data)).
Qed.

Lemma only_one {A} `{EqDecision A} (P : A -> Prop) `{!forall x, Decision (P x)}
    (l : list A) (a : A) :
  NoDup l -> a ∈ l -> P a -> (forall x, x ∈ l -> P x -> x = a) ->
  filter P l = [a].
Proof.
  intros Hnd Ha HPa Hall.
  assert (Hin : a ∈ filter P l) by (apply list_elem_of_filter; auto).
  assert (Hnd' : NoDup (filter P l)) by (now apply NoDup_filter).
  destruct (filter P l) as [|x [|y t]] eqn:E.
  - inversion Hin.
  - apply list_elem_of_singleton in Hin. now subst.
  - exfalso.
    assert (Hx : x = a).
    { assert (Gx : x ∈ filter P l) by (rewrite E; constructor).
      apply list_elem_of_filter in Gx as [G1 G2]. auto. }
    assert (Hy : y = a).
    { assert (Gy : y ∈ filter P l) by (rewrite E; do 2 constructor).
      apply list_elem_of_filter in Gy as [G1 G2]. auto. }
    subst. apply NoDup_cons in Hnd' as [Hnd' _]. apply Hnd'. constructor.
Qed.

(** The [SIMILAR] edges of an export form a tree around the centre: with
    identifiers that are not empty and hold no dash, every direct
    neighbour is the target of exactly one edge, which comes from the
    centre, and every neighbour of depth 2 is the target of exactly one
    edge, which comes from a direct neighbour. *)
Theorem every_neighbor_node_has_one_parent (m : manager) (protein_id : string)
    (depth : Z) (data : neighborhood) (n : node_data) :
  get_protein_neighborhood m protein_id depth = Some data ->
  dash_free (relationships data) ->
  Node n ∈ export_elements data ->
  node_id n <> EmptyString ->
  (node_type n = "neighbor_d1" ->
     filter (fun q => snd q = node_id n) (similar_pairs (export_elements data))
     = [(protein_id, node_id n)])
  /\ (node_type n = "neighbor_d2" ->
        exists y, y ∈ tier1_of data
                  /\ filter (fun q => snd q = node_id n)
                             (similar_pairs (export_elements data))
                     = [(y, node_id n)]).
Proof.
  intros Hget Hdash Hn Hne.
  destruct (neighborhood_domains _ _ _ _ Hget) as (d & p & Hm & Hp & Hc & _ & _).
  pose proof (query_shape _ _ _ _ Hget) as Hshape.
  assert (Hid : center_id_of data = protein_id).
  { unfold center_id_of. rewrite Hc. now apply find_protein_id in Hp. }
  assert (Horigin : node_type n = "neighbor_d1" \/ node_type n = "neighbor_d2" ->
            exists x, x ∈ neighbors data /\ uniprot_id x <> protein_id
                      /\ node_id n = uniprot_id x
                      /\ node_type n = (if decide (uniprot_id x ∈ tier1_of data)
                                        then "neighbor_d1" else "neighbor_d2")).
  { intros Hty. rewrite export_elements_parts, !elem_of_app in Hn.
    destruct Hn as [H|[H|[H|H]]].
    - apply list_elem_of_singleton in H. injection H as ->.
      cbn in Hty. destruct Hty; discriminate.
    - apply neighbors_loop_origin in H as (x & Hx & Hfresh & H).
      injection H as ->. exists x. split; [exact Hx|]. split; [|auto].
      intros E. apply Hfresh. apply elem_of_singleton. now rewrite Hid.
    - apply list_elem_of_fmap in H as (x & H & _). injection H as ->.
      cbn in Hty. destruct Hty; discriminate.
    - unfold edge_elements in H. apply elements_loop_edges in H as (? & ?).
      discriminate. }
  split.
  - intros Hty. destruct (Horigin (or_introl Hty)) as (x & Hx & Hxc & Hnid & Hnty).
    assert (HxT : uniprot_id x ∈ tier1_of data).
    { destruct (decide (uniprot_id x ∈ tier1_of data)); [assumption|].
      rewrite Hty in Hnty. discriminate. }
    rewrite Hnid, <- Hid.
    apply only_one; [apply similar_pairs_NoDup| |reflexivity|].
    + apply tier1_edge; [exact Hdash|exact HxT|now rewrite Hid].
    + intros [a b] Hq Hb. cbn [snd] in Hb. subst b.
      apply similar_pairs_elem in Hq as (e & He & Hety & Hq). injection Hq as -> Hb.
      destruct (surviving_edges data e Hshape He Hety) as [[Hs _]|(_ & _ & Ht & _)].
      * now rewrite Hs.
      * exfalso. apply Ht. now rewrite <- Hb.
  - intros Hty. destruct (Horigin (or_intror Hty)) as (x & Hx & Hxc & Hnid & Hnty).
    assert (HxT : uniprot_id x ∉ tier1_of data).
    { destruct (decide (uniprot_id x ∈ tier1_of data)); [|assumption].
      rewrite Hty in Hnty. discriminate. }
    destruct (tier2_has_link m protein_id depth data x Hget Hx HxT Hxc) as (r & Hr & Hlink).
    destruct (best_match_export data (uniprot_id x))
      as (l1 & r' & l2 & i & y & _ & _ & _ & Hy & _ & Hfilter).
    + exact Hshape.
    + exact Hdash.
    + exact HxT.
    + now rewrite Hid.
    + now rewrite <- Hnid.
    + unfold competitors. intros Hnil.
      assert (Hin : r ∈ filter (links_to (tier1_of data) (uniprot_id x)) (relationships data)).
      { apply list_elem_of_filter. auto. }
      rewrite Hnil in Hin. inversion Hin.
    + exists y. split; [exact Hy|]. rewrite Hnid.
      match type of Hfilter with
      | _ = [?e] =>
          assert (Hin : e ∈ filter (similar_edge_at (uniprot_id x)) (export_elements data))
            by (rewrite Hfilter; constructor)
      end.
      apply list_elem_of_filter in Hin as [_ Hin].
      apply only_one; [apply similar_pairs_NoDup| |reflexivity|].
      * apply similar_pairs_elem. eexists. split; [exact Hin|]. split; reflexivity.
      * intros [a b] Hq Hb. cbn [snd] in Hb. subst b.
        apply similar_pairs_elem in Hq as (e & He & Hety & Hq). injection Hq as -> Hb.
        assert (He' : Edge e ∈ filter (similar_edge_at (uniprot_id x)) (export_elements data)).
        { apply list_elem_of_filter. split; [|exact He]. cbn. auto. }
        rewrite Hfilter in He'. apply list_elem_of_singleton in He'.
        injection He' as ->. reflexivity.
Qed.

(** The node of [W] in the depth-2 export of the example. *)
Definition example_node_W : node_data :=
  {| node_id := "W"; node_label := "W"; node_full_name := "N/A";
     node_type := "neighbor_d2"; node_length := Some (PyInt 0) |}.

Lemma every_neighbor_node_has_one_parent_example :
  (node_type example_node_W = "neighbor_d1" ->
     filter (fun q => snd q = node_id example_node_W)
            (similar_pairs (export_elements example_neighborhood))
     = [("X", node_id example_node_W)])
  /\ (node_type example_node_W = "neighbor_d2" ->
        exists y, y ∈ tier1_of example_neighborhood
                  /\ filter (fun q => snd q = node_id example_node_W)
                             (similar_pairs (export_elements example_neighborhood))
                     = [(y, node_id example_node_W)]).
Proof.
  apply (every_neighbor_node_has_one_parent (example_manager example_rels) "X" 2
           example_neighborhood example_node_W).
  - exact example_neighborhood_retrieved.
  - apply (bool_decide_unpack _). vm_compute. exact I.
  - vm_compute. repeat constructor.
  - discriminate.
Defined.

(** *** Tier 1 and the store *)

(** At every depth, tier 1 is the set of the proteins one [SIMILAR] hop
    from the centre in the store; a neighbour node is typed
    [neighbor_d1] when its protein is one of them and [neighbor_d2] when
    it is not. *)
Theorem tier1_is_one_hop (m : manager) (d : graph_db) (protein_id : string)
    (depth : Z) (data : neighborhood) :
  driver m = Some d ->
  get_protein_neighborhood m protein_id depth = Some data ->
  (forall x, x ∈ tier1_of data <-> x ∈ one_hop d protein_id)
  /\ (forall n, Node n ∈ export_elements data ->
        (node_type n = "neighbor_d1" -> node_id n ∈ one_hop d protein_id)
        /\ (node_type n = "neighbor_d2" -> node_id n ∉ one_hop d protein_id)).
Proof.
  intros Hm Hget.
  destruct (neighborhood_domains _ _ _ _ Hget) as (d' & p & Hm' & Hp & Hc & _ & Hrels).
  rewrite Hm in Hm'. injection Hm' as <-.
  assert (Hid : uniprot_id (center_protein data) = protein_id).
  { rewrite Hc. now apply find_protein_id in Hp. }
  assert (Htier : forall x, x ∈ tier1_of data <-> x ∈ one_hop d protein_id).
  { intros x. split; [|apply (one_hop_tier1 m protein_id depth data d x Hget Hm)].
    intros Hx. apply tier1_of_spec in Hx as (r & Hr & Hty & Hends).
    rewrite Hid in Hends.
    assert (Hr0 : exists r0, r0 ∈ similar d /\ r = similar_projection r0).
    { rewrite Hrels in Hr. apply elem_of_app in Hr as [Hr|Hr].
      - destruct (decide (depth = 1)).
        + apply distinct_from_elem, list_elem_of_fmap in Hr as (r0 & -> & Hr0).
          apply list_elem_of_In, List.filter_In in Hr0 as [Hr0 _].
          exists r0. split; [now apply list_elem_of_In|reflexivity].
        + apply list_elem_of_fmap in Hr as (r0 & -> & Hr0).
          apply list_elem_of_In, List.filter_In in Hr0 as [Hr0 _].
          exists r0. split; [now apply list_elem_of_In|reflexivity].
      - apply center_domain_rels_type in Hr. rewrite Hr in Hty. discriminate. }
    destruct Hr0 as (r0 & Hr0 & ->). cbn [similar_projection rel_source rel_target] in Hends.
    unfold one_hop. apply list_elem_of_fmap. exists r0. split.
    - unfold other_end. destruct (decide (source r0 = protein_id)) as [E|E];
        destruct Hends as [[H1 H2]|(H1 & H2 & H3)]; congruence.
    - apply list_elem_of_In, List.filter_In. split; [now apply list_elem_of_In|].
      apply incident_iff. destruct Hends as [[H1 _]|(_ & H2 & _)]; auto. }
  split; [exact Htier|].
  intros n Hn.
  assert (Hcase : node_type n = "center" \/ node_type n = "domain"
                  \/ exists x, node_id n = uniprot_id x
                        /\ node_type n = (if decide (uniprot_id x ∈ tier1_of data)
                                          then "neighbor_d1" else "neighbor_d2")).
  { rewrite export_elements_parts, !elem_of_app in Hn.
    destruct Hn as [H|[H|[H|H]]].
    - apply list_elem_of_singleton in H. injection H as ->. now left.
    - apply neighbors_loop_origin in H as (x & _ & _ & H).
      injection H as ->. right. right. eauto.
    - apply list_elem_of_fmap in H as (x & H & _). injection H as ->. right. now left.
    - unfold edge_elements in H. apply elements_loop_edges in H as (? & ?).
      discriminate. }
  destruct Hcase as [Hty|[Hty|(x & Hnid & Hty)]].
  - split; intros H; rewrite Hty in H; discriminate.
  - split; intros H; rewrite Hty in H; discriminate.
  - rewrite Hnid, <- Htier. rewrite Hty.
    destruct (decide (uniprot_id x ∈ tier1_of data)); split; intros H;
      first [assumption|discriminate].
Qed.

Lemma tier1_is_one_hop_example :
  (forall x, x ∈ tier1_of example_neighborhood
             <-> x ∈ one_hop (example_db example_rels) "X")
  /\ (forall n, Node n ∈ export_elements example_neighborhood ->
        (node_type n = "neighbor_d1" -> node_id n ∈ one_hop (example_db example_rels) "X")
        /\ (node_type n = "neighbor_d2" ->
            node_id n ∉ one_hop (example_db example_rels) "X")).
Proof.
  apply (tier1_is_one_hop (example_manager example_rels) (example_db example_rels)
           "X" 2 example_neighborhood).
  - reflexivity.
  - exact example_neighborhood_retrieved.
Defined.

End Neo4jQueries.
